(** * Gabow's label-based maximum matching: a shallow embedding of
      [MaxMatching.py] and the properties of its procedures.

    The Python class [MaxMatching] is one mutable object; every method is
    embedded as a computation in a state-and-exception monad over the
    record [state].  Python integers are [Z]; Python lists are Rocq lists
    indexed the way Python indexes them (a negative index counts from the
    end, an index outside [-len, len) raises [IndexError]).  Loops whose
    termination is not structural ([while True] in [L] and [E], the
    recursion of [R]) take a fuel argument and answer [OutOfFuel] when it
    is exhausted.  The last part embeds [example.py], the caller of the
    class. *)

From Stdlib Require Import ZArith List Lia Bool Permutation.
Import ListNotations.
Open Scope Z_scope.

(** ** Python lists *)

Module Py.

Definition len {A} (l : list A) : Z := Z.of_nat (length l).

(** [l[i]]: the position a Python index denotes, if any. *)
Definition norm {A} (l : list A) (i : Z) : option nat :=
  if (0 <=? i) && (i <? len l) then Some (Z.to_nat i)
  else if (i <? 0) && (- len l <=? i) then Some (Z.to_nat (len l + i))
  else None.

Definition get {A} (l : list A) (i : Z) : option A :=
  match norm l i with
  | Some k => nth_error l k
  | None => None
  end.

Fixpoint upd {A} (l : list A) (k : nat) (a : A) : list A :=
  match l, k with
  | [], _ => []
  | _ :: t, O => a :: t
  | h :: t, S k' => h :: upd t k' a
  end.

Definition set {A} (l : list A) (i : Z) (a : A) : option (list A) :=
  match norm l i with
  | Some k => Some (upd l k a)
  | None => None
  end.

(** [v in s] for a collection of integers. *)
Fixpoint mem (v : Z) (s : list Z) : bool :=
  match s with
  | [] => false
  | h :: t => (h =? v) || mem v t
  end.

End Py.

(** ** The object *)

(** The fields of a [MaxMatching] instance.  [outerVertices] is a Python
    [set]; it is kept as the list of its members in insertion order,
    [setLabel] being the only writer and adding a member only when it is
    absent.  The two loops that iterate over it ([stopTheSearch], step L5)
    end with the same object in whatever order the members are enumerated
    ([stopTheSearch_any_order], [L_update_FIRST_any_order] below). *)
Record state := mkState {
  V : Z;
  VPlusOne : Z;
  END : list Z;
  graph : list (list Z);
  outerEdges : list (Z * Z);
  outerVertices : list Z;
  outerIdx : Z;
  LABEL : list Z;
  MATE : list Z;
  FIRST : list Z
}.

Definition with_END (s : state) (x : list Z) : state :=
  mkState (V s) (VPlusOne s) x (graph s) (outerEdges s) (outerVertices s)
          (outerIdx s) (LABEL s) (MATE s) (FIRST s).
Definition with_graph (s : state) (x : list (list Z)) : state :=
  mkState (V s) (VPlusOne s) (END s) x (outerEdges s) (outerVertices s)
          (outerIdx s) (LABEL s) (MATE s) (FIRST s).
Definition with_outerEdges (s : state) (x : list (Z * Z)) : state :=
  mkState (V s) (VPlusOne s) (END s) (graph s) x (outerVertices s)
          (outerIdx s) (LABEL s) (MATE s) (FIRST s).
Definition with_outerVertices (s : state) (x : list Z) : state :=
  mkState (V s) (VPlusOne s) (END s) (graph s) (outerEdges s) x
          (outerIdx s) (LABEL s) (MATE s) (FIRST s).
Definition with_outerIdx (s : state) (x : Z) : state :=
  mkState (V s) (VPlusOne s) (END s) (graph s) (outerEdges s)
          (outerVertices s) x (LABEL s) (MATE s) (FIRST s).
Definition with_LABEL (s : state) (x : list Z) : state :=
  mkState (V s) (VPlusOne s) (END s) (graph s) (outerEdges s)
          (outerVertices s) (outerIdx s) x (MATE s) (FIRST s).
Definition with_MATE (s : state) (x : list Z) : state :=
  mkState (V s) (VPlusOne s) (END s) (graph s) (outerEdges s)
          (outerVertices s) (outerIdx s) (LABEL s) x (FIRST s).
Definition with_FIRST (s : state) (x : list Z) : state :=
  mkState (V s) (VPlusOne s) (END s) (graph s) (outerEdges s)
          (outerVertices s) (outerIdx s) (LABEL s) (MATE s) x.

(** ** The monad: a mutable object, exceptions, and fuel *)

Inductive exn := IndexError | TypeError.

(** A raised exception keeps the object as mutated so far. *)
Inductive outcome (A : Type) :=
| Ok (a : A) (s : state)
| Raise (e : exn) (s : state)
| OutOfFuel.
Arguments Ok {A} a s.
Arguments Raise {A} e s.
Arguments OutOfFuel {A}.

Definition M (A : Type) := state -> outcome A.

Definition ret {A} (a : A) : M A := fun s => Ok a s.
Definition bind {A B} (m : M A) (f : A -> M B) : M B :=
  fun s => match m s with
           | Ok a s' => f a s'
           | Raise e s' => Raise e s'
           | OutOfFuel => OutOfFuel
           end.
Definition raise {A} (e : exn) : M A := fun s => Raise e s.
Definition diverge {A} : M A := fun _ => OutOfFuel.
Definition gets {A} (f : state -> A) : M A := fun s => Ok (f s) s.
Definition modify (f : state -> state) : M unit := fun s => Ok tt (f s).

Notation "x <- m ;; k" := (bind m (fun x => k))
  (at level 61, m at next level, right associativity).
Notation "m ;;; k" := (bind m (fun _ => k))
  (at level 61, right associativity).

(** [self.F[i]] *)
Definition index {A} (F : state -> list A) (i : Z) : M A :=
  fun s => match Py.get (F s) i with
           | Some a => Ok a s
           | None => Raise IndexError s
           end.

(** [self.F[i] = a] *)
Definition assign {A} (F : state -> list A) (W : state -> list A -> state)
           (i : Z) (a : A) : M unit :=
  fun s => match Py.set (F s) i a with
           | Some l => Ok tt (W s l)
           | None => Raise IndexError s
           end.

(** [for x in xs: body(x)] over a snapshot of the iterated collection. *)
Fixpoint for_each {A} (xs : list A) (body : A -> M unit) : M unit :=
  match xs with
  | [] => ret tt
  | x :: xs' => body x ;;; for_each xs' body
  end.

(** ** Methods *)

(** [__init__] *)
Definition init (n : Z) : state :=
  let k := Z.to_nat (n + 1) in
  mkState n (n + 1) [] (repeat [] k) [] [] 0
          (repeat (-1) k) (repeat 0 k) (repeat 0 k).

(** [self.graph[v].append(e)] *)
Definition graph_append (v e : Z) : M unit :=
  adj <- index graph v ;;
  assign graph with_graph v (adj ++ [e]).

Definition addEdge (v w : Z) : M unit :=
  n_vw <- gets (fun s => Py.len (END s) + VPlusOne s) ;;
  modify (fun s => with_END s (END s ++ [v])) ;;;
  modify (fun s => with_END s (END s ++ [w])) ;;;
  graph_append v n_vw ;;;
  graph_append w n_vw.

Definition getEdge (n_vw : Z) : M (Z * Z) :=
  k <- gets (fun s => n_vw - VPlusOne s) ;;
  a <- index END k ;;
  b <- index END (k + 1) ;;
  ret (a, b).

(** [MATE[1:]] is the tail; an empty list has an empty slice. *)
Definition getMatchingSize (s : state) : Z :=
  fold_right Z.add 0
    (map (fun x => if x >? 0 then 1 else 0) (tl (MATE s))).

Definition setLabel (v label : Z) : M unit :=
  assign LABEL with_LABEL v label ;;;
  outer <- gets (fun s => Py.mem v (outerVertices s)) ;;
  if (label >=? 0) && negb outer then
    modify (fun s => with_outerVertices s (outerVertices s ++ [v])) ;;;
    adj <- index graph v ;;
    modify (fun s => with_outerEdges s
                       (outerEdges s ++ map (fun e => (v, e)) adj))
  else ret tt.

Definition hasVertexLabel (v : Z) : M bool :=
  l <- index LABEL v ;;
  if l >=? 1 then
    l' <- index LABEL v ;;
    n <- gets V ;;
    ret (l' <=? n)
  else ret false.

(** The operands of an ordering comparison in [hasEdgeLabel]: integers and
    the list object [self.LABEL].  Ordering a list against an integer is a
    [TypeError]. *)
Inductive pyval := PInt (z : Z) | PList (l : list Z).

Definition py_le (a b : pyval) : M bool :=
  match a, b with
  | PInt x, PInt y => ret (x <=? y)
  | _, _ => raise TypeError
  end.

Definition hasEdgeLabel (v : Z) : M bool :=
  WTimesTwo <- gets (fun s => Py.len (END s)) ;;
  l <- index LABEL v ;;
  n <- gets V ;;
  if l >? n then
    whole <- gets LABEL ;;
    py_le (PList whole) (PInt (n + WTimesTwo))
  else ret false.

Definition hasStartLabel (v : Z) : M bool :=
  l <- index LABEL v ;;
  ret (l =? 0).

Definition chooseAnEdge : M (option (Z * Z)) :=
  n <- gets (fun s => Py.len (outerEdges s)) ;;
  i <- gets outerIdx ;;
  if n >? i then
    x_nxy <- index outerEdges i ;;
    modify (fun s => with_outerIdx s (outerIdx s + 1)) ;;;
    ret (Some x_nxy)
  else ret None.

(** The body of the loop of [stopTheSearch]. *)
Definition reset_labels (v : Z) : M unit :=
  setLabel v (-1) ;;;
  m <- index MATE v ;;
  setLabel m (-1).

Definition stopTheSearch : M unit :=
  assign LABEL with_LABEL 0 (-1) ;;;
  vs <- gets outerVertices ;;
  for_each vs reset_labels ;;;
  modify (fun s => with_outerVertices s []) ;;;
  modify (fun s => with_outerEdges s []) ;;;
  modify (fun s => with_outerIdx s 0).

Definition isMatched (v : Z) : M bool :=
  m <- index MATE v ;;
  ret (m >? 0).

Definition isOuterVertex (v : Z) : M bool :=
  gets (fun s => Py.mem v (outerVertices s)).

Definition setFlag (v n_xy : Z) : M unit := setLabel v (- n_xy).

Definition isFlagged (v n_xy : Z) : M bool :=
  l <- index LABEL v ;;
  ret (l =? - n_xy).

(** [FIRST[LABEL[MATE[r]]]] *)
Definition next (r : Z) : M Z :=
  m <- index MATE r ;;
  l <- index LABEL m ;;
  index FIRST l.

(** Steps L1-L2: the [while True] loop; it returns [join]. *)
Fixpoint L_find (fuel : nat) (n_xy r s : Z) : M Z :=
  match fuel with
  | O => diverge
  | S fuel' =>
      let '(r1, s1) := if negb (s =? 0) then (s, r) else (r, s) in
      r2 <- next r1 ;;
      f <- isFlagged r2 n_xy ;;
      if f then ret r2
      else setFlag r2 n_xy ;;; L_find fuel' n_xy r2 s1
  end.

(** Step L4: [while v != join]. *)
Fixpoint L_label (fuel : nat) (n_xy join v : Z) : M unit :=
  match fuel with
  | O => diverge
  | S fuel' =>
      if negb (v =? join) then
        setLabel v n_xy ;;;
        assign FIRST with_FIRST v join ;;;
        v' <- next v ;;
        L_label fuel' n_xy join v'
      else ret tt
  end.

(** The body of the loop of step L5. *)
Definition update_FIRST (join i : Z) : M unit :=
  fi <- index FIRST i ;;
  o <- isOuterVertex fi ;;
  if o then assign FIRST with_FIRST i join else ret tt.

(** Step L5: [for i in self.outerVertices]. *)
Definition L_update_FIRST (join : Z) : M unit :=
  vs <- gets outerVertices ;;
  for_each vs (update_FIRST join).

(** [L] from the first [setFlag] on, that is, past the early [return]. *)
Definition L_blossom (fuel : nat) (x y n_xy r s : Z) : M unit :=
  setFlag r n_xy ;;;
  join <- L_find fuel n_xy r s ;;
  fx <- index FIRST x ;;
  fy <- index FIRST y ;;
  L_label fuel n_xy join fx ;;;
  L_label fuel n_xy join fy ;;;
  L_update_FIRST join.

Definition L (fuel : nat) (x y n_xy : Z) : M unit :=
  r <- index FIRST x ;;
  s <- index FIRST y ;;
  if r =? s then ret tt
  else L_blossom fuel x y n_xy r s.

(** [R]; the fuel is the number of nested activations still allowed. *)
Fixpoint R (depth : nat) (v w : Z) : M unit :=
  match depth with
  | O => diverge
  | S depth' =>
      t <- index MATE v ;;
      assign MATE with_MATE v w ;;;
      mt <- index MATE t ;;
      if negb (mt =? v) then ret tt
      else
        vl <- hasVertexLabel v ;;
        if vl then
          lv <- index LABEL v ;;
          assign MATE with_MATE t lv ;;;
          lv' <- index LABEL v ;;
          R depth' lv' t
        else
          lv <- index LABEL v ;;
          xy <- getEdge lv ;;
          R depth' (fst xy) (snd xy) ;;;
          R depth' (snd xy) (fst xy)
  end.

(** One pass through the body of the [while True] loop of [E] for the
    search rooted at [u]: [true] when the loop goes round again
    ([continue], or falling off the end of the body), [false] on [break]. *)
Definition search_step (fuel depth : nat) (u : Z) : M bool :=
  c <- chooseAnEdge ;;
  match c with
  | None => stopTheSearch ;;; ret false
  | Some (x, n_xy) =>
      edge <- getEdge n_xy ;;
      let y := Z.lxor (Z.lxor x (fst edge)) (snd edge) in
      my <- isMatched y ;;
      if negb my && negb (y =? u) then
        assign MATE with_MATE y x ;;;
        R depth x y ;;;
        stopTheSearch ;;;
        ret false
      else
        oy <- isOuterVertex y ;;
        if oy then
          L fuel x y n_xy ;;;
          ret true
        else
          v <- index MATE y ;;
          ov <- isOuterVertex v ;;
          (if negb ov then
             setLabel v x ;;;
             assign FIRST with_FIRST v y
           else ret tt) ;;;
          ret true
  end.

(** The [while True] loop itself; [fuel] bounds the loops of [L], [depth]
    the nesting of [R], [k] the number of passes. *)
Fixpoint search (fuel depth : nat) (u : Z) (k : nat) : M unit :=
  match k with
  | O => diverge
  | S k' =>
      again <- search_step fuel depth u ;;
      if again then search fuel depth u k' else ret tt
  end.

(** [range(1, self.V + 1)] *)
Definition vertices (n : Z) : list Z :=
  map Z.of_nat (seq 1 (Z.to_nat n)).

Definition E_body (fuel depth : nat) (u : Z) : M unit :=
  m <- index MATE u ;;
  if m >? 0 then ret tt
  else
    setLabel u 0 ;;;
    assign FIRST with_FIRST u 0 ;;;
    search fuel depth u fuel.

Definition E (fuel depth : nat) : M unit :=
  n <- gets V ;;
  for_each (vertices n) (E_body fuel depth).

(** A graph built by the caller: [MaxMatching(n)] followed by one
    [addEdge] per listed pair. *)
Definition build (n : Z) (edges : list (Z * Z)) : M unit :=
  for_each edges (fun e => addEdge (fst e) (snd e)).

Definition run (fuel depth : nat) (n : Z) (edges : list (Z * Z)) :
  outcome unit :=
  (build n edges ;;; E fuel depth) (init n).

Definition size_of (o : outcome unit) : option Z :=
  match o with
  | Ok _ s => Some (getMatchingSize s)
  | _ => None
  end.

(** ** Reasoning about computations *)

(** A Hoare triple with a normal and an exceptional postcondition; running
    out of fuel satisfies it (partial correctness). *)
Definition triple {A} (P : state -> Prop) (m : M A)
           (Q : A -> state -> Prop) (X : state -> Prop) : Prop :=
  forall s, P s ->
    match m s with
    | Ok a s' => Q a s'
    | Raise _ s' => X s'
    | OutOfFuel => True
    end.

Section Triples.

Context {A B : Type}.
Variables (P : state -> Prop) (X : state -> Prop).

Lemma triple_ret (a : A) (Q : A -> state -> Prop) :
  (forall s, P s -> Q a s) -> triple P (ret a) Q X.
Proof. intros H s Hs; simpl; auto. Qed.

Lemma triple_bind (m : M A) (f : A -> M B) (Q1 : A -> state -> Prop)
      (Q : B -> state -> Prop) :
  triple P m Q1 X ->
  (forall a, triple (Q1 a) (f a) Q X) ->
  triple P (bind m f) Q X.
Proof.
  intros Hm Hf s Hs. unfold bind. specialize (Hm s Hs).
  destruct (m s) as [a s'| e s' |]; auto.
  apply (Hf a s' Hm).
Qed.

Lemma triple_gets (g : state -> A) (Q : A -> state -> Prop) :
  (forall s, P s -> Q (g s) s) -> triple P (gets g) Q X.
Proof. intros H s Hs; simpl; auto. Qed.

Lemma triple_raise (e : exn) (Q : A -> state -> Prop) :
  (forall s, P s -> X s) -> triple P (raise e) Q X.
Proof. intros H s Hs; simpl; auto. Qed.

Lemma triple_diverge (Q : A -> state -> Prop) : triple P diverge Q X.
Proof. intros s Hs; exact I. Qed.

Lemma triple_index (F : state -> list A) (i : Z) (Q : A -> state -> Prop) :
  (forall s a, P s -> Py.get (F s) i = Some a -> Q a s) ->
  (forall s, P s -> X s) ->
  triple P (index F i) Q X.
Proof.
  intros H HX s Hs. unfold index.
  destruct (Py.get (F s) i) eqn:E; auto.
Qed.

Lemma triple_assign (F : state -> list A) W (i : Z) (a : A)
      (Q : unit -> state -> Prop) :
  (forall s l, P s -> Py.set (F s) i a = Some l -> Q tt (W s l)) ->
  (forall s, P s -> X s) ->
  triple P (assign F W i a) Q X.
Proof.
  intros H HX s Hs. unfold assign.
  destruct (Py.set (F s) i a) eqn:E; auto.
Qed.

End Triples.

Lemma triple_modify (P X : state -> Prop) (g : state -> state)
      (Q : unit -> state -> Prop) :
  (forall s, P s -> Q tt (g s)) -> triple P (modify g) Q X.
Proof. intros H s Hs; simpl; auto. Qed.

Lemma triple_weaken {A} (P P' : state -> Prop) (m : M A)
      (Q Q' : A -> state -> Prop) (X X' : state -> Prop) :
  triple P' m Q' X' ->
  (forall s, P s -> P' s) ->
  (forall a s, Q' a s -> Q a s) ->
  (forall s, X' s -> X s) ->
  triple P m Q X.
Proof.
  intros H HP HQ HX s Hs. specialize (H s (HP s Hs)).
  destruct (m s); auto.
Qed.

Lemma triple_for_each {A} (I X : state -> Prop) (xs : list A)
      (body : A -> M unit) :
  (forall x, In x xs -> triple I (body x) (fun _ => I) X) ->
  triple I (for_each xs body) (fun _ => I) X.
Proof.
  induction xs as [|x xs IH]; intros H; simpl.
  - apply triple_ret; auto.
  - eapply triple_bind.
    + apply H; left; reflexivity.
    + intros []. apply IH. intros y Hy. apply H; right; exact Hy.
Qed.

(** A statement that holds of every state satisfying [P] can be used to
    case on a boolean computed from values. *)
Lemma triple_if {A} (b : bool) (P X : state -> Prop) (m1 m2 : M A) Q :
  (b = true -> triple P m1 Q X) ->
  (b = false -> triple P m2 Q X) ->
  triple P (if b then m1 else m2) Q X.
Proof. destruct b; auto. Qed.

(** ** Python list facts *)

Section PyFacts.

Context {A : Type}.

Lemma upd_length (l : list A) k a : length (Py.upd l k a) = length l.
Proof.
  revert k; induction l as [|h t IH]; intros [|k]; simpl; auto.
Qed.

Lemma upd_nth_same (l : list A) k a :
  (k < length l)%nat -> nth_error (Py.upd l k a) k = Some a.
Proof.
  revert k; induction l as [|h t IH]; intros [|k] H; simpl in *;
    try lia; auto. apply IH; lia.
Qed.

Lemma upd_nth_other (l : list A) k j a :
  j <> k -> nth_error (Py.upd l k a) j = nth_error l j.
Proof.
  revert k j; induction l as [|h t IH]; intros [|k] [|j] H; simpl;
    auto; try congruence.
Qed.

Lemma norm_bound (l : list A) i k :
  Py.norm l i = Some k -> (k < length l)%nat.
Proof.
  unfold Py.norm, Py.len.
  destruct ((0 <=? i) && (i <? Z.of_nat (length l))) eqn:E1.
  - intros [= <-]. apply andb_prop in E1. lia.
  - destruct ((i <? 0) && (- Z.of_nat (length l) <=? i)) eqn:E2;
      [|discriminate].
    intros [= <-]. apply andb_prop in E2. lia.
Qed.

Lemma norm_nonneg (l : list A) i k :
  0 <= i -> Py.norm l i = Some k -> k = Z.to_nat i.
Proof.
  unfold Py.norm. intros Hi.
  destruct ((0 <=? i) && (i <? Py.len l)) eqn:E1.
  - congruence.
  - replace (i <? 0) with false by lia. simpl. discriminate.
Qed.

Lemma norm_in_range (l : list A) i :
  - Py.len l <= i < Py.len l -> exists k, Py.norm l i = Some k.
Proof.
  unfold Py.norm. intros H.
  destruct ((0 <=? i) && (i <? Py.len l)) eqn:E1; eauto.
  replace ((i <? 0) && (- Py.len l <=? i)) with true; eauto.
  symmetry. apply andb_true_intro.
  destruct (Z.leb_spec 0 i); simpl in E1; split; lia.
Qed.

Lemma norm_out_of_range (l : list A) i :
  i < - Py.len l \/ Py.len l <= i -> Py.norm l i = None.
Proof.
  unfold Py.norm. intros H.
  replace ((0 <=? i) && (i <? Py.len l)) with false.
  - replace ((i <? 0) && (- Py.len l <=? i)) with false; auto.
    symmetry. apply andb_false_iff. unfold Py.len in *. lia.
  - symmetry. apply andb_false_iff. unfold Py.len in *. lia.
Qed.

Lemma set_length (l l' : list A) i a :
  Py.set l i a = Some l' -> length l' = length l.
Proof.
  unfold Py.set. destruct (Py.norm l i); [|discriminate].
  intros [= <-]. apply upd_length.
Qed.

Lemma get_set_same (l l' : list A) i a :
  Py.set l i a = Some l' -> Py.get l' i = Some a.
Proof.
  unfold Py.set, Py.get. destruct (Py.norm l i) as [k|] eqn:E;
    [|discriminate].
  intros [= <-].
  assert (Py.norm (Py.upd l k a) i = Some k) as ->.
  { unfold Py.norm, Py.len in *. rewrite upd_length. exact E. }
  apply upd_nth_same. eapply norm_bound; eauto.
Qed.

(** Two distinct non-negative indices denote distinct cells. *)
Lemma get_set_other (l l' : list A) i j a :
  0 <= i -> 0 <= j -> i <> j ->
  Py.set l i a = Some l' -> Py.get l' j = Py.get l j.
Proof.
  unfold Py.set, Py.get. intros Hi Hj Hij.
  destruct (Py.norm l i) as [k|] eqn:E; [|discriminate].
  intros [= <-].
  assert (Py.norm (Py.upd l k a) j = Py.norm l j) as ->.
  { unfold Py.norm, Py.len. rewrite upd_length. reflexivity. }
  destruct (Py.norm l j) as [k'|] eqn:E'; auto.
  apply upd_nth_other.
  apply norm_nonneg in E, E'; auto. subst. lia.
Qed.

Lemma get_in (l : list A) i a : Py.get l i = Some a -> In a l.
Proof.
  unfold Py.get. destruct (Py.norm l i); [|discriminate].
  apply nth_error_In.
Qed.

Lemma upd_in (l : list A) k a x : In x (Py.upd l k a) -> x = a \/ In x l.
Proof.
  revert k; induction l as [|h t IH]; intros [|k]; simpl; auto.
  - intros [->|H]; auto.
  - intros [->|H]; auto. destruct (IH _ H); auto.
Qed.

Lemma set_in (l l' : list A) i a x :
  Py.set l i a = Some l' -> In x l' -> x = a \/ In x l.
Proof.
  unfold Py.set. destruct (Py.norm l i); [|discriminate].
  intros [= <-]. apply upd_in.
Qed.

End PyFacts.

Lemma mem_In v s : Py.mem v s = true <-> In v s.
Proof.
  induction s as [|h t IH]; simpl.
  - split; [discriminate | tauto].
  - rewrite orb_true_iff, IH, Z.eqb_eq. tauto.
Qed.

Lemma mem_app v s1 s2 : Py.mem v (s1 ++ s2) = Py.mem v s1 || Py.mem v s2.
Proof.
  induction s1 as [|h t IH]; simpl; auto. rewrite IH, orb_assoc. reflexivity.
Qed.

(** ** Properties kept by a computation however it ends *)

Definition preserves {A} (I : state -> Prop) (m : M A) : Prop :=
  triple I m (fun _ => I) I.

Section Preserves.

Variable I : state -> Prop.

Lemma preserves_ret {A} (a : A) : preserves I (ret a).
Proof. apply triple_ret; auto. Qed.

Lemma preserves_bind {A B} (m : M A) (f : A -> M B) :
  preserves I m -> (forall a, preserves I (f a)) -> preserves I (bind m f).
Proof. intros Hm Hf. eapply triple_bind; eauto. Qed.

Lemma preserves_gets {A} (g : state -> A) : preserves I (gets g).
Proof. apply triple_gets; auto. Qed.

Lemma preserves_raise {A} e : preserves I (@raise A e).
Proof. apply triple_raise; auto. Qed.

Lemma preserves_diverge {A} : preserves I (@diverge A).
Proof. apply triple_diverge. Qed.

Lemma preserves_index {A} (F : state -> list A) i : preserves I (index F i).
Proof. apply triple_index; auto. Qed.

Lemma preserves_assign {A} (F : state -> list A) W i a :
  (forall s l, I s -> I (W s l)) -> preserves I (assign F W i a).
Proof. intros H. apply triple_assign; eauto. Qed.

Lemma preserves_modify g :
  (forall s, I s -> I (g s)) -> preserves I (modify g).
Proof. intros H. apply triple_modify; auto. Qed.

Lemma preserves_for_each {A} (xs : list A) body :
  (forall x, preserves I (body x)) -> preserves I (for_each xs body).
Proof. intros H. apply triple_for_each. intros x _. apply H. Qed.

Lemma preserves_if {A} (b : bool) (m1 m2 : M A) :
  preserves I m1 -> preserves I m2 -> preserves I (if b then m1 else m2).
Proof. destruct b; auto. Qed.

End Preserves.

(** Splits a computation along its binds and conditionals, leaving the
    state-changing leaves. *)
Ltac preserve_tac :=
  repeat lazymatch goal with
    | |- preserves _ (bind _ _) => apply preserves_bind; [| intros ?]
    | |- preserves _ (ret _) => apply preserves_ret
    | |- preserves _ (gets _) => apply preserves_gets
    | |- preserves _ (index _ _) => apply preserves_index
    | |- preserves _ (raise _) => apply preserves_raise
    | |- preserves _ diverge => apply preserves_diverge
    | |- preserves _ (if _ then _ else _) => apply preserves_if
    | |- preserves _ (match ?x with _ => _ end) => destruct x
    end.

(** ** What [R] does not touch *)

(** Everything of the object except [MATE]. *)
Definition frame (s : state) :=
  (V s, VPlusOne s, END s, graph s, outerEdges s, outerVertices s,
   outerIdx s, LABEL s, FIRST s).

Lemma frame_with_MATE s l : frame (with_MATE s l) = frame s.
Proof. reflexivity. Qed.

Lemma hasVertexLabel_preserves I v : preserves I (hasVertexLabel v).
Proof. unfold hasVertexLabel. preserve_tac. Qed.

Lemma getEdge_preserves I n : preserves I (getEdge n).
Proof. unfold getEdge. preserve_tac. Qed.

Lemma R_frame (f : _) (depth : nat) :
  forall v w, preserves (fun s => frame s = f) (R depth v w).
Proof.
  induction depth as [|d IH]; intros v w; simpl.
  - apply preserves_diverge.
  - preserve_tac;
      try apply hasVertexLabel_preserves;
      try apply getEdge_preserves;
      try apply IH;
      try (apply preserves_assign; intros s l Hs;
           rewrite frame_with_MATE; exact Hs).
Qed.

(** C10.  [R(v, w)] modifies only [MATE]: however a call ends (normally or
    with an exception), [LABEL], [FIRST], [END], the adjacency lists, the
    outer-vertex set, the work queue [outerEdges] and its cursor [outerIdx]
    are what they were before the call. *)
Theorem R_modifies_only_MATE (depth : nat) (v w : Z) (s : state) :
  match R depth v w s with
  | Ok _ s' | Raise _ s' =>
      LABEL s' = LABEL s /\ FIRST s' = FIRST s /\ END s' = END s /\
      graph s' = graph s /\ outerVertices s' = outerVertices s /\
      outerEdges s' = outerEdges s /\ outerIdx s' = outerIdx s
  | OutOfFuel => True
  end.
Proof.
  pose proof (R_frame (frame s) depth v w s eq_refl) as H.
  destruct (R depth v w s) as [a s'|e s'|]; auto;
    unfold frame in H; injection H as _ _ -> -> -> -> -> -> ->;
    repeat split.
Qed.

(** ** Fuel *)

(** More fuel never changes an answer already reached: [o] is refined by
    [o'] when [o] ran out of fuel or the two agree. *)
Definition out_le {A} (o o' : outcome A) : Prop := o = OutOfFuel \/ o = o'.

Definition m_le {A} (m m' : M A) : Prop := forall s, out_le (m s) (m' s).

Lemma m_le_refl {A} (m : M A) : m_le m m.
Proof. intros s; right; reflexivity. Qed.

Lemma m_le_diverge {A} (m : M A) : m_le diverge m.
Proof. intros s; left; reflexivity. Qed.

Lemma m_le_bind {A B} (m m' : M A) (f f' : A -> M B) :
  m_le m m' -> (forall a, m_le (f a) (f' a)) -> m_le (bind m f) (bind m' f').
Proof.
  intros Hm Hf s. unfold bind.
  destruct (Hm s) as [E|E]; rewrite E; [left; reflexivity|].
  destruct (m' s); [apply Hf | right; reflexivity | right; reflexivity].
Qed.

Lemma m_le_if {A} (b : bool) (m1 m1' m2 m2' : M A) :
  m_le m1 m1' -> m_le m2 m2' ->
  m_le (if b then m1 else m2) (if b then m1' else m2').
Proof. destruct b; auto. Qed.

Lemma m_le_for_each {A} (xs : list A) (f f' : A -> M unit) :
  (forall a, m_le (f a) (f' a)) -> m_le (for_each xs f) (for_each xs f').
Proof.
  intros H. induction xs as [|x xs IH]; simpl.
  - apply m_le_refl.
  - apply m_le_bind; auto.
Qed.

Ltac m_le_tac :=
  repeat lazymatch goal with
    | |- m_le (bind _ _) (bind _ _) => apply m_le_bind; [| intros ?]
    | |- m_le (if ?b then _ else _) (if ?b then _ else _) => apply m_le_if
    | |- m_le (match ?x with _ => _ end) (match ?x with _ => _ end) =>
        destruct x
    | |- m_le ?m ?m => apply m_le_refl
    end.

Lemma L_find_mono fuel : forall n_xy r s,
  m_le (L_find fuel n_xy r s) (L_find (S fuel) n_xy r s).
Proof.
  induction fuel as [|k IH]; intros n_xy r s.
  - apply m_le_diverge.
  - change (L_find (S (S k)) n_xy r s) with
      (let '(r1, s1) := if negb (s =? 0) then (s, r) else (r, s) in
       r2 <- next r1 ;;
       f <- isFlagged r2 n_xy ;;
       if f then ret r2
       else setFlag r2 n_xy ;;; L_find (S k) n_xy r2 s1).
    simpl. m_le_tac. apply IH.
Qed.

Lemma L_label_mono fuel : forall n_xy join v,
  m_le (L_label fuel n_xy join v) (L_label (S fuel) n_xy join v).
Proof.
  induction fuel as [|k IH]; intros n_xy join v.
  - apply m_le_diverge.
  - change (L_label (S (S k)) n_xy join v) with
      (if negb (v =? join) then
         setLabel v n_xy ;;;
         assign FIRST with_FIRST v join ;;;
         v' <- next v ;;
         L_label (S k) n_xy join v'
       else ret tt).
    simpl. m_le_tac. apply IH.
Qed.

Lemma L_mono fuel x y n_xy : m_le (L fuel x y n_xy) (L (S fuel) x y n_xy).
Proof.
  unfold L, L_blossom. m_le_tac;
    first [apply L_find_mono | apply L_label_mono].
Qed.

Lemma R_mono depth : forall v w, m_le (R depth v w) (R (S depth) v w).
Proof.
  induction depth as [|d IH]; intros v w.
  - apply m_le_diverge.
  - change (R (S (S d)) v w) with
      (t <- index MATE v ;;
       assign MATE with_MATE v w ;;;
       mt <- index MATE t ;;
       if negb (mt =? v) then ret tt
       else
         vl <- hasVertexLabel v ;;
         if vl then
           lv <- index LABEL v ;;
           assign MATE with_MATE t lv ;;;
           lv' <- index LABEL v ;;
           R (S d) lv' t
         else
           lv <- index LABEL v ;;
           xy <- getEdge lv ;;
           R (S d) (fst xy) (snd xy) ;;;
           R (S d) (snd xy) (fst xy)).
    simpl. m_le_tac; apply IH.
Qed.

Lemma m_le_trans {A} (m1 m2 m3 : M A) : m_le m1 m2 -> m_le m2 m3 -> m_le m1 m3.
Proof.
  intros H1 H2 s. destruct (H1 s) as [E|E]; [left; exact E|].
  rewrite E. apply H2.
Qed.

Lemma search_step_mono fuel depth u :
  m_le (search_step fuel depth u) (search_step (S fuel) depth u) /\
  m_le (search_step fuel depth u) (search_step fuel (S depth) u).
Proof.
  unfold search_step. split; m_le_tac;
    first [apply L_mono | apply R_mono].
Qed.

Lemma search_mono fuel depth u k :
  m_le (search fuel depth u k) (search (S fuel) depth u k) /\
  m_le (search fuel depth u k) (search fuel (S depth) u k) /\
  m_le (search fuel depth u k) (search fuel depth u (S k)).
Proof.
  induction k as [|k (IH1 & IH2 & IH3)].
  - repeat split; apply m_le_diverge.
  - repeat split.
    + simpl. apply m_le_bind; [apply search_step_mono|].
      intros []; [apply IH1 | apply m_le_refl].
    + simpl. apply m_le_bind; [apply search_step_mono|].
      intros []; [apply IH2 | apply m_le_refl].
    + change (search fuel depth u (S (S k))) with
        (again <- search_step fuel depth u ;;
         if again then search fuel depth u (S k) else ret tt).
      simpl. apply m_le_bind; [apply m_le_refl|].
      intros []; [apply IH3 | apply m_le_refl].
Qed.

Lemma E_mono fuel depth :
  m_le (E fuel depth) (E (S fuel) depth) /\
  m_le (E fuel depth) (E fuel (S depth)).
Proof.
  unfold E, E_body. split; m_le_tac; apply m_le_for_each; intros u;
    m_le_tac.
  - eapply m_le_trans; [apply search_mono | apply search_mono].
  - apply search_mono.
Qed.

(** An answer of [E] obtained with some fuel is its answer with any larger
    fuel. *)
Lemma E_fuel_irrelevant fuel depth fuel' depth' :
  (fuel <= fuel')%nat -> (depth <= depth')%nat ->
  m_le (E fuel depth) (E fuel' depth').
Proof.
  intros Hf Hd.
  apply m_le_trans with (E fuel' depth).
  - induction Hf; [apply m_le_refl|].
    eapply m_le_trans; [exact IHHf | apply E_mono].
  - induction Hd; [apply m_le_refl|].
    eapply m_le_trans; [exact IHHd | apply E_mono].
Qed.

(** ** Known instances *)

Definition triangle : list (Z * Z) := [(1, 2); (2, 3); (1, 3)].
Definition two_edges : list (Z * Z) := [(1, 2); (3, 4)].
Definition five_cycle : list (Z * Z) :=
  [(1, 2); (2, 3); (3, 4); (4, 5); (5, 1)].

(** C2.  On the known finite instances [E()] returns and
    [getMatchingSize()] is then 2 for the triangle on 3 vertices, 4 for two
    disjoint edges on 4 vertices, and 4 for the 5-cycle. *)
Theorem known_instances_sizes :
  size_of (run 16 16 3 triangle) = Some 2 /\
  size_of (run 16 16 4 two_edges) = Some 4 /\
  size_of (run 16 16 5 five_cycle) = Some 4.
Proof. repeat split; vm_compute; reflexivity. Qed.

(** The same answers with any larger fuel. *)
Lemma run_fuel_irrelevant fuel depth fuel' depth' n edges a s :
  (fuel <= fuel')%nat -> (depth <= depth')%nat ->
  run fuel depth n edges = Ok a s ->
  run fuel' depth' n edges = Ok a s.
Proof.
  intros Hf Hd. unfold run, bind.
  destruct (build n edges (init n)) as [[] s1|e s1|]; auto.
  destruct (E_fuel_irrelevant fuel depth fuel' depth' Hf Hd s1) as [E1|E1];
    rewrite E1; [discriminate | auto].
Qed.

(** Conversely, a run that is out of fuel with some fuel is out of fuel with
    any smaller one. *)
Lemma run_OutOfFuel_le fuel depth fuel' depth' n edges :
  (fuel <= fuel')%nat -> (depth <= depth')%nat ->
  run fuel' depth' n edges = OutOfFuel ->
  run fuel depth n edges = OutOfFuel.
Proof.
  intros Hf Hd. unfold run, bind.
  destruct (build n edges (init n)) as [[] s1|e s1|]; auto.
  destruct (E_fuel_irrelevant fuel depth fuel' depth' Hf Hd s1) as [E1|E1];
    rewrite E1; auto.
Qed.

(** ** [hasEdgeLabel] *)

(** When [LABEL[v] > V] the second operand of [and] is evaluated, and it
    orders the list [self.LABEL] against an integer. *)
Lemma hasEdgeLabel_above s v l :
  Py.get (LABEL s) v = Some l -> V s < l ->
  hasEdgeLabel v s = Raise TypeError s.
Proof.
  intros Hg Hl. unfold hasEdgeLabel, bind, gets, index. rewrite Hg.
  replace (l >? V s) with true by lia. reflexivity.
Qed.

Lemma hasEdgeLabel_below s v l :
  Py.get (LABEL s) v = Some l -> l <= V s ->
  hasEdgeLabel v s = Ok false s.
Proof.
  intros Hg Hl. unfold hasEdgeLabel, bind, gets, index. rewrite Hg.
  replace (l >? V s) with false by lia. reflexivity.
Qed.

Lemma hasEdgeLabel_never_true s v s' : hasEdgeLabel v s <> Ok true s'.
Proof.
  unfold hasEdgeLabel, bind, gets, index.
  destruct (Py.get (LABEL s) v) as [l|]; [|discriminate].
  destruct (l >? V s); discriminate.
Qed.

(** The search rooted at vertex 3 of the triangle, stopped after the two
    passes of the loop of [E] that label vertex 1 and then call [L] on the
    edge 1-3: the statements are those [E] executes, in its order (vertex 1
    is matched to 2 by the first search, vertex 2 is skipped). *)
Definition triangle_in_blossom : outcome bool :=
  (build 3 triangle ;;;
   E_body 8 8 1 ;;;
   E_body 8 8 2 ;;;
   setLabel 3 0 ;;;
   assign FIRST with_FIRST 3 0 ;;;
   search_step 8 8 3 ;;;
   search_step 8 8 3) (init 3).

(** C3.  [hasEdgeLabel] at a vertex that carries an edge label: in the
    triangle, after [L] has given vertex 2 the edge label 8 (with [V = 3]
    and 3 edges, [V < 8 <= V + 2*3]), [hasEdgeLabel(2)] does not return
    [True]; it raises [TypeError]. *)
Theorem hasEdgeLabel_raises_on_edge_label :
  exists s,
    triangle_in_blossom = Ok true s /\
    V s = 3 /\ Py.len (END s) = 6 /\
    Py.get (LABEL s) 2 = Some 8 /\
    hasEdgeLabel 2 s = Raise TypeError s.
Proof.
  eexists. split; [vm_compute; reflexivity|].
  repeat split; vm_compute; reflexivity.
Qed.

(** ** [addEdge] *)

Lemma graph_append_ok s v e :
  - Py.len (graph s) <= v < Py.len (graph s) ->
  exists g, graph_append v e s = Ok tt (with_graph s g) /\
            length g = length (graph s).
Proof.
  intros Hv. unfold graph_append, bind, index, assign, Py.get, Py.set.
  destruct (norm_in_range (graph s) v Hv) as [k Hk]. rewrite Hk.
  destruct (nth_error (graph s) k) as [adj|] eqn:En.
  - rewrite Hk. eexists; split; [reflexivity | apply upd_length].
  - apply nth_error_None in En. apply norm_bound in Hk. lia.
Qed.

Lemma graph_append_raises s v e :
  v < - Py.len (graph s) \/ Py.len (graph s) <= v ->
  graph_append v e s = Raise IndexError s.
Proof.
  intros Hv. unfold graph_append, bind, index, Py.get.
  rewrite (norm_out_of_range _ _ Hv). reflexivity.
Qed.

(** [self.graph[v].append(e)] with [v] a valid index: the adjacency list
    of [v] gets [e] at its end and the other lists are as they were. *)
Lemma graph_append_cell s v e :
  - Py.len (graph s) <= v < Py.len (graph s) ->
  exists adj g,
    Py.get (graph s) v = Some adj /\
    Py.set (graph s) v (adj ++ [e]) = Some g /\
    graph_append v e s = Ok tt (with_graph s g).
Proof.
  intros Hv. unfold graph_append, bind, index, assign, Py.get, Py.set.
  destruct (norm_in_range (graph s) v Hv) as [k Hk]. rewrite Hk.
  destruct (nth_error (graph s) k) as [adj|] eqn:En.
  - rewrite Hk. exists adj. eexists. repeat split.
  - apply nth_error_None in En. apply norm_bound in Hk. lia.
Qed.

(** The vertex ids [addEdge] accepts: those Python accepts as an index of
    the [V + 1] adjacency lists. *)
Definition accepted (s : state) (v : Z) : Prop := - (V s + 1) <= v <= V s.

(** C4 (as the code has it).  With the [V + 1] adjacency lists of
    [__init__], [addEdge(v, w)] succeeds when both ids are in [1, V], and
    more generally when both are in [-(V+1), V]; it raises [IndexError]
    exactly when one of them is outside [-(V+1), V], and by then [END] has
    been extended by [v] and [w].  As for the adjacency lists in the error
    case: when [v] is outside the range they are as they were; when only
    [w] is outside, the list of [v] has been extended by the edge number
    [len(END) + VPlusOne] and the other lists are as they were. *)
Theorem addEdge_outcome (s : state) (v w : Z) :
  Py.len (graph s) = V s + 1 ->
  (1 <= v <= V s -> 1 <= w <= V s -> exists s', addEdge v w s = Ok tt s') /\
  (accepted s v -> accepted s w ->
   exists s', addEdge v w s = Ok tt s' /\ END s' = END s ++ [v; w]) /\
  (~ (accepted s v /\ accepted s w) ->
   exists s', addEdge v w s = Raise IndexError s' /\
              END s' = END s ++ [v; w] /\
              (~ accepted s v -> graph s' = graph s) /\
              (accepted s v ->
               exists adj,
                 Py.get (graph s) v = Some adj /\
                 Py.set (graph s) v
                        (adj ++ [Py.len (END s) + VPlusOne s]) =
                 Some (graph s'))).
Proof.
  intros Hlen.
  assert (Hacc : accepted s v -> accepted s w ->
            exists s', addEdge v w s = Ok tt s' /\ END s' = END s ++ [v; w]).
  { intros Hv Hw. unfold accepted in *.
    unfold addEdge, bind, gets, modify.
    set (s1 := with_END (with_END s (END s ++ [v])) _).
    destruct (graph_append_ok s1 v (Py.len (END s) + VPlusOne s))
      as (g & Eg & Hg); [simpl; lia|].
    rewrite Eg.
    destruct (graph_append_ok (with_graph s1 g) w
                (Py.len (END s) + VPlusOne s)) as (g' & Eg' & Hg').
    { simpl. unfold Py.len in *. rewrite Hg. simpl. lia. }
    rewrite Eg'. eexists; split; [reflexivity|].
    simpl. rewrite <- app_assoc. reflexivity. }
  split; [|split].
  - intros Hv Hw. destruct Hacc as (s' & E & _); unfold accepted; try lia.
    eauto.
  - exact Hacc.
  - intros Hn. unfold accepted in Hn.
    unfold addEdge, bind, gets, modify.
    set (s1 := with_END (with_END s (END s ++ [v])) _).
    assert (Hs1 : END s1 = END s ++ [v; w]).
    { simpl. rewrite <- app_assoc. reflexivity. }
    destruct (Z_le_gt_dec (- (V s + 1)) v) as [Hv1|Hv1];
      [destruct (Z_le_gt_dec v (V s)) as [Hv2|Hv2]|].
    + destruct (graph_append_cell s1 v (Py.len (END s) + VPlusOne s))
        as (adj & g & Ha & Hg & Eg); [simpl; lia|].
      rewrite Eg. rewrite graph_append_raises.
      * exists (with_graph s1 g). split; [reflexivity|].
        split; [exact Hs1|]. split.
        -- intros Hnv. exfalso. apply Hnv. unfold accepted. lia.
        -- intros _. exists adj. split; [exact Ha | exact Hg].
      * simpl. unfold Py.len in *.
        rewrite (set_length _ _ _ _ Hg). simpl. lia.
    + rewrite graph_append_raises; [|simpl; lia].
      exists s1. split; [reflexivity|]. split; [exact Hs1|]. split.
      * intros _. reflexivity.
      * intros Hav. exfalso. unfold accepted in Hav. lia.
    + rewrite graph_append_raises; [|simpl; lia].
      exists s1. split; [reflexivity|]. split; [exact Hs1|]. split.
      * intros _. reflexivity.
      * intros Hav. exfalso. unfold accepted in Hav. lia.
Qed.

Lemma addEdge_outcome_witness :
  Py.len (graph (init 3)) = V (init 3) + 1 /\
  (exists s', addEdge 1 2 (init 3) = Ok tt s') /\
  (exists s', addEdge 1 4 (init 3) = Raise IndexError s' /\
              END s' = END (init 3) ++ [1; 4] /\
              exists adj,
                Py.get (graph (init 3)) 1 = Some adj /\
                Py.set (graph (init 3)) 1
                       (adj ++ [Py.len (END (init 3)) + VPlusOne (init 3)]) =
                Some (graph s')).
Proof.
  split; [reflexivity|]. split.
  - apply (addEdge_outcome (init 3) 1 2);
      [reflexivity | simpl; lia | simpl; lia].
  - assert (Hn : ~ (accepted (init 3) 1 /\ accepted (init 3) 4)).
    { unfold accepted. simpl. lia. }
    destruct (proj2 (proj2 (addEdge_outcome (init 3) 1 4 eq_refl)) Hn)
      as (s' & E & HE & _ & Hg).
    exists s'. split; [exact E|]. split; [exact HE|].
    apply Hg. unfold accepted. simpl. lia.
Defined.

(** The claim as worded fails three times: vertex id 0 is outside [1, V]
    and is accepted without an error; vertex id [V + 1] raises only after
    [END] has been extended; and with [w = V + 1] the call raises after the
    adjacency list of [v] has been extended too. *)
Lemma addEdge_range_claim_fails :
  (exists s', addEdge 0 1 (init 3) = Ok tt s') /\
  (exists s', addEdge 4 1 (init 3) = Raise IndexError s' /\
              END s' = [4; 1] /\ END s' <> END (init 3)) /\
  (exists s', addEdge 1 4 (init 3) = Raise IndexError s' /\
              END s' = [1; 4] /\
              Py.get (graph (init 3)) 1 = Some [] /\
              Py.get (graph s') 1 = Some [4] /\
              graph s' <> graph (init 3)).
Proof.
  split; [|split].
  - eexists. vm_compute. reflexivity.
  - eexists. split; [vm_compute; reflexivity|].
    split; [reflexivity | discriminate].
  - eexists. split; [vm_compute; reflexivity|].
    split; [reflexivity|]. split; [reflexivity|].
    split; [reflexivity | discriminate].
Qed.

(** ** Outer vertices and labels *)

(** What every state met during [E] satisfies when the graph was built
    from non-negative vertex ids: the vertex-valued cells hold non-negative
    ids (so no index wraps around), and a cell of [LABEL] with a
    non-negative label belongs to a member of [outerVertices]. *)
Record J (s : state) : Prop := mkJ {
  J_FIRST : Forall (Z.le 0) (FIRST s);
  J_END : Forall (Z.le 0) (END s);
  J_MATE : Forall (Z.le 0) (MATE s);
  J_outerV : Forall (Z.le 0) (outerVertices s);
  J_outerE : Forall (fun p => 0 <= fst p) (outerEdges s);
  J_LABEL : forall k l, 0 <= k -> Py.get (LABEL s) k = Some l -> 0 <= l ->
                        Py.mem k (outerVertices s) = true
}.

(** Between searches: nothing is outer and every label is negative. *)
Record idle (s : state) : Prop := mkIdle {
  idle_FIRST : Forall (Z.le 0) (FIRST s);
  idle_END : Forall (Z.le 0) (END s);
  idle_MATE : Forall (Z.le 0) (MATE s);
  idle_outerV : outerVertices s = [];
  idle_outerE : outerEdges s = [];
  idle_LABEL : forall k l, 0 <= k -> Py.get (LABEL s) k = Some l -> l < 0
}.

Lemma idle_J s : idle s -> J s.
Proof.
  intros [H1 H2 H3 H4 H5 H6]. constructor; auto.
  - rewrite H4; constructor.
  - rewrite H5; constructor.
  - intros k l Hk Hg Hl. specialize (H6 k l Hk Hg). lia.
Qed.

Definition any : state -> Prop := fun _ => True.

Lemma triple_ctx {A} (phi : Prop) (P : state -> Prop) (m : M A) Q X :
  (phi -> triple P m Q X) -> triple (fun s => P s /\ phi) m Q X.
Proof. intros H s [Hs Hphi]. apply H; auto. Qed.

Lemma triple_index_fact {A} (P : state -> Prop) (F : state -> list A) i
      (phi : A -> Prop) :
  (forall s a, P s -> In a (F s) -> phi a) ->
  triple P (index F i) (fun a s => P s /\ phi a) any.
Proof.
  intros H. apply triple_index.
  - intros s a Hs Hg. split; auto. eapply H; eauto. eapply get_in; eauto.
  - intros; exact I.
Qed.

Lemma triple_keep {A} (P : state -> Prop) (m : M A) :
  preserves P m -> triple P m (fun _ => P) any.
Proof.
  intros H. eapply triple_weaken; [exact H | auto | auto | intros; exact I].
Qed.

Lemma Forall_In_le (l : list Z) a : Forall (Z.le 0) l -> In a l -> 0 <= a.
Proof. intros H Hi. rewrite Forall_forall in H. auto. Qed.

Lemma set_Forall (l l' : list Z) i a :
  Forall (Z.le 0) l -> 0 <= a -> Py.set l i a = Some l' -> Forall (Z.le 0) l'.
Proof.
  intros Hl Ha Hs. rewrite Forall_forall in *. intros x Hx.
  destruct (set_in _ _ _ _ _ Hs Hx) as [->|Hin]; auto.
Qed.

(** Reading a cell after a write: the value written, or what was there. *)
Lemma get_set_val {A} (l l' : list A) i k a x :
  Py.set l i a = Some l' -> Py.get l' k = Some x ->
  x = a \/ Py.get l k = Some x.
Proof.
  unfold Py.set, Py.get. destruct (Py.norm l i) as [p|] eqn:E; [|discriminate].
  intros [= <-].
  assert (Py.norm (Py.upd l p a) k = Py.norm l k) as ->.
  { unfold Py.norm, Py.len. rewrite upd_length. reflexivity. }
  destruct (Py.norm l k) as [q|]; [|discriminate].
  destruct (Nat.eq_dec q p) as [->|Hne].
  - rewrite upd_nth_same by (eapply norm_bound; eauto).
    intros [= <-]. left; reflexivity.
  - rewrite upd_nth_other by exact Hne. auto.
Qed.

Lemma get_set_cases {A} (l l' : list A) i k a x :
  0 <= i -> 0 <= k ->
  Py.set l i a = Some l' -> Py.get l' k = Some x ->
  (k = i /\ x = a) \/ (k <> i /\ Py.get l k = Some x).
Proof.
  intros Hi Hk Hs Hg. destruct (Z.eq_dec k i) as [->|Hne].
  - left. split; auto. rewrite (get_set_same _ _ _ _ Hs) in Hg. congruence.
  - right. split; auto.
    rewrite (get_set_other _ _ _ _ _ Hi Hk (not_eq_sym Hne) Hs) in Hg. exact Hg.
Qed.

(** The two ways [setLabel] ends normally. *)
Lemma setLabel_Ok v label s s' :
  setLabel v label s = Ok tt s' ->
  exists l, Py.set (LABEL s) v label = Some l /\
    ((0 <= label /\ Py.mem v (outerVertices s) = false /\
      exists adj, Py.get (graph s) v = Some adj /\
        s' = with_outerEdges
               (with_outerVertices (with_LABEL s l) (outerVertices s ++ [v]))
               (outerEdges s ++ map (fun e => (v, e)) adj)) \/
     ((label < 0 \/ Py.mem v (outerVertices s) = true) /\
      s' = with_LABEL s l)).
Proof.
  unfold setLabel, bind, assign, gets, modify, index, ret.
  destruct (Py.set (LABEL s) v label) as [l|]; [|discriminate].
  simpl. intros H. exists l. split; auto.
  destruct (Z.geb_spec label 0) as [Hl|Hl]; simpl in H.
  - destruct (Py.mem v (outerVertices s)) eqn:Em; simpl in H.
    + right. split; auto. congruence.
    + destruct (Py.get (graph s) v) as [adj|]; [|discriminate].
      left. repeat split; auto; try lia. exists adj. split; auto.
      injection H as <-. reflexivity.
  - right. split; [left; lia | congruence].
Qed.

Section Invariant.

(** [self.LABEL[v] = label] followed by the registration of [v] as outer:
    harmless when [v] is a non-negative id, or when the label written is
    negative. *)
Lemma setLabel_J v label :
  0 <= v \/ label < 0 ->
  triple J (setLabel v label) (fun _ => J) any.
Proof.
  intros Hv s [H1 H2 H3 H4 H5 H6].
  destruct (setLabel v label s) as [[] s'|e s'|] eqn:E; try exact I.
  apply setLabel_Ok in E.
  destruct E as (l & Hs & [(Hl & Em & adj & Ha & ->)|(Hc & ->)]).
  - assert (0 <= v) as Hv' by lia.
    constructor; simpl; auto.
    + apply Forall_app; split; auto.
    + apply Forall_app; split; auto.
      apply Forall_forall. intros p Hp. apply in_map_iff in Hp.
      destruct Hp as (e & <- & _). exact Hv'.
    + intros k x Hk Hg Hx. rewrite mem_app.
      destruct (get_set_cases _ _ _ _ _ _ Hv' Hk Hs Hg)
        as [[-> _]|[_ Hold]].
      * simpl. rewrite Z.eqb_refl. apply orb_true_r.
      * rewrite (H6 k x); auto.
  - constructor; simpl; auto.
    intros k x Hk Hg Hx.
    destruct Hc as [Hneg|Hmem].
    + destruct (get_set_val _ _ _ _ _ _ Hs Hg) as [->|Hold]; [lia|].
      eapply H6; eauto.
    + destruct (Z_lt_ge_dec label 0) as [Hneg|Hpos].
      * destruct (get_set_val _ _ _ _ _ _ Hs Hg) as [->|Hold]; [lia|].
        eapply H6; eauto.
      * assert (0 <= v) as Hv' by lia.
        destruct (get_set_cases _ _ _ _ _ _ Hv' Hk Hs Hg)
          as [[-> _]|[_ Hold]]; auto.
        eapply H6; eauto.
Qed.

Ltac tbind lem :=
  eapply triple_bind;
  [ apply lem | intros ?; try (apply triple_ctx; intros ?) ].

Lemma index_FIRST_J i :
  triple J (index FIRST i) (fun a s => J s /\ 0 <= a) any.
Proof.
  apply triple_index_fact. intros s a Hs. apply Forall_In_le, Hs.
Qed.

Lemma index_MATE_J i :
  triple J (index MATE i) (fun a s => J s /\ 0 <= a) any.
Proof.
  apply triple_index_fact. intros s a Hs. apply Forall_In_le, Hs.
Qed.

Lemma index_END_J i :
  triple J (index END i) (fun a s => J s /\ 0 <= a) any.
Proof.
  apply triple_index_fact. intros s a Hs. apply Forall_In_le, Hs.
Qed.

Lemma index_LABEL_J i : triple J (index LABEL i) (fun _ => J) any.
Proof. apply triple_keep, preserves_index. Qed.

Lemma assign_FIRST_J v a :
  0 <= a -> triple J (assign FIRST with_FIRST v a) (fun _ => J) any.
Proof.
  intros Ha. apply triple_assign; [|intros; exact I].
  intros s l [H1 H2 H3 H4 H5 H6] Hs. constructor; simpl; auto.
  apply (set_Forall _ _ _ _ H1 Ha Hs).
Qed.

Lemma assign_MATE_J v a :
  0 <= a -> triple J (assign MATE with_MATE v a) (fun _ => J) any.
Proof.
  intros Ha. apply triple_assign; [|intros; exact I].
  intros s l [H1 H2 H3 H4 H5 H6] Hs. constructor; simpl; auto.
  apply (set_Forall _ _ _ _ H3 Ha Hs).
Qed.

Lemma next_J r : triple J (next r) (fun a s => J s /\ 0 <= a) any.
Proof.
  unfold next. tbind index_MATE_J. tbind index_LABEL_J.
  apply index_FIRST_J.
Qed.

Lemma isFlagged_J r n : triple J (isFlagged r n) (fun _ => J) any.
Proof. apply triple_keep. unfold isFlagged. preserve_tac. Qed.

Lemma hasVertexLabel_J v :
  triple J (hasVertexLabel v)
    (fun b s => J s /\
       (b = true -> exists l, Py.get (LABEL s) v = Some l /\ 1 <= l)) any.
Proof.
  intros s Hs. unfold hasVertexLabel, bind, index, gets, ret.
  destruct (Py.get (LABEL s) v) as [l|] eqn:E; [|exact I].
  destruct (Z.geb_spec l 1) as [Hl|Hl]; simpl.
  - rewrite E. split; auto. intros _. exists l. split; auto.
  - split; auto. discriminate.
Qed.

Lemma getEdge_J n :
  triple J (getEdge n) (fun xy s => J s /\ (0 <= fst xy /\ 0 <= snd xy)) any.
Proof.
  unfold getEdge. eapply triple_bind; [apply triple_keep, preserves_gets|].
  intros k. tbind index_END_J. tbind index_END_J.
  apply triple_ret. intros s Hs. simpl. auto.
Qed.

Lemma triple_pre {A} (P P' : state -> Prop) (m : M A) Q X :
  (forall s, P s -> P' s) -> triple P' m Q X -> triple P m Q X.
Proof. intros HP H. eapply triple_weaken; eauto. Qed.

(** [R] writes only non-negative ids into [MATE]. *)
Lemma R_J depth : forall v w,
  0 <= w -> triple J (R depth v w) (fun _ => J) any.
Proof.
  induction depth as [|d IH]; intros v w Hw; simpl.
  - apply triple_diverge.
  - tbind index_MATE_J. tbind assign_MATE_J; auto.
    tbind index_MATE_J.
    apply triple_if; intros _; [apply triple_ret; auto|].
    eapply triple_bind; [apply hasVertexLabel_J|].
    intros [|].
    + eapply triple_bind with (Q1 := fun lv s => J s /\ 1 <= lv).
      { apply triple_index; [|intros; exact I].
        intros s lv [Hs Hl] Hg. split; auto.
        destruct (Hl eq_refl) as (l & Hl' & H1). congruence. }
      intros lv. apply triple_ctx; intros Hlv.
      tbind assign_MATE_J; [lia|].
      tbind index_LABEL_J. apply IH; auto.
    + apply triple_pre with (P' := J); [tauto|].
      tbind index_LABEL_J. tbind getEdge_J.
      eapply triple_bind; [apply IH; tauto|].
      intros []. apply IH; tauto.
Qed.

(** *** [L] *)

(** Vertex [j] carries the flag of edge [e]. *)
Definition flagged (j e : Z) (s : state) : Prop :=
  Py.get (LABEL s) j = Some (- e).

Definition JF (j e : Z) (s : state) : Prop := J s /\ flagged j e s.

Lemma triple_conj {A} (P : state -> Prop) (m : M A) Q1 Q2 X :
  triple P m Q1 X -> triple P m Q2 X ->
  triple P m (fun a s => Q1 a s /\ Q2 a s) X.
Proof.
  intros H1 H2 s Hs. specialize (H1 s Hs). specialize (H2 s Hs).
  destruct (m s); auto.
Qed.

Lemma setLabel_LABEL v label s s' :
  setLabel v label s = Ok tt s' ->
  Py.set (LABEL s) v label = Some (LABEL s').
Proof.
  intros H. apply setLabel_Ok in H.
  destruct H as (l & Hs & [(_ & _ & adj & _ & ->)|(_ & ->)]); exact Hs.
Qed.

Lemma isFlagged_spec r n :
  triple J (isFlagged r n)
    (fun f s => J s /\ (f = true -> flagged r n s)) any.
Proof.
  intros s Hs. unfold isFlagged, bind, index, ret.
  destruct (Py.get (LABEL s) r) as [l|] eqn:E; [|exact I].
  split; auto. intros Hf. apply Z.eqb_eq in Hf. unfold flagged. congruence.
Qed.

Lemma L_find_J fuel e : forall r s,
  triple J (L_find fuel e r s)
    (fun j st => JF j e st /\ 0 <= j) any.
Proof.
  induction fuel as [|k IH]; intros r s; simpl.
  - apply triple_diverge.
  - destruct (if negb (s =? 0) then (s, r) else (r, s)) as [r1 s1].
    tbind next_J.
    eapply triple_bind; [apply isFlagged_spec|].
    intros [|].
    + apply triple_ret. intros st [Hs Hf]. split; [split|]; auto.
    + apply triple_pre with (P' := J); [tauto|].
      eapply triple_bind; [apply setLabel_J; auto|].
      intros []. apply IH.
Qed.

Lemma setLabel_JF j e v label :
  0 <= j -> 0 <= v -> v <> j ->
  triple (JF j e) (setLabel v label) (fun _ => JF j e) any.
Proof.
  intros Hj Hv Hne s [Hs Hf].
  pose proof (setLabel_J v label (or_introl Hv) s Hs) as HJ.
  destruct (setLabel v label s) as [[] s'|x s'|] eqn:E; auto.
  split; auto. unfold flagged in *.
  apply setLabel_LABEL in E.
  rewrite (get_set_other _ _ _ _ _ Hv Hj Hne E). exact Hf.
Qed.

Lemma assign_FIRST_JF j e v a :
  0 <= a ->
  triple (JF j e) (assign FIRST with_FIRST v a) (fun _ => JF j e) any.
Proof.
  intros Ha s [Hs Hf].
  pose proof (assign_FIRST_J v a Ha s Hs) as HJ.
  unfold assign in *. destruct (Py.set (FIRST s) v a); auto.
  split; auto.
Qed.

Lemma next_JF j e r :
  triple (JF j e) (next r) (fun a s => JF j e s /\ 0 <= a) any.
Proof.
  eapply triple_weaken with (P' := JF j e)
    (Q' := fun a s => (J s /\ 0 <= a) /\ JF j e s) (X' := any).
  - apply triple_conj.
    + apply triple_pre with (P' := J); [unfold JF; tauto|].
      apply next_J.
    + apply triple_keep. unfold next. preserve_tac.
  - auto.
  - intros a s [[_ Ha] H]. auto.
  - auto.
Qed.

Lemma index_FIRST_JF j e i :
  triple (JF j e) (index FIRST i) (fun a s => JF j e s /\ 0 <= a) any.
Proof.
  apply triple_index_fact. intros s a [Hs _]. apply Forall_In_le, Hs.
Qed.

Lemma L_label_JF fuel e join : forall v,
  0 <= join -> 0 <= v ->
  triple (JF join e) (L_label fuel e join v) (fun _ => JF join e) any.
Proof.
  induction fuel as [|k IH]; intros v Hj Hv; simpl.
  - apply triple_diverge.
  - destruct (Z.eqb_spec v join) as [->|Hne]; simpl.
    + apply triple_ret; auto.
    + eapply triple_bind; [apply setLabel_JF; auto|]. intros [].
      eapply triple_bind; [apply assign_FIRST_JF; auto|]. intros [].
      tbind next_JF. apply IH; auto.
Qed.

Lemma L_update_FIRST_JF j e join :
  0 <= join ->
  triple (JF j e) (L_update_FIRST join) (fun _ => JF j e) any.
Proof.
  intros Hj. unfold L_update_FIRST.
  eapply triple_bind; [apply triple_keep, preserves_gets|].
  intros vs. apply triple_for_each. intros i _.
  tbind index_FIRST_JF.
  eapply triple_bind; [apply triple_keep; unfold isOuterVertex;
                       apply preserves_gets|].
  intros [|]; [apply assign_FIRST_JF; auto | apply triple_ret; auto].
Qed.

(** Past its early return, [L] ends with the flag still on [join]. *)
Lemma L_blossom_J fuel x y e r s :
  0 <= r ->
  triple J (L_blossom fuel x y e r s)
    (fun _ st => exists join, 0 <= join /\ JF join e st) any.
Proof.
  intros Hr. unfold L_blossom.
  eapply triple_bind; [apply setLabel_J; auto|]. intros [].
  tbind L_find_J. tbind index_FIRST_JF. tbind index_FIRST_JF.
  eapply triple_bind; [apply L_label_JF; auto|]. intros [].
  eapply triple_bind; [apply L_label_JF; auto|]. intros [].
  eapply triple_weaken; [apply L_update_FIRST_JF; eauto| | |]; eauto.
Qed.

Lemma L_J fuel x y e : triple J (L fuel x y e) (fun _ => J) any.
Proof.
  unfold L. tbind index_FIRST_J. tbind index_FIRST_J.
  apply triple_if; intros _; [apply triple_ret; auto|].
  eapply triple_weaken; [apply L_blossom_J; eauto| | |]; eauto.
  intros _ st (j & _ & Hs & _). exact Hs.
Qed.

(** *** [stopTheSearch] *)

(** While [stopTheSearch] walks the outer set: the cells that still hold
    a non-negative label belong to the members not yet visited. *)
Definition resetting (xs : list Z) (s : state) : Prop :=
  Forall (Z.le 0) (FIRST s) /\ Forall (Z.le 0) (END s) /\
  Forall (Z.le 0) (MATE s) /\
  forall k l, 0 <= k -> Py.get (LABEL s) k = Some l -> 0 <= l -> In k xs.

Lemma triple_for_each_rem {A} (I : list A -> state -> Prop) X body :
  (forall x rest, triple (I (x :: rest)) (body x) (fun _ => I rest) X) ->
  forall xs, triple (I xs) (for_each xs body) (fun _ => I []) X.
Proof.
  intros H xs. induction xs as [|x xs IH]; simpl.
  - apply triple_ret; auto.
  - eapply triple_bind; [apply H|]. intros []. exact IH.
Qed.

Lemma setLabel_neg v label s s' :
  label < 0 -> setLabel v label s = Ok tt s' ->
  exists l, Py.set (LABEL s) v label = Some l /\ s' = with_LABEL s l.
Proof.
  intros Hl H. apply setLabel_Ok in H.
  destruct H as (l & Hs & [(Hl' & _)|(_ & ->)]); [lia|]. eauto.
Qed.

Lemma assign_LABEL_neg_J i a :
  a < 0 -> triple J (assign LABEL with_LABEL i a) (fun _ => J) any.
Proof.
  intros Ha. apply triple_assign; [|intros; exact I].
  intros s l [H1 H2 H3 H4 H5 H6] Hs. constructor; simpl; auto.
  intros k x Hk Hg Hx.
  destruct (get_set_val _ _ _ _ _ _ Hs Hg) as [->|Hold]; [lia|].
  eapply H6; eauto.
Qed.

Lemma reset_visited x rest :
  triple (resetting (x :: rest)) (setLabel x (-1))
         (fun _ => resetting rest) any.
Proof.
  intros s (H1 & H2 & H3 & H4).
  destruct (setLabel x (-1) s) as [[] s'|e s'|] eqn:E; try exact I.
  apply setLabel_neg in E; [|lia]. destruct E as (l & Hs & ->).
  repeat split; simpl; auto.
  intros k y Hk Hg Hy.
  destruct (get_set_val _ _ _ _ _ _ Hs Hg) as [->|Hold]; [lia|].
  destruct (H4 k y Hk Hold Hy) as [<-|Hin]; auto.
  rewrite (get_set_same _ _ _ _ Hs) in Hg. injection Hg as <-. lia.
Qed.

Lemma reset_mate m rest :
  triple (resetting rest) (setLabel m (-1)) (fun _ => resetting rest) any.
Proof.
  intros s (H1 & H2 & H3 & H4).
  destruct (setLabel m (-1) s) as [[] s'|e s'|] eqn:E; try exact I.
  apply setLabel_neg in E; [|lia]. destruct E as (l & Hs & ->).
  repeat split; simpl; auto.
  intros k y Hk Hg Hy.
  destruct (get_set_val _ _ _ _ _ _ Hs Hg) as [->|Hold]; [lia|].
  eauto.
Qed.

(** Step E7 leaves no outer vertex and no non-negative label. *)
Lemma stopTheSearch_idle : triple J stopTheSearch (fun _ => idle) any.
Proof.
  unfold stopTheSearch.
  eapply triple_bind; [apply assign_LABEL_neg_J; lia|]. intros [].
  eapply triple_bind with (Q1 := fun vs s => resetting vs s).
  { apply triple_gets. intros s [H1 H2 H3 H4 H5 H6].
    repeat split; auto. intros k l Hk Hg Hl. apply mem_In. eauto. }
  intros vs.
  eapply triple_bind.
  { apply (triple_for_each_rem resetting). intros x rest.
    eapply triple_bind; [apply reset_visited|]. intros [].
    eapply triple_bind; [apply triple_keep, preserves_index|].
    intros m. apply reset_mate. }
  intros [].
  eapply triple_bind with (Q1 := fun _ s => resetting [] s /\
                                        outerVertices s = []).
  { apply triple_modify. intros s Hs. split; auto. }
  intros [].
  eapply triple_bind with (Q1 := fun _ s => (resetting [] s /\
                                        outerVertices s = []) /\
                                        outerEdges s = []).
  { apply triple_modify. intros s Hs. split; auto. }
  intros [].
  apply triple_modify.
  intros s [[(H1 & H2 & H3 & H4) H5] H6]. constructor; simpl; auto.
  intros k l Hk Hg. destruct (Z_lt_ge_dec l 0) as [Hl|Hl]; auto.
  exfalso. apply (H4 k l); auto. lia.
Qed.

(** *** [E] *)

Lemma chooseAnEdge_J :
  triple J chooseAnEdge
    (fun c s => J s /\ match c with Some p => 0 <= fst p | None => True end)
    any.
Proof.
  unfold chooseAnEdge.
  eapply triple_bind; [apply triple_keep, preserves_gets|]. intros n.
  eapply triple_bind; [apply triple_keep, preserves_gets|]. intros i.
  apply triple_if; intros _; [|apply triple_ret; auto].
  eapply triple_bind with (Q1 := fun p s => J s /\ 0 <= fst p).
  { apply triple_index_fact. intros s p Hs Hp.
    pose proof (J_outerE s Hs) as H. rewrite Forall_forall in H. auto. }
  intros p. apply triple_ctx; intros Hp.
  eapply triple_bind with (Q1 := fun _ => J).
  { apply triple_modify. intros s [H1 H2 H3 H4 H5 H6].
    constructor; simpl; auto. }
  intros []. apply triple_ret. auto.
Qed.

Lemma lxor_nonneg3 x a b :
  0 <= x -> 0 <= a -> 0 <= b -> 0 <= Z.lxor (Z.lxor x a) b.
Proof. intros. apply Z.lxor_nonneg. rewrite Z.lxor_nonneg. lia. Qed.

Lemma search_step_J fuel depth u :
  triple J (search_step fuel depth u)
         (fun again s => if again then J s else idle s) any.
Proof.
  unfold search_step.
  eapply triple_bind; [apply chooseAnEdge_J|].
  intros [[x n_xy]|]; apply triple_ctx; simpl; intros Hx.
  - tbind getEdge_J.
    match goal with H : _ /\ _ |- _ => destruct H as [Ha Hb] end.
    pose proof (lxor_nonneg3 _ _ _ Hx Ha Hb) as Hy.
    eapply triple_bind;
      [apply triple_keep; unfold isMatched; preserve_tac|].
    intros my. apply triple_if; intros _.
    + eapply triple_bind; [apply assign_MATE_J; auto|]. intros [].
      eapply triple_bind; [apply R_J; auto|]. intros [].
      eapply triple_bind; [apply stopTheSearch_idle|]. intros [].
      apply triple_ret. auto.
    + eapply triple_bind;
        [apply triple_keep; unfold isOuterVertex; apply preserves_gets|].
      intros oy. apply triple_if; intros _.
      * eapply triple_bind; [apply L_J|]. intros [].
        apply triple_ret. auto.
      * tbind index_MATE_J.
        eapply triple_bind;
          [apply triple_keep; unfold isOuterVertex; apply preserves_gets|].
        intros ov.
        eapply triple_bind with (Q1 := fun _ => J).
        { apply triple_if; intros _; [|apply triple_ret; auto].
          eapply triple_bind; [apply setLabel_J; auto|]. intros [].
          apply assign_FIRST_J; auto. }
        intros []. apply triple_ret. auto.
  - eapply triple_bind; [apply stopTheSearch_idle|]. intros [].
    apply triple_ret. auto.
Qed.

Lemma search_J fuel depth u k :
  triple J (search fuel depth u k) (fun _ => idle) any.
Proof.
  induction k as [|k IH]; simpl.
  - apply triple_diverge.
  - eapply triple_bind; [apply search_step_J|].
    intros [|]; [exact IH | apply triple_ret; auto].
Qed.

Lemma E_body_idle fuel depth u :
  0 <= u -> triple idle (E_body fuel depth u) (fun _ => idle) any.
Proof.
  intros Hu. unfold E_body.
  eapply triple_bind; [apply triple_keep, preserves_index|]. intros m.
  apply triple_if; intros _; [apply triple_ret; auto|].
  apply triple_pre with (P' := J); [apply idle_J|].
  eapply triple_bind; [apply setLabel_J; auto|]. intros [].
  eapply triple_bind; [apply assign_FIRST_J; lia|]. intros [].
  apply search_J.
Qed.

Lemma vertices_range n u : In u (vertices n) -> 1 <= u <= n.
Proof.
  unfold vertices. intros H. apply in_map_iff in H.
  destruct H as (k & <- & Hk). apply in_seq in Hk. lia.
Qed.

Lemma E_idle fuel depth : triple idle (E fuel depth) (fun _ => idle) any.
Proof.
  unfold E. eapply triple_bind; [apply triple_keep, preserves_gets|].
  intros n. apply triple_for_each. intros u Hu.
  apply E_body_idle. apply vertices_range in Hu. lia.
Qed.

Lemma addEdge_idle v w :
  0 <= v -> 0 <= w -> triple idle (addEdge v w) (fun _ => idle) any.
Proof.
  intros Hv Hw s Hs.
  assert (Hpres : forall x e, preserves
            (fun s' => idle s' /\ END s' = END s ++ [v; w])
            (graph_append x e)).
  { intros x e. unfold graph_append. preserve_tac.
    apply preserves_assign. intros s1 l [[H1 H2 H3 H4 H5 H6] HE].
    split; [constructor|]; simpl; auto. }
  unfold addEdge, bind, gets, modify.
  set (s1 := with_END (with_END s (END s ++ [v])) _).
  assert (Hs1 : idle s1 /\ END s1 = END s ++ [v; w]).
  { destruct Hs as [H1 H2 H3 H4 H5 H6]. split.
    - constructor; simpl; auto.
      repeat (apply Forall_app; split; auto).
    - simpl. rewrite <- app_assoc. reflexivity. }
  pose proof (Hpres v (Py.len (END s) + VPlusOne s) s1 Hs1) as Hg1.
  destruct (graph_append v _ s1) as [[] s2|e s2|]; try exact I.
  pose proof (Hpres w (Py.len (END s) + VPlusOne s) s2 Hg1) as Hg2.
  destruct (graph_append w _ s2) as [[] s3|e s3|]; try exact I.
  apply Hg2.
Qed.

Lemma init_idle n : idle (init n).
Proof.
  constructor; simpl; auto.
  - apply Forall_forall. intros x Hx. apply repeat_spec in Hx. lia.
  - apply Forall_forall. intros x Hx. apply repeat_spec in Hx. lia.
  - intros k l _ Hg. apply get_in, repeat_spec in Hg. lia.
Qed.

End Invariant.

(** *** Public operations *)

(** What a caller does with the object after creating it. *)
Inductive op := OpAddEdge (v w : Z) | OpE.

Definition do_op (fuel depth : nat) (o : op) : M unit :=
  match o with
  | OpAddEdge v w => addEdge v w
  | OpE => E fuel depth
  end.

(** The vertex ids a caller passes are not negative. *)
Definition op_ok (o : op) : Prop :=
  match o with
  | OpAddEdge v w => 0 <= v /\ 0 <= w
  | OpE => True
  end.

Definition session (fuel depth : nat) (n : Z) (ops : list op) : outcome unit :=
  for_each ops (do_op fuel depth) (init n).

Lemma session_idle fuel depth n ops s :
  Forall op_ok ops -> session fuel depth n ops = Ok tt s -> idle s.
Proof.
  intros Hops Hrun.
  assert (H : triple idle (for_each ops (do_op fuel depth))
                     (fun _ => idle) any).
  { apply triple_for_each. intros o Ho.
    rewrite Forall_forall in Hops. specialize (Hops o Ho).
    destruct o as [v w|]; simpl in *.
    - apply addEdge_idle; tauto.
    - apply E_idle. }
  specialize (H (init n) (init_idle n)). unfold session in Hrun.
  rewrite Hrun in H. exact H.
Qed.

(** Within a search the two are updated together only on the way up:
    [setLabel] with a non-negative label makes the vertex a member in the
    same call, [setLabel] with a negative label never removes one. *)
Lemma setLabel_nonneg_registers v label s s' :
  0 <= label -> setLabel v label s = Ok tt s' ->
  Py.mem v (outerVertices s') = true.
Proof.
  intros Hl H. apply setLabel_Ok in H.
  destruct H as (l & _ & [(_ & _ & adj & _ & ->)|([Hc|Hc] & ->)]); simpl.
  - rewrite mem_app. simpl. rewrite Z.eqb_refl. apply orb_true_r.
  - lia.
  - exact Hc.
Qed.

Lemma setLabel_negative_keeps_members v label s s' :
  label < 0 -> setLabel v label s = Ok tt s' ->
  outerVertices s' = outerVertices s.
Proof.
  intros Hl H. apply setLabel_neg in H; auto.
  destruct H as (l & _ & ->). reflexivity.
Qed.

(** C7 (as the code has it).  After any sequence of public operations that
    all return ([addEdge] with non-negative ids, [E]), a vertex [v] in
    [1..V] is a member of [outerVertices] if and only if [LABEL[v] >= 0]:
    between operations no vertex is outer and every label is negative.
    Label writes go through [setLabel]: writing a non-negative label makes
    the vertex a member in the same call, writing a negative label leaves
    the outer set as it is. *)
Theorem outer_iff_label_between_operations
        (fuel depth : nat) (n : Z) (ops : list op) (s : state) :
  Forall op_ok ops ->
  session fuel depth n ops = Ok tt s ->
  (forall v l, 1 <= v <= n -> Py.get (LABEL s) v = Some l ->
               (Py.mem v (outerVertices s) = true <-> 0 <= l)) /\
  (forall v label s1 s2, setLabel v label s1 = Ok tt s2 ->
     (0 <= label -> Py.mem v (outerVertices s2) = true) /\
     (label < 0 -> outerVertices s2 = outerVertices s1)).
Proof.
  intros Hops Hrun. split.
  - intros v l Hv Hg.
    destruct (session_idle _ _ _ _ _ Hops Hrun) as [_ _ _ Ho _ Hl].
    rewrite Ho. simpl. specialize (Hl v l ltac:(lia) Hg).
    split; [discriminate | lia].
  - intros v label s1 s2 H. split; intros Hl.
    + eapply setLabel_nonneg_registers; eauto.
    + eapply setLabel_negative_keeps_members; eauto.
Qed.

Definition triangle_ops : list op :=
  [OpAddEdge 1 2; OpAddEdge 2 3; OpAddEdge 1 3; OpE].

Definition triangle_final : state :=
  match session 16 16 3 triangle_ops with
  | Ok _ s => s
  | _ => init 3
  end.

Lemma outer_iff_label_between_operations_witness :
  Forall op_ok triangle_ops /\
  session 16 16 3 triangle_ops = Ok tt triangle_final /\
  1 <= 2 <= 3 /\ Py.get (LABEL triangle_final) 2 = Some (-1) /\
  (Py.mem 2 (outerVertices triangle_final) = true <-> 0 <= -1).
Proof.
  assert (H1 : Forall op_ok triangle_ops).
  { repeat constructor; simpl; lia. }
  assert (H2 : session 16 16 3 triangle_ops = Ok tt triangle_final).
  { vm_compute. reflexivity. }
  assert (H3 : Py.get (LABEL triangle_final) 2 = Some (-1)).
  { vm_compute. reflexivity. }
  split; [exact H1|]. split; [exact H2|]. split; [lia|].
  split; [exact H3|].
  exact (proj1 (outer_iff_label_between_operations 16 16 3 triangle_ops
                  triangle_final H1 H2) 2 (-1) ltac:(lia) H3).
Defined.

(** The first statements [E] executes on the one-vertex graph: the root is
    labelled, the queue is found empty, and [stopTheSearch] starts
    resetting. *)
Definition one_vertex_resetting : outcome unit :=
  (setLabel 1 0 ;;;
   assign FIRST with_FIRST 1 0 ;;;
   chooseAnEdge ;;;
   assign LABEL with_LABEL 0 (-1) ;;;
   setLabel 1 (-1)) (init 1).

(** The claim as worded fails at the label write that takes vertex 1 from
    label 0 to label -1: the write is done and the vertex is still a
    member of the outer set. *)
Lemma label_write_down_keeps_outer_member :
  exists s, one_vertex_resetting = Ok tt s /\
            Py.get (LABEL s) 1 = Some (-1) /\
            Py.mem 1 (outerVertices s) = true.
Proof. eexists. repeat split; vm_compute; reflexivity. Qed.

(** ** Flags after [L] *)

(** C8 (as the code has it).  In a state met during a search, a call
    [L(x, y, e)] that gets past its early return ([FIRST[x] != FIRST[y]])
    and returns leaves the flag on the vertex it found as [join]: some
    vertex id [join >= 0] has [LABEL[join] = -e] when [L] returns. *)
Theorem L_leaves_flag_on_join
        (fuel : nat) (x y e r r' : Z) (s s' : state) :
  J s ->
  Py.get (FIRST s) x = Some r -> Py.get (FIRST s) y = Some r' -> r <> r' ->
  L fuel x y e s = Ok tt s' ->
  exists join, 0 <= join /\ Py.get (LABEL s') join = Some (- e).
Proof.
  intros HJ Hx Hy Hne HL.
  assert (Hr : 0 <= r).
  { eapply Forall_In_le; [apply (J_FIRST s HJ) | eapply get_in; eauto]. }
  pose proof (L_blossom_J fuel x y e r r' Hr s HJ) as H.
  unfold L, bind, index in HL. rewrite Hx, Hy in HL.
  destruct (Z.eqb_spec r r') as [?|_]; [contradiction|].
  rewrite HL in H. destruct H as (j & Hj & _ & Hf). eauto.
Qed.

(** A stem 5-1-2 with the triangle 2-3-4 at its end, edges 1-2 and 3-4
    matched by the first two searches. *)
Definition stem_triangle : list (Z * Z) :=
  [(1, 2); (3, 4); (5, 1); (2, 3); (2, 4)].

(** The search rooted at vertex 5, up to the pass of the loop of [E] that
    finds edge 2-4 (number 14) joining the outer vertices 2 and 4. *)
Definition stem_triangle_before_L : M bool :=
  build 5 stem_triangle ;;;
  E_body 8 8 1 ;;; E_body 8 8 2 ;;; E_body 8 8 3 ;;; E_body 8 8 4 ;;;
  setLabel 5 0 ;;;
  assign FIRST with_FIRST 5 0 ;;;
  search_step 8 8 5 ;;;
  search_step 8 8 5 ;;;
  search_step 8 8 5 ;;;
  x_nxy <- chooseAnEdge ;;
  ret (match x_nxy with Some (2, 14) => true | _ => false end).

Definition state_of {A} (o : outcome A) : state :=
  match o with
  | Ok _ s | Raise _ s => s
  | OutOfFuel => init 0
  end.

Lemma stem_triangle_before_L_J :
  J (state_of (stem_triangle_before_L (init 5))).
Proof.
  assert (H : triple idle stem_triangle_before_L (fun _ => J) any).
  { unfold stem_triangle_before_L.
    eapply triple_bind.
    { unfold build. apply triple_for_each. intros [v w] Hin.
      apply addEdge_idle;
        simpl in Hin; repeat destruct Hin as [Hin|Hin];
          try (injection Hin as <- <-; simpl; lia); contradiction. }
    intros [].
    do 4 (eapply triple_bind; [apply E_body_idle; lia|]; intros []).
    apply triple_pre with (P' := J); [apply idle_J|].
    eapply triple_bind; [apply setLabel_J; lia|]. intros [].
    eapply triple_bind; [apply assign_FIRST_J; lia|]. intros [].
    do 3 (eapply triple_bind with (Q1 := fun _ => J);
          [eapply triple_weaken; [apply search_step_J| | |]; auto;
           intros [|] st Hst; [exact Hst | apply idle_J, Hst] |];
          intros _).
    eapply triple_bind; [apply chooseAnEdge_J|]. intros c.
    apply triple_ret. tauto. }
  specialize (H (init 5) (init_idle 5)).
  destruct (stem_triangle_before_L (init 5)) eqn:E;
    [exact H | vm_compute in E; discriminate
     | vm_compute in E; discriminate].
Qed.

Lemma L_leaves_flag_on_join_witness :
  let s := state_of (stem_triangle_before_L (init 5)) in
  let s' := state_of (L 8 2 4 14 s) in
  J s /\ Py.get (FIRST s) 2 = Some 1 /\ Py.get (FIRST s) 4 = Some 3 /\
  1 <> 3 /\ L 8 2 4 14 s = Ok tt s' /\
  exists join, 0 <= join /\ Py.get (LABEL s') join = Some (- 14).
Proof.
  intros s s'.
  assert (H1 : J s) by apply stem_triangle_before_L_J.
  assert (H2 : Py.get (FIRST s) 2 = Some 1) by (vm_compute; reflexivity).
  assert (H3 : Py.get (FIRST s) 4 = Some 3) by (vm_compute; reflexivity).
  assert (H4 : 1 <> 3) by lia.
  assert (H5 : L 8 2 4 14 s = Ok tt s') by (vm_compute; reflexivity).
  split; [exact H1|]. split; [exact H2|]. split; [exact H3|].
  split; [exact H4|]. split; [exact H5|].
  exact (L_leaves_flag_on_join 8 2 4 14 1 3 s s' H1 H2 H3 H4 H5).
Defined.

(** The claim as worded fails in that search: [E] has taken the pair
    (2, 14) from its queue, vertex 4 is outer, it calls [L(2, 4, 14)], and
    when [L] returns vertex 1, the join, has [LABEL[1] = -14]. *)
Lemma flag_still_there_when_L_returns :
  exists s s',
    stem_triangle_before_L (init 5) = Ok true s /\
    getEdge 14 s = Ok (2, 4) s /\
    isOuterVertex 4 s = Ok true s /\
    L 8 2 4 14 s = Ok tt s' /\
    Py.get (LABEL s') 1 = Some (- 14).
Proof.
  eexists. eexists. split; [vm_compute; reflexivity|].
  repeat split; vm_compute; reflexivity.
Qed.

(** ** The recursion of [R] *)

(** How one activation of [R] continues after its own statements. *)
Inductive R_next :=
| Done
| Path (p t : Z)
| Blossom (x y : Z).

(** The statements of one activation of [R(v, w)], up to its recursive
    calls: step R1, and the writes of step R2. *)
Definition R_head (v w : Z) : M R_next :=
  t <- index MATE v ;;
  assign MATE with_MATE v w ;;;
  mt <- index MATE t ;;
  if negb (mt =? v) then ret Done
  else
    vl <- hasVertexLabel v ;;
    if vl then
      lv <- index LABEL v ;;
      assign MATE with_MATE t lv ;;;
      lv' <- index LABEL v ;;
      ret (Path lv' t)
    else
      lv <- index LABEL v ;;
      xy <- getEdge lv ;;
      ret (Blossom (fst xy) (snd xy)).

Definition R_calls (depth : nat) (n : R_next) : M unit :=
  match n with
  | Done => ret tt
  | Path p t => R depth p t
  | Blossom x y => R depth x y ;;; R depth y x
  end.

Lemma bind_assoc {A B C} (m : M A) (f : A -> M B) (g : B -> M C) s :
  bind (bind m f) g s = bind m (fun a => bind (f a) g) s.
Proof. unfold bind. destruct (m s); reflexivity. Qed.

Lemma bind_ext {A B} (m : M A) (f g : A -> M B) s :
  (forall a s', f a s' = g a s') -> bind m f s = bind m g s.
Proof. intros H. unfold bind. destruct (m s); auto. Qed.

Lemma R_unfold depth v w s :
  R (S depth) v w s = bind (R_head v w) (R_calls depth) s.
Proof.
  unfold R_head. simpl R.
  rewrite bind_assoc. apply bind_ext. intros t s1.
  rewrite bind_assoc. apply bind_ext. intros [] s2.
  rewrite bind_assoc. apply bind_ext. intros mt s3.
  destruct (negb (mt =? v)); [reflexivity|].
  rewrite bind_assoc. apply bind_ext. intros vl s4.
  destruct vl.
  - rewrite bind_assoc. apply bind_ext. intros lv s5.
    rewrite bind_assoc. apply bind_ext. intros [] s6.
    rewrite bind_assoc. apply bind_ext. intros lv' s7. reflexivity.
  - rewrite bind_assoc. apply bind_ext. intros lv s5.
    rewrite bind_assoc. apply bind_ext. intros xy s6. reflexivity.
Qed.

Lemma R_mono_le d d' v w : (d <= d')%nat -> m_le (R d v w) (R d' v w).
Proof.
  intros H. induction H; [apply m_le_refl|].
  eapply m_le_trans; [exact IHle | apply R_mono].
Qed.

(** A call that returns with some depth allowance returns the same with
    any other, unless the allowance is exhausted. *)
Lemma R_returns_cases F d v w s s' :
  R F v w s = Ok tt s' ->
  R d v w s = OutOfFuel \/ R d v w s = Ok tt s'.
Proof.
  intros HF. destruct (Nat.le_gt_cases d F) as [H|H].
  - destruct (R_mono_le d F v w H s) as [E|E]; [left; exact E|].
    right. congruence.
  - assert (H' : (F <= d)%nat) by lia.
    destruct (R_mono_le F d v w H' s) as [E|E]; [congruence|].
    right. congruence.
Qed.

(** A set of calls is recurrent when each of them, after its own
    statements, makes a call of the set: directly (step R2, or the first
    call of step R3), or as the second call of step R3 once the first has
    returned. *)
Definition recurrent (C : Z -> Z -> state -> Prop) : Prop :=
  forall v w s, C v w s ->
    exists n s', R_head v w s = Ok n s' /\
      match n with
      | Done => False
      | Path p t => C p t s'
      | Blossom x y =>
          C x y s' \/
          exists F s'', R F x y s' = Ok tt s'' /\ C y x s''
      end.

(** The calls of a recurrent set do not return, whatever depth is
    allowed. *)
Lemma recurrent_never_returns C :
  recurrent C ->
  forall depth v w s, C v w s -> R depth v w s = OutOfFuel.
Proof.
  intros HC depth. induction depth as [|d IH]; intros v w s Hc.
  - reflexivity.
  - rewrite R_unfold. unfold bind.
    destruct (HC v w s Hc) as (n & s' & -> & Hn).
    destruct n as [|p t|x y]; simpl.
    + contradiction.
    + apply IH, Hn.
    + unfold bind. destruct Hn as [Hn|(F & s'' & HF & Hn)].
      * rewrite (IH _ _ _ Hn). reflexivity.
      * destruct (R_returns_cases F d x y s' s'' HF) as [-> | ->];
          [reflexivity | apply IH, Hn].
Qed.

(** *** A search in which [R] recurs for ever *)

(** The first [k] passes of the loop of [E]: [search] stopped after [k]
    passes, answering whether the loop is still running. *)
Fixpoint search_prefix (fuel depth : nat) (u : Z) (k : nat) : M bool :=
  match k with
  | O => ret true
  | S k' =>
      again <- search_step fuel depth u ;;
      if again then search_prefix fuel depth u k' else ret false
  end.

Lemma search_prefix_then fuel depth u k j s :
  search fuel depth u (k + j) s =
  bind (search_prefix fuel depth u k)
       (fun b => if b then search fuel depth u j else ret tt) s.
Proof.
  revert s. induction k as [|k IH]; intros s; simpl.
  - reflexivity.
  - rewrite bind_assoc. apply bind_ext. intros [|] s'; [apply IH | reflexivity].
Qed.

Definition loop_graph : list (Z * Z) :=
  [(4, 10); (10, 3); (1, 8); (2, 1); (2, 9); (7, 10);
   (3, 2); (4, 3); (7, 6); (8, 4); (9, 4); (5, 7)].

(** A pass of the loop of [E] up to the call of [R] in step E3: the pair
    [(x, y)] when the pass takes that step, with [MATE[y] = x] already
    written. *)
Definition pass_to_R (u : Z) : M (option (Z * Z)) :=
  c <- chooseAnEdge ;;
  match c with
  | None => ret None
  | Some (x, n_xy) =>
      edge <- getEdge n_xy ;;
      let y := Z.lxor (Z.lxor x (fst edge)) (snd edge) in
      my <- isMatched y ;;
      if negb my && negb (y =? u) then
        assign MATE with_MATE y x ;;; ret (Some (x, y))
      else ret None
  end.

Lemma search_step_calls_R fuel depth u s x y s' :
  pass_to_R u s = Ok (Some (x, y)) s' ->
  search_step fuel depth u s =
  (R depth x y ;;; stopTheSearch ;;; ret false) s'.
Proof.
  unfold pass_to_R, search_step, bind.
  destruct (chooseAnEdge s) as [[[x0 n]|] s1|e s1|]; try discriminate.
  destruct (getEdge n s1) as [edge s2|e s2|]; try discriminate.
  destruct (isMatched _ s2) as [my s3|e s3|]; try discriminate.
  destruct (negb my && negb (_ =? u)); [|discriminate].
  destruct (assign MATE with_MATE _ x0 s3) as [[] s4|e s4|];
    try discriminate.
  intros [= <- <- <-]. reflexivity.
Qed.

(** [E] on [loop_graph], up to the call of [R] in step E3 of the search
    rooted at vertex 5: the searches of vertices 1 to 4, 21 passes of the
    loop, and the statements of the 22nd pass before [self.R(x, y)]; the
    answer is the pair [(x, y)]. *)
Definition loop_graph_before_R : M (option (Z * Z)) :=
  build 10 loop_graph ;;;
  for_each [1; 2; 3; 4] (E_body 32 32) ;;;
  setLabel 5 0 ;;;
  assign FIRST with_FIRST 5 0 ;;;
  search_prefix 32 32 5 21 ;;;
  pass_to_R 5.

Definition loop_state : state := state_of (loop_graph_before_R (init 10)).

(** The calls on the path of activations that never return, each with the
    contents of [MATE] when it is made. *)
Definition loop_calls : list (Z * Z * list Z) :=
  [(7, 6, [0; 8; 9; 4; 3; 0; 7; 10; 1; 2; 7]);
   (1, 2, [0; 8; 1; 10; 9; 0; 7; 6; 1; 4; 3]);
   (4, 8, [0; 2; 1; 10; 9; 0; 7; 6; 4; 4; 3]);
   (3, 10, [0; 2; 1; 5; 8; 3; 7; 6; 4; 4; 3]);
   (10, 5, [0; 2; 1; 10; 8; 10; 7; 6; 4; 4; 3]);
   (5, 3, [0; 2; 1; 5; 8; 10; 7; 6; 4; 4; 5]);
   (2, 4, [0; 2; 1; 5; 8; 3; 7; 6; 4; 4; 5]);
   (4, 9, [0; 2; 4; 5; 8; 3; 7; 6; 4; 4; 5]);
   (3, 10, [0; 2; 4; 5; 9; 3; 7; 6; 4; 4; 3]);
   (10, 5, [0; 2; 4; 10; 9; 10; 7; 6; 4; 4; 3]);
   (5, 3, [0; 2; 4; 5; 9; 10; 7; 6; 4; 4; 5]);
   (4, 2, [0; 2; 4; 5; 9; 3; 7; 6; 4; 4; 5]);
   (3, 10, [0; 2; 4; 5; 2; 3; 7; 6; 4; 4; 3]);
   (10, 5, [0; 2; 4; 10; 2; 10; 7; 6; 4; 4; 3]);
   (5, 3, [0; 2; 4; 5; 2; 10; 7; 6; 4; 4; 5]);
   (2, 4, [0; 2; 4; 5; 2; 3; 7; 6; 4; 4; 5]);
   (4, 9, [0; 2; 4; 5; 2; 3; 7; 6; 4; 4; 5])].

Definition state_eq_dec (s s' : state) : {s = s'} + {s <> s'}.
Proof.
  decide equality;
    repeat first [ apply Z.eq_dec | apply list_eq_dec | decide equality ].
Defined.

Section Recurrence.

Variables (s0 : state) (calls : list (Z * Z * list Z)) (F : nat).

Definition is_call (v w : Z) (s : state) : bool :=
  existsb (fun c =>
             (v =? fst (fst c)) && (w =? snd (fst c)) &&
             (if state_eq_dec s (with_MATE s0 (snd c)) then true else false))
          calls.

Definition recurrent_b : bool :=
  forallb (fun c =>
             match R_head (fst (fst c)) (snd (fst c))
                          (with_MATE s0 (snd c)) with
             | Ok (Path p t) s' => is_call p t s'
             | Ok (Blossom x y) s' =>
                 is_call x y s' ||
                 match R F x y s' with
                 | Ok _ s'' => is_call y x s''
                 | _ => false
                 end
             | _ => false
             end)
          calls.

Lemma recurrent_b_sound :
  recurrent_b = true -> recurrent (fun v w s => is_call v w s = true).
Proof.
  intros H v w s Hc. unfold is_call in Hc.
  apply existsb_exists in Hc. destruct Hc as ([[v' w'] m] & Hin & Hc).
  simpl in Hc. apply andb_prop in Hc. destruct Hc as [Hc Hs].
  apply andb_prop in Hc. destruct Hc as [Hv Hw].
  apply Z.eqb_eq in Hv, Hw. subst v' w'.
  destruct (state_eq_dec s (with_MATE s0 m)) as [->|]; [|discriminate].
  unfold recurrent_b in H. rewrite forallb_forall in H.
  specialize (H _ Hin). simpl in H.
  destruct (R_head v w (with_MATE s0 m)) as [n s'|e s'|];
    try discriminate.
  exists n, s'. split; [reflexivity|].
  destruct n as [|p t|x y]; try discriminate; auto.
  apply orb_prop in H. destruct H as [H|H]; [left; exact H|].
  right. destruct (R F x y s') as [[] s''|e s''|] eqn:E;
    try discriminate.
  exists F, s''. auto.
Qed.

End Recurrence.

Lemma loop_state_reached :
  loop_graph_before_R (init 10) = Ok (Some (7, 6)) loop_state.
Proof. vm_compute. reflexivity. Qed.

Lemma loop_state_R_never_returns depth : R depth 7 6 loop_state = OutOfFuel.
Proof.
  apply (recurrent_never_returns
           (fun v w s => is_call loop_state loop_calls v w s = true)).
  - apply (recurrent_b_sound loop_state loop_calls 8).
    vm_compute. reflexivity.
  - vm_compute. reflexivity.
Qed.

(** The same for [E] as a whole: with enough fuel for everything before
    that call, [E] runs out of depth in it; with less, it runs out
    earlier. *)

Lemma m_le_Ok {A} (m m' : M A) s a s' :
  m_le m m' -> m s = Ok a s' -> m' s = Ok a s'.
Proof. intros H E. destruct (H s) as [E'|E']; congruence. Qed.

Lemma m_le_OutOfFuel {A} (m m' : M A) s :
  m_le m m' -> m' s = OutOfFuel -> m s = OutOfFuel.
Proof. intros H E. destruct (H s) as [E'|E']; congruence. Qed.

Lemma mono_le2 {A} (F : nat -> nat -> M A) :
  (forall f d, m_le (F f d) (F (S f) d)) ->
  (forall f d, m_le (F f d) (F f (S d))) ->
  forall f d f' d', (f <= f')%nat -> (d <= d')%nat ->
                    m_le (F f d) (F f' d').
Proof.
  intros H1 H2 f d f' d' Hf Hd.
  apply m_le_trans with (F f' d).
  - induction Hf; [apply m_le_refl|].
    eapply m_le_trans; [exact IHHf | apply H1].
  - induction Hd; [apply m_le_refl|].
    eapply m_le_trans; [exact IHHd | apply H2].
Qed.

Lemma E_body_mono_le u f d f' d' :
  (f <= f')%nat -> (d <= d')%nat -> m_le (E_body f d u) (E_body f' d' u).
Proof.
  apply (mono_le2 (fun f d => E_body f d u)); intros f0 d0;
    unfold E_body; m_le_tac.
  - eapply m_le_trans; [apply search_mono | apply search_mono].
  - apply search_mono.
Qed.

Lemma search_prefix_mono_le u k f d f' d' :
  (f <= f')%nat -> (d <= d')%nat ->
  m_le (search_prefix f d u k) (search_prefix f' d' u k).
Proof.
  apply (mono_le2 (fun f d => search_prefix f d u k)); intros f0 d0;
    induction k as [|k IH]; simpl; try apply m_le_refl;
    (apply m_le_bind; [apply search_step_mono|]);
    intros []; auto using m_le_refl.
Qed.

Lemma bind_Ok_eq {A B} (m : M A) (f : A -> M B) s a s1 :
  m s = Ok a s1 -> bind m f s = f a s1.
Proof. intros H. unfold bind. rewrite H. reflexivity. Qed.

Lemma for_each_cons {A} (x : A) xs body s :
  for_each (x :: xs) body s = bind (body x) (fun _ => for_each xs body) s.
Proof. reflexivity. Qed.

(** The object after [build] and the searches of the first [k] vertices. *)
Definition loop_after (k : nat) : state :=
  state_of ((build 10 loop_graph ;;;
             for_each (firstn k [1; 2; 3; 4]) (E_body 32 32)) (init 10)).

(** The object when the search of vertex 5 has been seeded, and after its
    first 21 passes. *)
Definition loop_seeded : state :=
  state_of ((setLabel 5 0 ;;; assign FIRST with_FIRST 5 0) (loop_after 4)).

Definition loop_pass_21 : state :=
  state_of (search_prefix 32 32 5 21 loop_seeded).

Lemma search_on_loop_graph fuel depth k :
  (32 <= fuel)%nat -> (32 <= depth)%nat -> (22 <= k)%nat ->
  search fuel depth 5 k loop_seeded = OutOfFuel.
Proof.
  intros Hf Hd Hk.
  replace k with (21 + S (k - 22))%nat by lia.
  rewrite search_prefix_then.
  assert (H21 : search_prefix 32 32 5 21 loop_seeded = Ok true loop_pass_21)
    by (vm_compute; reflexivity).
  rewrite (bind_Ok_eq _ _ _ _ _
             (m_le_Ok _ _ _ _ _ (search_prefix_mono_le 5 21 _ _ _ _ Hf Hd)
                      H21)).
  change (search fuel depth 5 (S (k - 22)) loop_pass_21) with
    (bind (search_step fuel depth 5)
          (fun again => if again then search fuel depth 5 (k - 22)
                        else ret tt) loop_pass_21).
  assert (Hp : pass_to_R 5 loop_pass_21 = Ok (Some (7, 6)) loop_state)
    by (vm_compute; reflexivity).
  unfold bind at 1.
  rewrite (search_step_calls_R fuel depth 5 _ _ _ _ Hp).
  unfold bind at 1. unfold bind at 1.
  rewrite loop_state_R_never_returns. reflexivity.
Qed.

Lemma E_on_loop_graph_with_enough_fuel fuel depth :
  (32 <= fuel)%nat -> (32 <= depth)%nat ->
  run fuel depth 10 loop_graph = OutOfFuel.
Proof.
  intros Hf Hd. unfold run.
  assert (H0 : build 10 loop_graph (init 10) = Ok tt (loop_after 0))
    by (vm_compute; reflexivity).
  rewrite (bind_Ok_eq _ _ _ _ _ H0).
  unfold E.
  rewrite (bind_Ok_eq _ _ _ 10 (loop_after 0)) by (vm_compute; reflexivity).
  change (vertices 10) with [1; 2; 3; 4; 5; 6; 7; 8; 9; 10].
  assert (H1 : E_body 32 32 1 (loop_after 0) = Ok tt (loop_after 1))
    by (vm_compute; reflexivity).
  assert (H2 : E_body 32 32 2 (loop_after 1) = Ok tt (loop_after 2))
    by (vm_compute; reflexivity).
  assert (H3 : E_body 32 32 3 (loop_after 2) = Ok tt (loop_after 3))
    by (vm_compute; reflexivity).
  assert (H4 : E_body 32 32 4 (loop_after 3) = Ok tt (loop_after 4))
    by (vm_compute; reflexivity).
  rewrite for_each_cons.
  rewrite (bind_Ok_eq _ _ _ _ _
             (m_le_Ok _ _ _ _ _ (E_body_mono_le 1 _ _ _ _ Hf Hd) H1)).
  rewrite for_each_cons.
  rewrite (bind_Ok_eq _ _ _ _ _
             (m_le_Ok _ _ _ _ _ (E_body_mono_le 2 _ _ _ _ Hf Hd) H2)).
  rewrite for_each_cons.
  rewrite (bind_Ok_eq _ _ _ _ _
             (m_le_Ok _ _ _ _ _ (E_body_mono_le 3 _ _ _ _ Hf Hd) H3)).
  rewrite for_each_cons.
  rewrite (bind_Ok_eq _ _ _ _ _
             (m_le_Ok _ _ _ _ _ (E_body_mono_le 4 _ _ _ _ Hf Hd) H4)).
  rewrite for_each_cons.
  assert (H5 : E_body fuel depth 5 (loop_after 4) = OutOfFuel).
  { unfold E_body.
    rewrite (bind_Ok_eq _ _ _ 0 (loop_after 4)) by (vm_compute; reflexivity).
    change (0 >? 0) with false. cbv iota.
    assert (Hs : (setLabel 5 0 ;;; assign FIRST with_FIRST 5 0) (loop_after 4)
                 = Ok tt loop_seeded) by (vm_compute; reflexivity).
    rewrite <- bind_assoc.
    rewrite (bind_Ok_eq _ _ _ _ _ Hs).
    apply search_on_loop_graph; auto. lia. }
  unfold bind at 1. rewrite H5. reflexivity.
Qed.

(** [E] does not return on [loop_graph], whatever fuel the model is
    given. *)
Lemma E_never_returns_on_loop_graph fuel depth :
  run fuel depth 10 loop_graph = OutOfFuel.
Proof.
  exact (run_OutOfFuel_le fuel depth (Nat.max fuel 32) (Nat.max depth 32)
           10 loop_graph (Nat.le_max_l fuel 32) (Nat.le_max_l depth 32)
           (E_on_loop_graph_with_enough_fuel
              (Nat.max fuel 32) (Nat.max depth 32)
              (Nat.le_max_r fuel 32) (Nat.le_max_r depth 32))).
Qed.

(** C9 at [loop_graph].  The search rooted at vertex 5 reaches step E3
    with [x = 7], [y = 6] and calls [R(7, 6)]; that call does not return
    with any depth of recursion allowed, so its depth is not bounded by
    [V = 10], and [E] as a whole does not return. *)
Theorem R_recursion_never_ends :
  loop_graph_before_R (init 10) = Ok (Some (7, 6)) loop_state /\
  V loop_state = 10 /\
  (forall depth, R depth 7 6 loop_state = OutOfFuel) /\
  (forall fuel depth, run fuel depth 10 loop_graph = OutOfFuel).
Proof.
  split; [apply loop_state_reached|]. split; [reflexivity|].
  split; [apply loop_state_R_never_returns|].
  apply E_never_returns_on_loop_graph.
Qed.

(** ** What [E] returns *)

(** [MATE] pairs vertices with one another on [1..V]. *)
Definition symmetric_MATE (s : state) : bool :=
  forallb (fun v =>
             match Py.get (MATE s) v with
             | Some m =>
                 (m =? 0) ||
                 match Py.get (MATE s) m with
                 | Some v' => v' =? v
                 | None => false
                 end
             | None => false
             end)
          (vertices (V s)).

(** The number of vertices of [1..V] whose [MATE] is [t]. *)
Definition times_as_MATE (s : state) (t : Z) : nat :=
  length (filter (fun v => match Py.get (MATE s) v with
                           | Some m => m =? t
                           | None => false
                           end)
                 (vertices (V s))).

Definition crossed_graph : list (Z * Z) :=
  [(5, 7); (10, 8); (2, 7); (1, 8); (7, 1); (3, 5); (2, 10);
   (3, 8); (4, 10); (9, 3); (6, 3); (2, 5); (4, 7)].

(** C1 at [crossed_graph].  [E()] returns, and [MATE] is not a matching:
    [MATE[1] = 7] while [MATE[7] = 10], and vertex 7 is the [MATE] of both
    1 and 10 (as vertex 8 is of both 2 and 4). *)
Theorem E_returns_broken_MATE :
  exists s,
    run 64 64 10 crossed_graph = Ok tt s /\
    MATE s = [0; 7; 8; 9; 8; 6; 5; 10; 2; 3; 7] /\
    Py.get (MATE s) 1 = Some 7 /\ Py.get (MATE s) 7 = Some 10 /\
    symmetric_MATE s = false /\
    times_as_MATE s 7 = 2%nat /\ times_as_MATE s 8 = 2%nat.
Proof.
  eexists. split; [vm_compute; reflexivity|].
  repeat split; vm_compute; reflexivity.
Qed.

(** Whether [a]-[b] is one of the edges given to [addEdge]. *)
Definition is_edge (edges : list (Z * Z)) (a b : Z) : bool :=
  existsb (fun e => ((fst e =? a) && (snd e =? b)) ||
                    ((fst e =? b) && (snd e =? a))) edges.

Definition pendant_graph : list (Z * Z) :=
  [(2, 4); (1, 6); (2, 6); (1, 7); (5, 4); (3, 6); (8, 4); (7, 2); (2, 3)].

(** C5 at [pendant_graph] (8 vertices; 5 and 8 have 4 as their only
    neighbour, so no matching covers more than 6 vertices).  With the
    edges inserted in the order listed [E()] returns and
    [getMatchingSize()] is 8, vertex 5 being paired with vertex 7, which
    is not adjacent to it; with the same edges inserted in the reverse
    order [getMatchingSize()] is 6. *)
Theorem matching_size_depends_on_insertion_order :
  (exists s,
     run 64 64 8 pendant_graph = Ok tt s /\
     getMatchingSize s = 8 /\
     Py.get (MATE s) 5 = Some 7 /\ is_edge pendant_graph 5 7 = false) /\
  (exists s,
     run 64 64 8 (rev pendant_graph) = Ok tt s /\
     getMatchingSize s = 6).
Proof.
  split; eexists; (split; [vm_compute; reflexivity|]);
    repeat split; vm_compute; reflexivity.
Qed.

(** ** The order in which the outer set is enumerated

    [outerVertices] is a Python [set], and Python does not enumerate a set
    in insertion order.  Both loops over it end with the same object in
    whatever order the members come. *)

Lemma for_each_Permutation {A} (body : A -> M unit) (xs ys : list A) :
  Permutation xs ys ->
  (forall x y s s', (body x ;;; body y) s = Ok tt s' ->
                    (body y ;;; body x) s = Ok tt s') ->
  forall s s', for_each xs body s = Ok tt s' -> for_each ys body s = Ok tt s'.
Proof.
  intros Hp Hswap.
  induction Hp as [|x l l' Hp IH|x y l|l l' l'' _ IH1 _ IH2]; intros s s' H.
  - exact H.
  - simpl in *. unfold bind in *.
    destruct (body x s) as [[] s1|e s1|]; try discriminate. auto.
  - simpl in *.
    destruct (body y s) as [[] s1|e s1|] eqn:Ey;
      unfold bind in H; rewrite Ey in H; try discriminate.
    destruct (body x s1) as [[] s2|e s2|] eqn:Ex; try discriminate.
    assert (Hyx : (body y ;;; body x) s = Ok tt s2).
    { unfold bind. rewrite Ey. exact Ex. }
    apply Hswap in Hyx. unfold bind in *.
    destruct (body x s) as [[] s3|e s3|]; try discriminate.
    rewrite Hyx. exact H.
  - auto.
Qed.

Section Order.

Context {A : Type}.

Lemma upd_upd_same (l : list A) i j a :
  Py.upd (Py.upd l i a) j a = Py.upd (Py.upd l j a) i a.
Proof.
  revert i j; induction l as [|h t IH]; intros [|i] [|j]; simpl; auto.
  rewrite IH. reflexivity.
Qed.

Lemma upd_upd_other (l : list A) i j a b :
  i <> j -> Py.upd (Py.upd l i a) j b = Py.upd (Py.upd l j b) i a.
Proof.
  revert i j; induction l as [|h t IH]; intros [|i] [|j] H; simpl; auto.
  - congruence.
  - rewrite IH; auto.
Qed.

Lemma norm_length (l l' : list A) i :
  length l = length l' -> Py.norm l' i = Py.norm l i.
Proof. intros H. unfold Py.norm, Py.len. rewrite H. reflexivity. Qed.

(** Writing the same value at two indices, in either order. *)
Lemma set_set_swap (l l1 l2 : list A) i j a :
  Py.set l i a = Some l1 -> Py.set l1 j a = Some l2 ->
  exists l1', Py.set l j a = Some l1' /\ Py.set l1' i a = Some l2.
Proof.
  unfold Py.set. intros H1 H2.
  destruct (Py.norm l i) as [ki|] eqn:Ei; [|discriminate].
  injection H1 as <-.
  rewrite (norm_length l) in H2 by (symmetry; apply upd_length).
  destruct (Py.norm l j) as [kj|] eqn:Ej; [|discriminate].
  injection H2 as <-.
  eexists. split; [reflexivity|].
  rewrite (norm_length l) by (symmetry; apply upd_length).
  rewrite Ei. rewrite upd_upd_same. reflexivity.
Qed.

End Order.

Lemma setLabel_minus_one v s :
  setLabel v (-1) s = assign LABEL with_LABEL v (-1) s.
Proof.
  unfold setLabel, bind, assign, gets.
  destruct (Py.set (LABEL s) v (-1)); reflexivity.
Qed.

(** [reset_labels] as two writes of -1 into [LABEL]. *)
Lemma reset_labels_Ok v s s' :
  reset_labels v s = Ok tt s' <->
  exists m l1 l2,
    Py.get (MATE s) v = Some m /\
    Py.set (LABEL s) v (-1) = Some l1 /\ Py.set l1 m (-1) = Some l2 /\
    s' = with_LABEL s l2.
Proof.
  unfold reset_labels, bind. rewrite setLabel_minus_one.
  unfold assign, index.
  destruct (Py.set (LABEL s) v (-1)) as [l1|] eqn:E1; simpl.
  - destruct (Py.get (MATE s) v) as [m|] eqn:Em.
    + rewrite setLabel_minus_one. unfold assign. simpl.
      destruct (Py.set l1 m (-1)) as [l2|] eqn:E2.
      * split.
        -- intros [= <-]. exists m, l1, l2. auto.
        -- intros (m' & l1' & l2' & [= <-] & [= <-] & H2 & ->).
           rewrite E2 in H2. injection H2 as <-. reflexivity.
      * split; [discriminate|].
        intros (m' & l1' & l2' & [= <-] & [= <-] & H2 & _). congruence.
    + split; [discriminate|].
      intros (m' & l1' & l2' & H & _). discriminate.
  - split; [discriminate|].
    intros (m' & l1' & l2' & _ & H & _). discriminate.
Qed.

Lemma reset_labels_swap x y s s' :
  (reset_labels x ;;; reset_labels y) s = Ok tt s' ->
  (reset_labels y ;;; reset_labels x) s = Ok tt s'.
Proof.
  unfold bind. intros H.
  destruct (reset_labels x s) as [[] s1|e s1|] eqn:Ex; try discriminate.
  apply reset_labels_Ok in Ex. destruct Ex as (mx & a1 & a2 & Hmx & A1 & A2 & ->).
  apply reset_labels_Ok in H. simpl in H.
  destruct H as (my & b1 & b2 & Hmy & B1 & B2 & ->).
  (* x, mx, y, my  ==>  y, my, x, mx *)
  destruct (set_set_swap _ _ _ _ _ _ A2 B1) as (c1 & C1 & C2).
  destruct (set_set_swap _ _ _ _ _ _ A1 C1) as (d1 & D1 & D2).
  destruct (set_set_swap _ _ _ _ _ _ C2 B2) as (e1 & E1 & E2).
  destruct (set_set_swap _ _ _ _ _ _ D2 E1) as (f1 & F1 & F2).
  assert (Hy : reset_labels y s = Ok tt (with_LABEL s f1)).
  { apply reset_labels_Ok. exists my, d1, f1. auto. }
  rewrite Hy. apply reset_labels_Ok. simpl.
  exists mx, e1, b2. auto.
Qed.

(** The loop of [stopTheSearch], over the members in any order. *)
Lemma stopTheSearch_any_order vs vs' s s' :
  Permutation vs vs' ->
  for_each vs reset_labels s = Ok tt s' ->
  for_each vs' reset_labels s = Ok tt s'.
Proof.
  intros Hp. apply for_each_Permutation; auto.
  intros x y. apply reset_labels_swap.
Qed.

Lemma with_FIRST_same s : with_FIRST s (FIRST s) = s.
Proof. destruct s; reflexivity. Qed.

(** [update_FIRST] as a function of the cell it reads and writes. *)
Definition update_cell (outer : list Z) (join : Z) (F : list Z) (k : nat) :
  option (list Z) :=
  match nth_error F k with
  | Some fi => Some (if Py.mem fi outer then Py.upd F k join else F)
  | None => None
  end.

Lemma update_FIRST_Ok join i s s' :
  update_FIRST join i s = Ok tt s' <->
  exists k F', Py.norm (FIRST s) i = Some k /\
               update_cell (outerVertices s) join (FIRST s) k = Some F' /\
               s' = with_FIRST s F'.
Proof.
  unfold update_FIRST, bind, index, isOuterVertex, gets, assign, ret,
    update_cell, Py.get, Py.set.
  destruct (Py.norm (FIRST s) i) as [k|] eqn:En.
  - destruct (nth_error (FIRST s) k) as [fi|] eqn:Ef.
    + destruct (Py.mem fi (outerVertices s)) eqn:Em; rewrite ?En.
      * split.
        -- intros [= <-]. exists k. eexists. rewrite Ef, Em. eauto.
        -- intros (k' & F' & [= <-] & H & ->).
           rewrite Ef, Em in H. injection H as <-. reflexivity.
      * split.
        -- intros [= <-]. exists k, (FIRST s).
           rewrite with_FIRST_same, Ef, Em. auto.
        -- intros (k' & F' & [= <-] & H & ->).
           rewrite Ef, Em in H. injection H as <-.
           rewrite with_FIRST_same. reflexivity.
    + split; [discriminate|].
      intros (k' & F' & [= <-] & H & _). rewrite Ef in H. discriminate.
  - split; [discriminate|].
    intros (k' & F' & H & _). discriminate.
Qed.

Lemma update_cell_length outer join F k F' :
  update_cell outer join F k = Some F' -> length F' = length F.
Proof.
  unfold update_cell. destruct (nth_error F k); [|discriminate].
  intros [= <-]. destruct (Py.mem z outer); auto. apply upd_length.
Qed.

Lemma update_cell_swap outer join F k1 k2 F1 F2 :
  update_cell outer join F k1 = Some F1 ->
  update_cell outer join F1 k2 = Some F2 ->
  exists F1', update_cell outer join F k2 = Some F1' /\
              update_cell outer join F1' k1 = Some F2.
Proof.
  intros H1 H2. destruct (Nat.eq_dec k1 k2) as [<-|Hne]; [eauto|].
  unfold update_cell in *.
  destruct (nth_error F k1) as [f1|] eqn:E1; [|discriminate].
  injection H1 as <-.
  assert (E2 : nth_error (if Py.mem f1 outer then Py.upd F k1 join else F) k2
               = nth_error F k2).
  { destruct (Py.mem f1 outer); auto. apply upd_nth_other. auto. }
  rewrite E2 in H2.
  destruct (nth_error F k2) as [f2|] eqn:E2'; [|discriminate].
  injection H2 as <-.
  eexists. split; [reflexivity|].
  assert (E1' : nth_error (if Py.mem f2 outer then Py.upd F k2 join else F) k1
                = Some f1).
  { destruct (Py.mem f2 outer); auto.
    rewrite upd_nth_other; auto. }
  rewrite E1'. f_equal.
  destruct (Py.mem f1 outer), (Py.mem f2 outer); auto.
  apply upd_upd_other. auto.
Qed.

Lemma update_FIRST_swap join x y s s' :
  (update_FIRST join x ;;; update_FIRST join y) s = Ok tt s' ->
  (update_FIRST join y ;;; update_FIRST join x) s = Ok tt s'.
Proof.
  unfold bind. intros H.
  destruct (update_FIRST join x s) as [[] s1|e s1|] eqn:Ex; try discriminate.
  apply update_FIRST_Ok in Ex. destruct Ex as (kx & F1 & Nx & Ux & ->).
  apply update_FIRST_Ok in H. simpl in H.
  destruct H as (ky & F2 & Ny & Uy & ->).
  rewrite (norm_length (FIRST s)) in Ny
    by (symmetry; eapply update_cell_length; eauto).
  destruct (update_cell_swap _ _ _ _ _ _ _ Ux Uy) as (F1' & Uy' & Ux').
  assert (Hy : update_FIRST join y s = Ok tt (with_FIRST s F1')).
  { apply update_FIRST_Ok. eauto. }
  rewrite Hy. apply update_FIRST_Ok. simpl.
  exists kx, F2. split; [|auto].
  rewrite (norm_length (FIRST s))
    by (symmetry; eapply update_cell_length; eauto).
  exact Nx.
Qed.

(** The loop of step L5, over the members in any order. *)
Lemma L_update_FIRST_any_order join vs vs' s s' :
  Permutation vs vs' ->
  for_each vs (update_FIRST join) s = Ok tt s' ->
  for_each vs' (update_FIRST join) s = Ok tt s'.
Proof.
  intros Hp. apply for_each_Permutation; auto.
  intros x y. apply update_FIRST_swap.
Qed.
(** * Further properties of the procedures *)

(** ** Edge numbers: [addEdge] and [getEdge] *)

(** [self.graph[v].append(e)] on the list of adjacency lists. *)
Definition appended (g : list (list Z)) (v e : Z) : option (list (list Z)) :=
  match Py.get g v with
  | Some adj => Py.set g v (adj ++ [e])
  | None => None
  end.

Lemma graph_append_appended v e s :
  graph_append v e s =
  match appended (graph s) v e with
  | Some g => Ok tt (with_graph s g)
  | None => Raise IndexError s
  end.
Proof.
  unfold graph_append, appended, bind, index, assign.
  destruct (Py.get (graph s) v) as [adj|] eqn:Eg; [|reflexivity].
  reflexivity.
Qed.

(** A call of [addEdge] that returns: [END] has the two ids appended, the
    adjacency lists of [v] and then of [w] the edge number, and nothing else
    is changed. *)
Lemma addEdge_Ok v w s s' :
  addEdge v w s = Ok tt s' ->
  exists g1 g2,
    appended (graph s) v (Py.len (END s) + VPlusOne s) = Some g1 /\
    appended g1 w (Py.len (END s) + VPlusOne s) = Some g2 /\
    s' = with_graph (with_END s (END s ++ [v; w])) g2.
Proof.
  unfold addEdge, bind, gets, modify.
  rewrite graph_append_appended. simpl.
  destruct (appended (graph s) v _) as [g1|] eqn:E1; [|discriminate].
  rewrite graph_append_appended. simpl.
  destruct (appended g1 w _) as [g2|] eqn:E2; [|discriminate].
  intros [= <-]. exists g1, g2. repeat split; auto.
  unfold with_graph, with_END; simpl. rewrite <- app_assoc. reflexivity.
Qed.

Lemma norm_inside {A} (l : list A) i :
  0 <= i < Py.len l -> Py.norm l i = Some (Z.to_nat i).
Proof.
  intros Hi. unfold Py.norm.
  replace ((0 <=? i) && (i <? Py.len l)) with true; auto.
  symmetry. apply andb_true_intro. split; [apply Z.leb_le | apply Z.ltb_lt]; lia.
Qed.

Lemma get_inside {A} (l : list A) i :
  0 <= i < Py.len l -> Py.get l i = nth_error l (Z.to_nat i).
Proof. intros Hi. unfold Py.get. rewrite norm_inside; auto. Qed.

Lemma get_app_l {A} (l l' : list A) i :
  0 <= i < Py.len l -> Py.get (l ++ l') i = Py.get l i.
Proof.
  intros Hi. rewrite !get_inside; auto.
  - apply nth_error_app1. unfold Py.len in Hi. lia.
  - unfold Py.len in *. rewrite length_app. lia.
Qed.

Lemma get_app_r {A} (l l' : list A) i :
  0 <= i < Py.len l' -> Py.get (l ++ l') (Py.len l + i) = Py.get l' i.
Proof.
  intros Hi. unfold Py.len in *. rewrite !get_inside.
  - rewrite nth_error_app2 by lia. f_equal. lia.
  - unfold Py.len. lia.
  - unfold Py.len. rewrite length_app. lia.
Qed.

Lemma get_Some_range {A} (l : list A) i a :
  Py.get l i = Some a -> - Py.len l <= i < Py.len l.
Proof.
  unfold Py.get. destruct (Py.norm l i) as [k|] eqn:E; [|discriminate].
  intros _. destruct (Z_lt_ge_dec i (- Py.len l)) as [H|H].
  - rewrite norm_out_of_range in E by lia. discriminate.
  - destruct (Z_lt_ge_dec i (Py.len l)) as [H'|H']; [lia|].
    rewrite norm_out_of_range in E by lia. discriminate.
Qed.

(** [getEdge] reads [END] only; its answer for an edge number that is at
    least [VPlusOne] survives appending to [END]. *)
Lemma getEdge_Ok e s p s' :
  getEdge e s = Ok p s' ->
  s' = s /\ Py.get (END s) (e - VPlusOne s) = Some (fst p) /\
  Py.get (END s) (e - VPlusOne s + 1) = Some (snd p).
Proof.
  unfold getEdge, bind, gets, index, ret.
  destruct (Py.get (END s) (e - VPlusOne s)) as [a|]; [|discriminate].
  destruct (Py.get (END s) (e - VPlusOne s + 1)) as [b|]; [|discriminate].
  intros [= <- <-]. auto.
Qed.

Lemma getEdge_intro e s a b :
  Py.get (END s) (e - VPlusOne s) = Some a ->
  Py.get (END s) (e - VPlusOne s + 1) = Some b ->
  getEdge e s = Ok (a, b) s.
Proof.
  intros Ha Hb. unfold getEdge, bind, gets, index, ret.
  rewrite Ha, Hb. reflexivity.
Qed.

(** X1.  [addEdge] and [getEdge] round trip, on any object: when
    [addEdge(v, w)] returns, [getEdge] of the number it gave the edge,
    [len(END) + VPlusOne] as they were before the call, returns [(v, w)];
    and every edge number not below [VPlusOne] that [getEdge] answered
    before the call gets the same answer after it. *)
Theorem addEdge_then_getEdge (v w : Z) (s s' : state) :
  addEdge v w s = Ok tt s' ->
  getEdge (Py.len (END s) + VPlusOne s) s' = Ok (v, w) s' /\
  (forall e p, VPlusOne s <= e -> getEdge e s = Ok p s ->
               getEdge e s' = Ok p s').
Proof.
  intros H. apply addEdge_Ok in H. destruct H as (g1 & g2 & _ & _ & ->).
  split.
  - apply getEdge_intro; simpl.
    + replace (Py.len (END s) + VPlusOne s - VPlusOne s)
        with (Py.len (END s) + 0) by lia.
      rewrite get_app_r by (unfold Py.len; simpl; lia). reflexivity.
    + replace (Py.len (END s) + VPlusOne s - VPlusOne s + 1)
        with (Py.len (END s) + 1) by lia.
      rewrite get_app_r by (unfold Py.len; simpl; lia). reflexivity.
  - intros e [a b] He Hg. apply getEdge_Ok in Hg. simpl in Hg.
    destruct Hg as (_ & Ha & Hb).
    apply getEdge_intro; simpl.
    + rewrite get_app_l; auto.
      pose proof (get_Some_range _ _ _ Ha). lia.
    + rewrite get_app_l; auto.
      pose proof (get_Some_range _ _ _ Hb). lia.
Qed.

Lemma addEdge_then_getEdge_witness :
  addEdge 1 2 (init 3) = Ok tt (state_of (addEdge 1 2 (init 3))) /\
  getEdge 4 (state_of (addEdge 1 2 (init 3))) =
  Ok (1, 2) (state_of (addEdge 1 2 (init 3))).
Proof.
  split; [reflexivity|].
  exact (proj1 (addEdge_then_getEdge 1 2 (init 3)
                  (state_of (addEdge 1 2 (init 3))) eq_refl)).
Defined.

(** ** Adjacency lists *)

(** The numbers, from [e0] on in steps of two, of the pairs of [es] that
    have [v] as an end; a pair [(v, v)] counts twice. *)
Fixpoint incident (e0 : Z) (es : list (Z * Z)) (v : Z) : list Z :=
  match es with
  | [] => []
  | p :: es' =>
      (if fst p =? v then [e0] else []) ++
      (if snd p =? v then [e0] else []) ++
      incident (e0 + 2) es' v
  end.

Lemma appended_inside g v e :
  0 <= v < Py.len g ->
  exists adj g',
    Py.get g v = Some adj /\ appended g v e = Some g' /\
    length g' = length g /\
    forall j, 0 <= j ->
      Py.get g' j = if j =? v then Some (adj ++ [e]) else Py.get g j.
Proof.
  intros Hv. unfold appended.
  destruct (Py.get g v) as [adj|] eqn:Eg.
  - destruct (Py.set g v (adj ++ [e])) as [g'|] eqn:Es.
    + exists adj, g'. repeat split; auto.
      * eapply set_length; eauto.
      * intros j Hj. destruct (Z.eqb_spec j v) as [->|Hne].
        -- eapply get_set_same; eauto.
        -- apply (get_set_other g g' v j (adj ++ [e])); [lia | lia | lia | exact Es].
    + unfold Py.set in Es. rewrite norm_inside in Es by exact Hv.
      discriminate.
  - rewrite get_inside in Eg by exact Hv.
    apply nth_error_None in Eg. unfold Py.len in Hv. lia.
Qed.

(** The fields [addEdge] does not write. *)
Definition search_fields (s : state) :=
  (V s, VPlusOne s, outerEdges s, outerVertices s, outerIdx s,
   LABEL s, MATE s, FIRST s).

Lemma addEdge_inside v w s :
  Py.len (graph s) = V s + 1 ->
  0 <= v <= V s -> 0 <= w <= V s ->
  exists s',
    addEdge v w s = Ok tt s' /\
    END s' = END s ++ [v; w] /\
    search_fields s' = search_fields s /\
    Py.len (graph s') = V s + 1 /\
    forall j, 0 <= j <= V s ->
      exists adj, Py.get (graph s) j = Some adj /\
        Py.get (graph s') j =
        Some (adj ++ incident (Py.len (END s) + VPlusOne s) [(v, w)] j).
Proof.
  intros Hlen Hv Hw.
  set (e := Py.len (END s) + VPlusOne s).
  destruct (appended_inside (graph s) v e) as (a1 & g1 & G1 & A1 & L1 & H1);
    [lia|].
  destruct (appended_inside g1 w e) as (a2 & g2 & G2 & A2 & L2 & H2).
  { unfold Py.len in *. rewrite L1. lia. }
  exists (with_graph (with_END s (END s ++ [v; w])) g2).
  split; [|split; [reflexivity|split; [reflexivity|split]]].
  - unfold addEdge, bind, gets, modify.
    rewrite graph_append_appended. simpl. fold e. rewrite A1.
    rewrite graph_append_appended. simpl. rewrite A2.
    unfold with_graph, with_END; simpl. rewrite <- app_assoc. reflexivity.
  - simpl. unfold Py.len in *. rewrite L2, L1. exact Hlen.
  - intros j Hj. simpl. fold e.
    rewrite H2 by lia. rewrite (H1 w) in G2 by lia. rewrite H1 by lia.
    rewrite (Z.eqb_sym j w), (Z.eqb_sym j v). rewrite Z.eqb_sym in G2.
    destruct (Z.eqb_spec v j) as [Hvj|Hvj];
      destruct (Z.eqb_spec w j) as [Hwj|Hwj]; subst; simpl.
    + rewrite Z.eqb_refl in G2. injection G2 as <-.
      exists a1. split; auto. rewrite <- app_assoc. reflexivity.
    + exists a1. split; auto.
    + replace (v =? j) with false in G2
        by (symmetry; apply Z.eqb_neq; exact Hvj).
      exists a2. split; auto.
    + destruct (Py.get (graph s) j) as [adj|] eqn:Ej.
      * exists adj. split; auto. rewrite app_nil_r. reflexivity.
      * rewrite get_inside in Ej by lia.
        apply nth_error_None in Ej. unfold Py.len in Hlen. lia.
Qed.

(** The two ids of each pair, in the order [addEdge] appends them. *)
Definition ends (es : list (Z * Z)) : list Z :=
  flat_map (fun p => [fst p; snd p]) es.

Lemma ends_length es : Py.len (ends es) = 2 * Py.len es.
Proof.
  assert (H : length (ends es) = (2 * length es)%nat).
  { unfold ends. induction es as [|p es IH]; simpl in *; lia. }
  unfold Py.len. rewrite H. lia.
Qed.

Lemma build_inside n es : forall s,
  Py.len (graph s) = V s + 1 ->
  Forall (fun p => 0 <= fst p <= V s /\ 0 <= snd p <= V s) es ->
  exists s',
    build n es s = Ok tt s' /\
    END s' = END s ++ ends es /\
    search_fields s' = search_fields s /\
    Py.len (graph s') = V s + 1 /\
    forall j, 0 <= j <= V s ->
      exists adj, Py.get (graph s) j = Some adj /\
        Py.get (graph s') j =
        Some (adj ++ incident (Py.len (END s) + VPlusOne s) es j).
Proof.
  unfold build.
  induction es as [|[v w] es IH]; intros s Hlen Hes.
  - exists s. simpl. rewrite app_nil_r. repeat split; auto.
    intros j Hj. destruct (Py.get (graph s) j) as [adj|] eqn:Ej.
    + exists adj. rewrite app_nil_r. auto.
    + rewrite get_inside in Ej by lia.
      apply nth_error_None in Ej. unfold Py.len in Hlen. lia.
  - inversion Hes as [|? ? [Hv Hw] Hes']; subst. simpl in Hv, Hw.
    destruct (addEdge_inside v w s Hlen Hv Hw)
      as (s1 & E1 & HE1 & HF1 & HL1 & HG1).
    assert (HV : V s1 = V s /\ VPlusOne s1 = VPlusOne s).
    { unfold search_fields in HF1. injection HF1 as -> ->. auto. }
    destruct HV as [HV HVP].
    destruct (IH s1) as (s2 & E2 & HE2 & HF2 & HL2 & HG2).
    { rewrite HV. exact HL1. }
    { rewrite HV. exact Hes'. }
    exists s2. simpl. unfold bind. rewrite E1.
    split; [exact E2|]. split; [|split; [congruence|split; [congruence|]]].
    + rewrite HE2, HE1. rewrite <- app_assoc. reflexivity.
    + intros j Hj.
      destruct (HG1 j Hj) as (adj & Ha & Ha1).
      destruct (HG2 j ltac:(lia)) as (adj1 & Hb & Hb1).
      exists adj. split; auto. rewrite Hb1. f_equal.
      rewrite Ha1 in Hb. injection Hb as <-.
      rewrite <- app_assoc. f_equal.
      simpl. rewrite app_nil_r. rewrite <- !app_assoc.
      rewrite HE1, HVP. unfold Py.len. rewrite length_app. simpl.
      replace (Z.of_nat (length (END s) + 2) + VPlusOne s)
        with (Z.of_nat (length (END s)) + VPlusOne s + 2) by lia.
      reflexivity.
Qed.

Lemma incident_In e0 es v e :
  In e (incident e0 es v) <->
  exists i p, nth_error es i = Some p /\ e = e0 + 2 * Z.of_nat i /\
              (fst p = v \/ snd p = v).
Proof.
  revert e0. induction es as [|p es IH]; intros e0; cbn [incident].
  - split; [intros []|]. intros (i & q & H & _). destruct i; discriminate.
  - rewrite !in_app_iff, IH. split.
    + intros [H|[H|(i & q & Hq & -> & Hv)]].
      * destruct (Z.eqb_spec (fst p) v); [|destruct H].
        destruct H as [<-|[]]. exists 0%nat, p. split; [reflexivity|].
        split; [lia | auto].
      * destruct (Z.eqb_spec (snd p) v); [|destruct H].
        destruct H as [<-|[]]. exists 0%nat, p. split; [reflexivity|].
        split; [lia | auto].
      * exists (S i), q. split; [exact Hq|]. split; [lia | auto].
    + intros ([|i] & q & Hq & -> & Hv); cbn [nth_error] in Hq.
      * injection Hq as ->.
        destruct Hv as [Hv|Hv].
        -- left. rewrite Hv, Z.eqb_refl. left. lia.
        -- right; left. rewrite Hv, Z.eqb_refl. left. lia.
      * right; right. exists i, q. split; auto. split; [lia | auto].
Qed.

Lemma ends_nth es i p :
  nth_error es i = Some p ->
  Py.get (ends es) (2 * Z.of_nat i) = Some (fst p) /\
  Py.get (ends es) (2 * Z.of_nat i + 1) = Some (snd p).
Proof.
  revert i. induction es as [|q es IH]; intros [|i] H; simpl in H;
    try discriminate.
  - injection H as ->.
    split; (rewrite get_inside; [reflexivity|]);
      rewrite ends_length; unfold Py.len; cbn [length]; lia.
  - destruct (IH i H) as [H1 H2].
    change (ends (q :: es)) with ([fst q; snd q] ++ ends es).
    replace (2 * Z.of_nat (S i)) with (Py.len [fst q; snd q] + 2 * Z.of_nat i)
      by (change (Py.len [fst q; snd q]) with 2; lia).
    assert (Hr : 0 <= 2 * Z.of_nat i + 1 < Py.len (ends es)).
    { pose proof (get_Some_range _ _ _ H2). lia. }
    split.
    + rewrite get_app_r by lia. exact H1.
    + rewrite <- Z.add_assoc. rewrite get_app_r by lia. exact H2.
Qed.

(** X2.  The object a caller builds with [MaxMatching(n)] and [addEdge]
    calls on vertices of [1..n]: every call returns; the [i]-th edge (from
    0) has the number [n + 1 + 2 i] and [getEdge] of that number returns its
    two ends as given; and the adjacency list of a vertex [v] holds an edge
    number exactly when [v] is an end of that edge. *)
Theorem build_adjacency (n : Z) (es : list (Z * Z)) :
  Forall (fun p => 1 <= fst p <= n /\ 1 <= snd p <= n) es ->
  exists s,
    build n es (init n) = Ok tt s /\
    (forall i p, nth_error es i = Some p ->
                 getEdge (n + 1 + 2 * Z.of_nat i) s = Ok p s) /\
    (forall v, 1 <= v <= n ->
       exists adj, Py.get (graph s) v = Some adj /\
         forall e, In e adj <->
           exists i p, nth_error es i = Some p /\
                       e = n + 1 + 2 * Z.of_nat i /\
                       (fst p = v \/ snd p = v)).
Proof.
  intros Hes.
  assert (Hcase : es = [] \/ 0 <= n).
  { destruct es as [|p es']; [left; reflexivity|right].
    inversion Hes as [|? ? [H _] _]; subst. lia. }
  destruct Hcase as [->|Hn].
  { exists (init n). split; [reflexivity|]. split.
    - intros [|i] p H; discriminate.
    - intros v Hv. exists []. split.
      + simpl. rewrite get_inside
          by (unfold Py.len; rewrite repeat_length; lia).
        apply nth_error_repeat. lia.
      + intros e. split; [intros []|].
        intros ([|i] & p & H & _); discriminate. }
  destruct (build_inside n es (init n)) as (s & E1 & HE & HF & HL & HG).
  { simpl. unfold Py.len. rewrite repeat_length. lia. }
  { eapply Forall_impl; [|exact Hes]. simpl. intros p [H1 H2]. lia. }
  simpl in HE, HG.
  assert (HVP : VPlusOne s = n + 1).
  { unfold search_fields in HF. injection HF as _ ->. reflexivity. }
  exists s. split; [exact E1|]. split.
  - intros i p Hp. destruct (ends_nth es i p Hp) as [H1 H2].
    destruct p as [a b]. apply getEdge_intro; rewrite HE, HVP.
    + replace (n + 1 + 2 * Z.of_nat i - (n + 1)) with (2 * Z.of_nat i) by lia.
      exact H1.
    + replace (n + 1 + 2 * Z.of_nat i - (n + 1) + 1)
        with (2 * Z.of_nat i + 1) by lia.
      exact H2.
  - intros v Hv. destruct (HG v ltac:(lia)) as (adj & Ha & Hs).
    assert (adj = []) as ->.
    { rewrite get_inside in Ha
        by (unfold Py.len; rewrite repeat_length; lia).
      apply nth_error_In, repeat_spec in Ha. exact Ha. }
    eexists. split; [exact Hs|]. simpl.
    intros e. rewrite incident_In.
    unfold Py.len. simpl.
    split; intros (i & p & H1 & H2 & H3); exists i, p; repeat split; auto; lia.
Qed.

Lemma build_adjacency_witness :
  exists s, build 3 triangle (init 3) = Ok tt s /\
            getEdge 6 s = Ok (2, 3) s.
Proof.
  assert (H : Forall (fun p => 1 <= fst p <= 3 /\ 1 <= snd p <= 3) triangle).
  { repeat constructor; simpl; lia. }
  destruct (build_adjacency 3 triangle H) as (s & Hb & Hg & _).
  exists s. split; [exact Hb|].
  exact (Hg 1%nat (2, 3) eq_refl).
Defined.

(** ** What each procedure leaves alone *)

(** A property of the object that no write to the listed fields disturbs
    is kept by the procedures that write only those fields, however they
    end. *)
(** [setLabel] writes [LABEL], the outer set and the queue. *)
Lemma setLabel_frame (I : state -> Prop) v label :
  (forall s i a l, I s -> Py.set (LABEL s) i a = Some l ->
                   I (with_LABEL s l)) ->
  (forall s l, I s -> I (with_outerVertices s l)) ->
  (forall s l, I s -> I (with_outerEdges s l)) ->
  preserves I (setLabel v label).
Proof.
  intros H1 H2 H3. unfold setLabel. preserve_tac.
  - apply triple_assign; eauto.
  - apply preserves_modify. auto.
  - apply preserves_modify. auto.
Qed.

Section Frames.

Variable I : state -> Prop.
Hypothesis I_LABEL : forall s i a l,
  I s -> Py.set (LABEL s) i a = Some l -> I (with_LABEL s l).
Hypothesis I_FIRST : forall s i a l,
  I s -> Py.set (FIRST s) i a = Some l -> I (with_FIRST s l).
Hypothesis I_MATE : forall s i a l,
  I s -> Py.set (MATE s) i a = Some l -> I (with_MATE s l).
Hypothesis I_outerIdx : forall s i, I s -> I (with_outerIdx s i).
Hypothesis I_setLabel : forall v label, preserves I (setLabel v label).
Hypothesis I_clear : forall s,
  I s -> I (with_outerEdges (with_outerVertices s []) []).

Lemma next_keeps r : preserves I (next r).
Proof. unfold next. preserve_tac. Qed.

Lemma isFlagged_keeps r n : preserves I (isFlagged r n).
Proof. unfold isFlagged. preserve_tac. Qed.

Lemma L_find_keeps fuel n : forall r s, preserves I (L_find fuel n r s).
Proof.
  induction fuel as [|k IH]; intros r s; simpl.
  - apply preserves_diverge.
  - destruct (if negb (s =? 0) then (s, r) else (r, s)) as [r1 s1].
    preserve_tac.
    + apply next_keeps.
    + apply isFlagged_keeps.
    + apply I_setLabel.
    + apply IH.
Qed.

Lemma L_label_keeps fuel n join : forall v, preserves I (L_label fuel n join v).
Proof.
  induction fuel as [|k IH]; intros v; simpl.
  - apply preserves_diverge.
  - preserve_tac.
    + apply I_setLabel.
    + apply triple_assign; eauto.
    + apply next_keeps.
    + apply IH.
Qed.

Lemma L_update_FIRST_keeps join : preserves I (L_update_FIRST join).
Proof.
  unfold L_update_FIRST. preserve_tac.
  apply preserves_for_each. intros i.
  unfold update_FIRST, isOuterVertex. preserve_tac.
  apply triple_assign; eauto.
Qed.

Lemma L_keeps fuel x y n : preserves I (L fuel x y n).
Proof.
  unfold L, L_blossom, setFlag. preserve_tac.
  - apply I_setLabel.
  - apply L_find_keeps.
  - apply L_label_keeps.
  - apply L_label_keeps.
  - apply L_update_FIRST_keeps.
Qed.

Lemma stopTheSearch_keeps : preserves I stopTheSearch.
Proof.
  unfold stopTheSearch.
  apply preserves_bind; [apply triple_assign; eauto|]. intros [].
  apply preserves_bind; [apply preserves_gets|]. intros vs.
  apply preserves_bind.
  { apply preserves_for_each. intros v. unfold reset_labels. preserve_tac.
    - apply I_setLabel.
    - apply I_setLabel. }
  intros [].
  intros s Hs. unfold bind, modify. simpl.
  apply I_outerIdx. apply (I_clear s Hs).
Qed.

Lemma chooseAnEdge_keeps : preserves I chooseAnEdge.
Proof.
  unfold chooseAnEdge. preserve_tac. apply preserves_modify. auto.
Qed.

Lemma R_keeps depth : forall v w, preserves I (R depth v w).
Proof.
  induction depth as [|d IH]; intros v w; simpl.
  - apply preserves_diverge.
  - preserve_tac;
      try apply hasVertexLabel_preserves;
      try apply getEdge_preserves;
      try apply IH;
      try (apply triple_assign; eauto).
Qed.

Lemma search_step_keeps fuel depth u : preserves I (search_step fuel depth u).
Proof.
  unfold search_step, isMatched, isOuterVertex. preserve_tac;
    try apply chooseAnEdge_keeps;
    try apply stopTheSearch_keeps;
    try apply getEdge_preserves;
    try apply R_keeps;
    try apply L_keeps;
    try apply I_setLabel;
    try (apply triple_assign; eauto).
Qed.

Lemma search_keeps fuel depth u k : preserves I (search fuel depth u k).
Proof.
  induction k as [|k IH]; simpl.
  - apply preserves_diverge.
  - preserve_tac; [apply search_step_keeps | exact IH].
Qed.

Lemma E_keeps fuel depth : preserves I (E fuel depth).
Proof.
  unfold E. preserve_tac. apply preserves_for_each. intros u.
  unfold E_body. preserve_tac.
  - apply I_setLabel.
  - apply triple_assign; eauto.
  - apply search_keeps.
Qed.

End Frames.

(** The side conditions of the lemmas above, for a property that does not
    mention the fields written. *)
Ltac frame_side :=
  lazymatch goal with
  | |- forall v label, preserves _ (setLabel v label) =>
      intros ? ?; apply setLabel_frame; frame_side
  | |- _ => cbv beta; intros; match goal with H : _ |- _ => exact H end
  end.

(** The graph and the size of the arrays. *)
Definition shape (s : state) :=
  (V s, VPlusOne s, END s, graph s,
   length (LABEL s), length (MATE s), length (FIRST s)).

Lemma E_keeps_shape fuel depth sh :
  preserves (fun s => shape s = sh) (E fuel depth).
Proof.
  assert (Hset : forall (l0 l : list Z) i a,
            Py.set l0 i a = Some l -> length l = length l0)
    by (intros; eapply set_length; eauto).
  apply E_keeps;
    try (intros v label; apply setLabel_frame);
    try (intros s i a l H Hs; unfold shape; simpl;
         rewrite (Hset _ _ _ _ Hs); exact H);
    try (intros s i H; exact H); try (intros s H; exact H).
Qed.

(** X3.  [E] never changes the graph nor the size of its arrays: however
    a call ends (normally or with an exception), [V], [VPlusOne], [END] and
    the adjacency lists are what they were before it, and [LABEL], [MATE]
    and [FIRST] have the length they had. *)
Theorem E_keeps_the_graph (fuel depth : nat) (s : state) :
  match E fuel depth s with
  | Ok _ s' | Raise _ s' =>
      V s' = V s /\ VPlusOne s' = VPlusOne s /\ END s' = END s /\
      graph s' = graph s /\
      length (LABEL s') = length (LABEL s) /\
      length (MATE s') = length (MATE s) /\
      length (FIRST s') = length (FIRST s)
  | OutOfFuel => True
  end.
Proof.
  pose proof (E_keeps_shape fuel depth (shape s) s eq_refl) as H.
  destruct (E fuel depth s) as [a s'|e s'|]; auto;
    unfold shape in H; injection H as -> -> -> -> -> -> ->;
    repeat split.
Qed.

(** X4.  [L] never changes the matching: however a call ends, [MATE], the
    graph ([V], [END], the adjacency lists) and the cursor [outerIdx] of
    the work queue are what they were before it; [L] writes labels,
    [FIRST] and the outer set only. *)
Theorem L_keeps_the_matching (fuel : nat) (x y n_xy : Z) (s : state) :
  match L fuel x y n_xy s with
  | Ok _ s' | Raise _ s' =>
      MATE s' = MATE s /\ outerIdx s' = outerIdx s /\ V s' = V s /\
      END s' = END s /\ graph s' = graph s
  | OutOfFuel => True
  end.
Proof.
  assert (H : preserves
    (fun s' => MATE s' = MATE s /\ outerIdx s' = outerIdx s /\ V s' = V s /\
               END s' = END s /\ graph s' = graph s)
    (L fuel x y n_xy)).
  { apply L_keeps; frame_side. }
  specialize (H s). cbv beta in H.
  destruct (L fuel x y n_xy s); apply H; repeat split.
Qed.

(** X5.  [stopTheSearch] resets labels and the outer set and nothing else:
    however it ends, [MATE], [FIRST] and the graph are what they were
    before it; in particular [FIRST] is not reset between searches. *)
Theorem stopTheSearch_keeps_MATE_and_FIRST (s : state) :
  match stopTheSearch s with
  | Ok _ s' | Raise _ s' =>
      MATE s' = MATE s /\ FIRST s' = FIRST s /\ V s' = V s /\
      END s' = END s /\ graph s' = graph s
  | OutOfFuel => True
  end.
Proof.
  assert (H : preserves
    (fun s' => MATE s' = MATE s /\ FIRST s' = FIRST s /\ V s' = V s /\
               END s' = END s /\ graph s' = graph s)
    stopTheSearch).
  { apply stopTheSearch_keeps; frame_side. }
  specialize (H s). cbv beta in H.
  destruct (stopTheSearch s); apply H; repeat split.
Qed.

(** ** The work queue *)

(** Calls of [chooseAnEdge] one after another, at most [k] of them, until
    one returns [None, None]; the pairs returned, in the order returned. *)
Fixpoint choose_all (k : nat) : M (list (Z * Z)) :=
  match k with
  | O => ret []
  | S k' =>
      c <- chooseAnEdge ;;
      match c with
      | None => ret []
      | Some p => ps <- choose_all k' ;; ret (p :: ps)
      end
  end.

Lemma with_outerIdx_same s : with_outerIdx s (outerIdx s) = s.
Proof. destruct s; reflexivity. Qed.

Lemma chooseAnEdge_next s p :
  0 <= outerIdx s ->
  nth_error (outerEdges s) (Z.to_nat (outerIdx s)) = Some p ->
  chooseAnEdge s = Ok (Some p) (with_outerIdx s (outerIdx s + 1)).
Proof.
  intros Hi Hp.
  assert (Hlt : outerIdx s < Py.len (outerEdges s)).
  { assert (Z.to_nat (outerIdx s) < length (outerEdges s))%nat
      by (apply nth_error_Some; congruence).
    unfold Py.len. lia. }
  unfold chooseAnEdge, bind, gets, index, modify, ret.
  replace (Py.len (outerEdges s) >? outerIdx s) with true
    by (symmetry; apply Z.gtb_lt; exact Hlt).
  rewrite get_inside by lia. rewrite Hp. reflexivity.
Qed.

Lemma chooseAnEdge_exhausted s :
  Py.len (outerEdges s) <= outerIdx s -> chooseAnEdge s = Ok None s.
Proof.
  intros Hi. unfold chooseAnEdge, bind, gets, ret.
  replace (Py.len (outerEdges s) >? outerIdx s) with false; auto.
  symmetry. rewrite Z.gtb_ltb. apply Z.ltb_ge. exact Hi.
Qed.

Lemma firstn_skipn_step {A} (l : list A) i k p :
  nth_error l i = Some p ->
  firstn (S k) (skipn i l) = p :: firstn k (skipn (S i) l).
Proof.
  revert i. induction l as [|h t IH]; intros [|i] H; simpl in H;
    try discriminate.
  - injection H as ->. reflexivity.
  - apply (IH i H).
Qed.

(** X6.  The work queue is first in, first out: with the cursor at
    position [i] of [outerEdges], [k] calls of [chooseAnEdge] return the
    next [k] pairs of [outerEdges] from position [i] on, in order and each
    once (fewer when the queue ends, the call after the last pair returning
    [None, None]), and leave the cursor behind the last pair returned;
    nothing else is changed and no call raises. *)
Theorem chooseAnEdge_in_queue_order (k : nat) (s : state) :
  0 <= outerIdx s <= Py.len (outerEdges s) ->
  choose_all k s =
  Ok (firstn k (skipn (Z.to_nat (outerIdx s)) (outerEdges s)))
     (with_outerIdx s (Z.min (outerIdx s + Z.of_nat k)
                             (Py.len (outerEdges s)))).
Proof.
  revert s. induction k as [|k IH]; intros s Hi.
  - simpl. unfold ret. rewrite Z.add_0_r, Z.min_l by lia.
    rewrite with_outerIdx_same. reflexivity.
  - cbn [choose_all]. unfold bind at 1.
    destruct (nth_error (outerEdges s) (Z.to_nat (outerIdx s)))
      as [p|] eqn:Ep.
    + assert (Hlt : outerIdx s < Py.len (outerEdges s)).
      { assert (Z.to_nat (outerIdx s) < length (outerEdges s))%nat
          by (apply nth_error_Some; congruence).
        unfold Py.len. lia. }
      rewrite (chooseAnEdge_next s p) by (tauto || exact Ep).
      unfold bind. rewrite IH by (simpl; lia). simpl outerIdx.
      simpl outerEdges. unfold ret. f_equal.
      * replace (Z.to_nat (outerIdx s + 1)) with (S (Z.to_nat (outerIdx s)))
          by lia.
        rewrite (firstn_skipn_step _ _ _ _ Ep). reflexivity.
      * replace (outerIdx s + 1 + Z.of_nat k)
          with (outerIdx s + Z.of_nat (S k)) by lia.
        destruct s; reflexivity.
    + apply nth_error_None in Ep.
      assert (He : outerIdx s = Py.len (outerEdges s))
        by (unfold Py.len in *; lia).
      rewrite chooseAnEdge_exhausted by lia. unfold ret.
      rewrite skipn_all2 by exact Ep. rewrite firstn_nil.
      rewrite Z.min_r by lia. rewrite <- He, with_outerIdx_same.
      reflexivity.
Qed.

Lemma chooseAnEdge_in_queue_order_witness :
  choose_all 2 (with_outerEdges (init 3) [(1, 4); (1, 6); (2, 4)]) =
  Ok [(1, 4); (1, 6)]
     (with_outerIdx (with_outerEdges (init 3) [(1, 4); (1, 6); (2, 4)]) 2).
Proof.
  apply (chooseAnEdge_in_queue_order 2
           (with_outerEdges (init 3) [(1, 4); (1, 6); (2, 4)])).
  vm_compute. split; discriminate.
Defined.

(** ** [getMatchingSize] *)

(** Whether [isMatched(v)] returns [True]. *)
Definition matched (s : state) (v : Z) : bool :=
  match isMatched v s with
  | Ok b _ => b
  | _ => false
  end.

Lemma matched_get s v m :
  Py.get (MATE s) v = Some m -> matched s v = (m >? 0).
Proof.
  intros H. unfold matched, isMatched, bind, index, ret. rewrite H.
  reflexivity.
Qed.

Lemma filter_ext_in_length {A} (f g : A -> bool) l :
  (forall x, In x l -> f x = g x) ->
  length (filter f l) = length (filter g l).
Proof.
  intros H. rewrite (filter_ext_in f g l H). reflexivity.
Qed.

(** The sum [getMatchingSize] computes over a list, against the count of
    its positive members by position. *)
Lemma sum_positive_count (pre ms : list Z) :
  fold_right Z.add 0 (map (fun x => if x >? 0 then 1 else 0) ms) =
  Z.of_nat (length (filter
    (fun i => match nth_error (pre ++ ms) i with
              | Some m => m >? 0
              | None => false
              end)
    (seq (length pre) (length ms)))).
Proof.
  revert pre. induction ms as [|m ms IH]; intros pre; [reflexivity|].
  cbn [map fold_right length seq filter].
  rewrite nth_error_app2 by lia. rewrite Nat.sub_diag. cbn [nth_error].
  specialize (IH (pre ++ [m])).
  rewrite <- app_assoc in IH. cbn [app] in IH.
  rewrite length_app in IH. cbn [length] in IH.
  rewrite Nat.add_1_r in IH.
  rewrite IH. destruct (m >? 0); cbn [length]; lia.
Qed.

Lemma sum_positive_bounds (ms : list Z) :
  0 <= fold_right Z.add 0 (map (fun x => if x >? 0 then 1 else 0) ms)
    <= Py.len ms.
Proof.
  unfold Py.len. induction ms as [|m ms IH]; cbn [map fold_right length].
  - lia.
  - destruct (m >? 0); lia.
Qed.

Lemma filter_map_length {A B} (f : B -> bool) (h : A -> B) l :
  length (filter f (map h l)) = length (filter (fun x => f (h x)) l).
Proof.
  induction l as [|x l IH]; simpl; auto.
  destruct (f (h x)); simpl; auto.
Qed.

Lemma getMatchingSize_count s :
  0 <= V s -> Py.len (MATE s) = V s + 1 ->
  getMatchingSize s =
    Z.of_nat (length (filter (matched s) (vertices (V s)))) /\
  0 <= getMatchingSize s <= V s.
Proof.
  intros HV0 Hlen. unfold getMatchingSize.
  destruct (MATE s) as [|m0 ms] eqn:Em.
  { unfold Py.len in Hlen. simpl in Hlen. lia. }
  cbn [tl].
  assert (HV : V s = Py.len ms).
  { unfold Py.len in *. cbn [length] in Hlen. lia. }
  split; [|rewrite HV; apply sum_positive_bounds].
  rewrite (sum_positive_count [m0] ms). f_equal.
  unfold vertices. rewrite HV. unfold Py.len. rewrite Nat2Z.id.
  rewrite filter_map_length. cbn [length app].
  apply filter_ext_in_length. intros i Hi. apply in_seq in Hi.
  assert (Hg : Py.get (MATE s) (Z.of_nat i) = nth_error (m0 :: ms) i).
  { rewrite Em. rewrite get_inside by (unfold Py.len; cbn [length]; lia).
    rewrite Nat2Z.id. reflexivity. }
  destruct (nth_error (m0 :: ms) i) as [m|] eqn:En.
  - symmetry. apply matched_get. exact Hg.
  - apply nth_error_None in En. cbn [length] in En. lia.
Qed.

(** X7.  [getMatchingSize] counts matched vertices, not matched edges: with
    [V >= 0] and [MATE] of length [V + 1] it returns the number of vertices
    [v] of [range(1, V + 1)] for which [isMatched(v)] is [True], a number
    between 0 and [V]. *)
Theorem getMatchingSize_counts_matched_vertices (s : state) :
  0 <= V s -> Py.len (MATE s) = V s + 1 ->
  getMatchingSize s =
    Z.of_nat (length (filter (matched s) (vertices (V s)))) /\
  0 <= getMatchingSize s <= V s.
Proof. apply getMatchingSize_count. Qed.

Lemma getMatchingSize_counts_matched_vertices_witness :
  getMatchingSize (with_MATE (init 3) [0; 2; 1; 0]) =
  Z.of_nat (length (filter (matched (with_MATE (init 3) [0; 2; 1; 0]))
                           (vertices 3))).
Proof.
  exact (proj1 (getMatchingSize_counts_matched_vertices
                  (with_MATE (init 3) [0; 2; 1; 0])
                  ltac:(simpl; lia) eq_refl)).
Defined.

(** ** Searches that do nothing *)

Lemma for_each_ext_in {A} (xs : list A) (f g : A -> M unit) :
  (forall x, In x xs -> forall s, f x s = g x s) ->
  forall s, for_each xs f s = for_each xs g s.
Proof.
  induction xs as [|x xs IH]; intros H s; simpl; [reflexivity|].
  unfold bind. rewrite (H x) by (left; reflexivity).
  destruct (g x s) as [[] s'|e s'|]; auto.
  apply IH. intros y Hy. apply H. right; exact Hy.
Qed.

Lemma for_each_app {A} (xs ys : list A) (body : A -> M unit) s :
  for_each (xs ++ ys) body s =
  (for_each xs body ;;; for_each ys body) s.
Proof.
  revert s. induction xs as [|x xs IH]; intros s; simpl.
  - reflexivity.
  - unfold bind at 1 2 3. destruct (body x s) as [[] s'|e s'|]; try reflexivity.
    apply IH.
Qed.

Lemma for_each_flat_map {A B} (xs : list A) (f : A -> list B)
      (body : B -> M unit) s :
  for_each (flat_map f xs) body s =
  for_each xs (fun x => for_each (f x) body) s.
Proof.
  revert s. induction xs as [|x xs IH]; intros s; simpl; [reflexivity|].
  rewrite for_each_app. unfold bind.
  destruct (for_each (f x) body s) as [[] s'|e s'|]; auto.
Qed.

Lemma for_each_fixed {A} (xs : list A) (body : A -> M unit) s :
  (forall x, In x xs -> body x s = Ok tt s) -> for_each xs body s = Ok tt s.
Proof.
  induction xs as [|x xs IH]; intros H; simpl; [reflexivity|].
  unfold bind. rewrite (H x) by (left; reflexivity).
  apply IH. intros y Hy. apply H. right; exact Hy.
Qed.

(** [E] passes over a matched vertex. *)
Lemma E_body_matched fuel depth u s m :
  Py.get (MATE s) u = Some m -> 0 < m -> E_body fuel depth u s = Ok tt s.
Proof.
  intros Hg Hm. unfold E_body, bind, index, ret. rewrite Hg.
  replace (m >? 0) with true by (symmetry; apply Z.gtb_lt; exact Hm).
  reflexivity.
Qed.

(** X8.  [E] on an object whose vertices [1..V] are all matched (every
    [MATE[u] > 0]) returns at once, without starting a search and without
    changing the object; so a second [E()] after one that matched every
    vertex changes nothing. *)
Theorem E_changes_nothing_when_all_matched (fuel depth : nat) (s : state) :
  Forall (fun u => exists m, Py.get (MATE s) u = Some m /\ 0 < m)
         (vertices (V s)) ->
  E fuel depth s = Ok tt s.
Proof.
  intros H. unfold E, bind, gets. apply for_each_fixed.
  intros u Hu. rewrite Forall_forall in H.
  destruct (H u Hu) as (m & Hg & Hm).
  eapply E_body_matched; eauto.
Qed.

Lemma E_changes_nothing_when_all_matched_witness :
  E 0 0 (with_MATE (init 2) [0; 2; 1]) = Ok tt (with_MATE (init 2) [0; 2; 1]).
Proof.
  apply (E_changes_nothing_when_all_matched 0 0
           (with_MATE (init 2) [0; 2; 1])).
  constructor; [exists 2; split; [reflexivity | lia]|].
  constructor; [exists 1; split; [reflexivity | lia]|].
  constructor.
Defined.

(** *** A graph without edges *)

Lemma upd_same {A} (l : list A) k a :
  nth_error l k = Some a -> Py.upd l k a = l.
Proof.
  revert k. induction l as [|h t IH]; intros [|k] H; simpl in *;
    try discriminate.
  - congruence.
  - rewrite IH; auto.
Qed.

Lemma set_same {A} (l : list A) i a :
  Py.get l i = Some a -> Py.set l i a = Some l.
Proof.
  unfold Py.get, Py.set. destruct (Py.norm l i) as [k|]; [|discriminate].
  intros H. rewrite upd_same; auto.
Qed.

Lemma get_repeat {A} (a : A) k i :
  0 <= i < Z.of_nat k -> Py.get (repeat a k) i = Some a.
Proof.
  intros Hi. rewrite get_inside by (unfold Py.len; rewrite repeat_length; lia).
  apply nth_error_repeat. lia.
Qed.

Lemma upd_overwrite {A} (l : list A) k a b :
  Py.upd (Py.upd l k b) k a = Py.upd l k a.
Proof.
  revert k. induction l as [|h t IH]; intros [|k]; simpl; auto.
  rewrite IH. reflexivity.
Qed.

(** A write and the write that undoes it. *)
Lemma set_back {A} (l l1 : list A) i a b :
  Py.get l i = Some a -> Py.set l i b = Some l1 -> Py.set l1 i a = Some l.
Proof.
  unfold Py.get, Py.set. destruct (Py.norm l i) as [k|] eqn:E; [|discriminate].
  intros Hg [= <-].
  assert (Py.norm (Py.upd l k b) i = Some k) as ->.
  { unfold Py.norm, Py.len in *. rewrite upd_length. exact E. }
  rewrite upd_overwrite. rewrite upd_same; auto.
Qed.

Lemma setLabel_lowers v label s l :
  label < 0 -> Py.set (LABEL s) v label = Some l ->
  setLabel v label s = Ok tt (with_LABEL s l).
Proof.
  intros Hl Hs. unfold setLabel, bind, assign, gets, ret. rewrite Hs.
  replace (label >=? 0) with false; [reflexivity|].
  symmetry. rewrite Z.geb_leb. apply Z.leb_gt. exact Hl.
Qed.

Lemma setLabel_registers v label s l adj :
  0 <= label -> Py.set (LABEL s) v label = Some l ->
  Py.mem v (outerVertices s) = false ->
  Py.get (graph s) v = Some adj ->
  setLabel v label s =
  Ok tt (with_outerEdges
           (with_outerVertices (with_LABEL s l) (outerVertices s ++ [v]))
           (outerEdges s ++ map (fun e => (v, e)) adj)).
Proof.
  intros Hl Hs Hm Hg. unfold setLabel, bind, assign, gets, modify, index.
  rewrite Hs. cbn [with_LABEL outerVertices]. rewrite Hm.
  replace (label >=? 0) with true
    by (symmetry; rewrite Z.geb_leb; apply Z.leb_le; exact Hl).
  cbn [andb negb with_outerVertices with_LABEL graph]. rewrite Hg.
  reflexivity.
Qed.

(** An object between searches on which no label, outer vertex or queued
    edge is left and [FIRST] is as created: [en], [g] and [m] are its
    [END], adjacency lists and [MATE]. *)
Definition rest_state (n : Z) (en : list Z) (g : list (list Z))
           (m : list Z) : state :=
  let k := Z.to_nat (n + 1) in
  mkState n (n + 1) en g [] [] 0 (repeat (-1) k) m (repeat 0 k).

Lemma init_rest_state n :
  init n = rest_state n [] (repeat [] (Z.to_nat (n + 1)))
                      (repeat 0 (Z.to_nat (n + 1))).
Proof. reflexivity. Qed.

Lemma inside_repeat n i : 0 <= i <= n -> 0 <= i < Z.of_nat (Z.to_nat (n + 1)).
Proof. lia. Qed.

Lemma set_inside {A} (l : list A) i a :
  0 <= i < Py.len l -> exists l', Py.set l i a = Some l'.
Proof. intros Hi. unfold Py.set. rewrite norm_inside; eauto. Qed.

(** The search of an unmatched vertex [u] without edges: [u] is labelled,
    the queue is found empty and [stopTheSearch] undoes the labelling. *)
Lemma E_body_quiet fuel depth n en g m u :
  1 <= u <= n ->
  Py.get m u = Some 0 -> Py.get g u = Some [] ->
  E_body (S fuel) depth u (rest_state n en g m) = Ok tt (rest_state n en g m).
Proof.
  intros Hu Hm Hg. unfold rest_state. cbv zeta.
  set (k := Z.to_nat (n + 1)).
  assert (Hk : forall i, 0 <= i <= n -> 0 <= i < Z.of_nat k)
    by (intros i Hi; unfold k; lia).
  destruct (set_inside (repeat (-1) k) u 0) as (l1 & Hl1).
  { unfold Py.len. rewrite repeat_length. apply Hk. lia. }
  assert (Hl10 : Py.get l1 0 = Some (-1)).
  { rewrite (get_set_other _ _ u 0 0 ltac:(lia) ltac:(lia) ltac:(lia) Hl1).
    apply get_repeat. apply Hk. lia. }
  assert (Hback : Py.set l1 u (-1) = Some (repeat (-1) k)).
  { eapply set_back; [|exact Hl1]. apply get_repeat. apply Hk. lia. }
  set (s := mkState n (n + 1) en g [] [] 0 (repeat (-1) k) m (repeat 0 k)).
  set (s1 := mkState n (n + 1) en g [] [u] 0 l1 m (repeat 0 k)).
  assert (E1 : index MATE u s = Ok 0 s).
  { unfold index. simpl. rewrite Hm. reflexivity. }
  assert (E2 : setLabel u 0 s = Ok tt s1).
  { apply (setLabel_registers u 0 s l1 []).
    - lia.
    - exact Hl1.
    - reflexivity.
    - exact Hg. }
  assert (E3 : assign FIRST with_FIRST u 0 s1 = Ok tt s1).
  { unfold assign. simpl.
    rewrite (set_same (repeat 0 k) u 0) by (apply get_repeat, Hk; lia).
    reflexivity. }
  assert (E4 : reset_labels u s1 = Ok tt (with_LABEL s1 (repeat (-1) k))).
  { unfold reset_labels.
    rewrite (bind_Ok_eq _ _ _ _ _
               (setLabel_lowers u (-1) s1 _ ltac:(lia) Hback)).
    unfold bind, index. simpl. rewrite Hm.
    rewrite (setLabel_lowers 0 (-1) _ (repeat (-1) k)); [reflexivity|lia|].
    simpl. apply set_same, get_repeat, Hk. lia. }
  assert (E5 : stopTheSearch s1 = Ok tt s).
  { unfold stopTheSearch.
    assert (Ea : assign LABEL with_LABEL 0 (-1) s1 = Ok tt s1).
    { unfold assign. simpl. rewrite (set_same l1 0 (-1) Hl10). reflexivity. }
    rewrite (bind_Ok_eq _ _ _ _ _ Ea).
    unfold bind at 1. unfold gets at 1.
    unfold s1 at 1. cbn [outerVertices for_each].
    rewrite (bind_Ok_eq _ _ _ tt (with_LABEL s1 (repeat (-1) k))).
    2:{ unfold bind. fold s1. rewrite E4. reflexivity. }
    reflexivity. }
  unfold E_body.
  rewrite (bind_Ok_eq _ _ _ _ _ E1). change (0 >? 0) with false. cbv iota.
  rewrite (bind_Ok_eq _ _ _ _ _ E2).
  rewrite (bind_Ok_eq _ _ _ _ _ E3).
  cbn [search].
  rewrite (bind_Ok_eq _ _ _ false s); [reflexivity|].
  unfold search_step.
  rewrite (bind_Ok_eq _ _ _ None s1)
    by (apply chooseAnEdge_exhausted; unfold s1, Py.len; simpl; lia).
  rewrite (bind_Ok_eq _ _ _ _ _ E5). reflexivity.
Qed.

Lemma E_no_edges fuel depth n : E (S fuel) depth (init n) = Ok tt (init n).
Proof.
  unfold E, bind, gets. apply for_each_fixed.
  intros u Hu. apply vertices_range in Hu. simpl in Hu.
  rewrite init_rest_state.
  apply E_body_quiet; [exact Hu | |];
    apply get_repeat, inside_repeat; lia.
Qed.

Lemma getMatchingSize_init n : getMatchingSize (init n) = 0.
Proof.
  unfold getMatchingSize, init. cbn [MATE].
  generalize (Z.to_nat (n + 1)). intros [|k]; [reflexivity|].
  cbn [repeat tl]. induction k as [|k IH]; [reflexivity|].
  cbn [repeat map fold_right]. rewrite IH. reflexivity.
Qed.

(** X9.  On a graph without edges [E] returns and leaves the object as
    [MaxMatching(n)] created it, for every [n]: each search labels its
    root, finds the queue empty and resets; no vertex is matched and
    [getMatchingSize()] is 0. *)
Theorem E_on_a_graph_without_edges (fuel depth : nat) (n : Z) :
  run (S fuel) depth n [] = Ok tt (init n) /\
  getMatchingSize (init n) = 0.
Proof.
  split; [|apply getMatchingSize_init].
  unfold run, build. cbn [for_each].
  unfold bind at 1. unfold ret at 1. apply E_no_edges.
Qed.

(** * What [E] does to the matching *)

(** [getEdge(e)] returns a pair with [x] as one of its two ends, [e] being
    an edge number [addEdge] can have given. *)
Definition edge_at (s : state) (e x : Z) : Prop :=
  exists a b,
    Py.get (END s) (e - VPlusOne s) = Some a /\
    Py.get (END s) (e - VPlusOne s + 1) = Some b /\
    (x = a \/ x = b) /\ VPlusOne s <= e.

(** What every state met in [E] satisfies when the graph was built on
    vertices of [1..n]; [s0] is the object at some earlier time. *)
Record K (n : Z) (s0 s : state) : Prop := mkK {
  K_V : V s = n;
  K_END : Forall (fun v => 1 <= v <= n) (END s);
  K_graph : forall v adj e,
    0 <= v -> Py.get (graph s) v = Some adj -> In e adj -> edge_at s e v;
  K_queue : forall x e,
    In (x, e) (outerEdges s) ->
    exists adj, Py.get (graph s) x = Some adj /\ In e adj;
  K_len : length (MATE s) = Z.to_nat (n + 1);
  K_MATE : Forall (fun m => 0 <= m <= n) (MATE s);
  K_MATE0 : forall m, Py.get (MATE s) 0 = Some m -> m = 0;
  K_kept : forall k m,
    0 <= k -> Py.get (MATE s0) k = Some m -> 0 < m ->
    exists m', Py.get (MATE s) k = Some m' /\ 0 < m'
}.

Section Matching.

Variable n : Z.
Variable s0 : state.

Lemma K_with_LABEL s l : K n s0 s -> K n s0 (with_LABEL s l).
Proof. intros [H1 H2 H3 H4 HL H5 H6 H7]. constructor; assumption. Qed.

Lemma K_with_FIRST s l : K n s0 s -> K n s0 (with_FIRST s l).
Proof. intros [H1 H2 H3 H4 HL H5 H6 H7]. constructor; assumption. Qed.

Lemma K_with_outerVertices s l : K n s0 s -> K n s0 (with_outerVertices s l).
Proof. intros [H1 H2 H3 H4 HL H5 H6 H7]. constructor; assumption. Qed.

Lemma K_with_outerIdx s i : K n s0 s -> K n s0 (with_outerIdx s i).
Proof. intros [H1 H2 H3 H4 HL H5 H6 H7]. constructor; assumption. Qed.

Lemma K_clear s :
  K n s0 s -> K n s0 (with_outerEdges (with_outerVertices s []) []).
Proof.
  intros [H1 H2 H3 H4 HL H5 H6 H7]. constructor; try assumption.
  intros x e [].
Qed.

(** [setLabel] queues edge numbers of the adjacency list of [v] with [v]. *)
Lemma setLabel_K v label : preserves (K n s0) (setLabel v label).
Proof.
  unfold setLabel.
  apply preserves_bind.
  { apply triple_assign; auto. intros s l H _. apply K_with_LABEL, H. }
  intros []. apply preserves_bind; [apply preserves_gets|]. intros outer.
  apply preserves_if; [|apply preserves_ret].
  apply preserves_bind.
  { apply preserves_modify. intros s. apply K_with_outerVertices. }
  intros [].
  eapply triple_bind with
    (Q1 := fun adj s => K n s0 s /\ Py.get (graph s) v = Some adj).
  { apply triple_index; auto. }
  intros adj. apply triple_modify.
  intros s [[H1 H2 H3 H4 HL H5 H6 H7] Hg]. constructor; try assumption.
  simpl. intros x e Hin. apply in_app_or in Hin.
  destruct Hin as [Hin|Hin]; [auto|].
  apply in_map_iff in Hin. destruct Hin as (e' & [= <- <-] & He).
  exists adj. auto.
Qed.

Lemma L_K fuel x y e : preserves (K n s0) (L fuel x y e).
Proof.
  apply L_keeps.
  - intros s i a l H _. apply K_with_FIRST, H.
  - apply setLabel_K.
Qed.

Lemma stopTheSearch_K : preserves (K n s0) stopTheSearch.
Proof.
  apply stopTheSearch_keeps.
  - intros s i a l H _. apply K_with_LABEL, H.
  - intros s i. apply K_with_outerIdx.
  - apply setLabel_K.
  - apply K_clear.
Qed.

(** A write of a vertex of [1..n] into a cell of [MATE] other than cell 0
    matches; it unmatches nothing. *)
Lemma assign_MATE_K i a :
  1 <= i -> 1 <= a <= n ->
  triple (K n s0) (assign MATE with_MATE i a) (fun _ => K n s0) any.
Proof.
  intros Hi Ha. apply triple_assign; [|intros; exact I].
  intros s l [H1 H2 H3 H4 HL H5 H6 H7] Hs. constructor; try assumption.
  - simpl. rewrite (set_length _ _ _ _ Hs). exact HL.
  - simpl. apply Forall_forall. intros x Hx.
    destruct (set_in _ _ _ _ _ Hs Hx) as [->|Hin]; [lia|].
    rewrite Forall_forall in H5. auto.
  - simpl. intros m Hm. apply H6.
    rewrite <- (get_set_other _ _ i 0 a ltac:(lia) ltac:(lia) ltac:(lia) Hs).
    exact Hm.
  - simpl. intros k m Hk Hg Hm.
    destruct (Z.eq_dec k i) as [->|Hne].
    + exists a. split; [eapply get_set_same; eauto | lia].
    + rewrite (get_set_other _ _ i k a ltac:(lia) Hk ltac:(lia) Hs).
      eauto.
Qed.

Lemma index_MATE_K i :
  triple (K n s0) (index MATE i) (fun a s => K n s0 s /\ 0 <= a <= n) any.
Proof.
  apply triple_index_fact. intros s a Hs Ha.
  pose proof (K_MATE _ _ _ Hs) as H. rewrite Forall_forall in H. auto.
Qed.

(** [v] has a vertex label. *)
Definition vertex_label (v : Z) (s : state) : Prop :=
  exists l, Py.get (LABEL s) v = Some l /\ 1 <= l <= n.

Lemma hasVertexLabel_K v :
  triple (K n s0) (hasVertexLabel v)
    (fun b s => K n s0 s /\ (b = true -> vertex_label v s)) any.
Proof.
  intros s Hs. unfold hasVertexLabel, bind, index, gets, ret.
  destruct (Py.get (LABEL s) v) as [l|] eqn:E; [|exact I].
  destruct (Z.geb_spec l 1) as [Hl|Hl]; simpl.
  - rewrite E. split; auto. intros Hb. exists l. split; auto.
    apply Z.leb_le in Hb. rewrite (K_V _ _ _ Hs) in Hb. lia.
  - split; auto. discriminate.
Qed.

Lemma index_LABEL_vertex_label v :
  triple (fun s => K n s0 s /\ vertex_label v s) (index LABEL v)
    (fun lv s => (K n s0 s /\ vertex_label v s) /\ 1 <= lv <= n) any.
Proof.
  apply triple_index; [|intros; exact I].
  intros s lv [Hs (l & Hl & Hr)] Hg. split; [split; auto; exists l; auto|].
  congruence.
Qed.

Lemma assign_MATE_vertex_label v i a :
  1 <= i -> 1 <= a <= n ->
  triple (fun s => K n s0 s /\ vertex_label v s)
         (assign MATE with_MATE i a)
         (fun _ s => K n s0 s /\ vertex_label v s) any.
Proof.
  intros Hi Ha s [Hs Hv].
  pose proof (assign_MATE_K i a Hi Ha s Hs) as H.
  unfold assign in *. destruct (Py.set (MATE s) i a); auto.
Qed.

Lemma getEdge_K e :
  triple (K n s0) (getEdge e)
    (fun xy s => K n s0 s /\ (1 <= fst xy <= n /\ 1 <= snd xy <= n)) any.
Proof.
  intros s Hs. destruct (getEdge e s) as [[a b] s'|x s'|] eqn:E;
    try exact I.
  apply getEdge_Ok in E. destruct E as (-> & Ha & Hb). simpl in *.
  pose proof (K_END _ _ _ Hs) as H. rewrite Forall_forall in H.
  split; auto. split; apply H; eapply get_in; eauto.
Qed.

Lemma triple_pure {A} (phi : Prop) (P : state -> Prop) (m : M A) Q X :
  (forall s, P s -> phi) -> (phi -> triple P m Q X) -> triple P m Q X.
Proof. intros H1 H2 s Hs. apply H2; eauto. Qed.

(** [R] on vertices of [1..n]. *)
Lemma R_K depth : forall v w,
  1 <= v <= n -> 1 <= w <= n ->
  triple (K n s0) (R depth v w) (fun _ => K n s0) any.
Proof.
  induction depth as [|d IH]; intros v w Hv Hw; simpl.
  - apply triple_diverge.
  - eapply triple_bind; [apply index_MATE_K|]. intros t.
    apply triple_ctx; intros Ht.
    eapply triple_bind; [apply assign_MATE_K; lia|]. intros [].
    eapply triple_bind with
      (Q1 := fun mt s => K n s0 s /\ Py.get (MATE s) t = Some mt).
    { apply triple_index; [auto | intros; exact I]. }
    intros mt. apply triple_if; intros Hmt.
    { apply triple_ret. tauto. }
    apply negb_false_iff, Z.eqb_eq in Hmt. subst mt.
    apply (triple_pure (1 <= t)).
    { intros s [Hs Hg]. destruct (Z.eq_dec t 0) as [->|]; [|lia].
      apply (K_MATE0 _ _ _ Hs) in Hg. lia. }
    intros Ht1.
    apply triple_pre with (P' := K n s0); [tauto|].
    eapply triple_bind; [apply hasVertexLabel_K|].
    intros [|].
    + apply triple_pre with (P' := fun s => K n s0 s /\ vertex_label v s);
        [intros s [Hs Hl]; auto|].
      eapply triple_bind; [apply index_LABEL_vertex_label|]. intros lv.
      apply triple_ctx; intros Hlv.
      eapply triple_bind; [apply assign_MATE_vertex_label; lia|]. intros [].
      eapply triple_bind; [apply index_LABEL_vertex_label|]. intros lv'.
      apply triple_ctx; intros Hlv'.
      apply triple_pre with (P' := K n s0); [tauto|].
      apply IH; lia.
    + apply triple_pre with (P' := K n s0); [tauto|].
      eapply triple_bind; [apply triple_keep, preserves_index|]. intros lv.
      eapply triple_bind; [apply getEdge_K|]. intros xy.
      apply triple_ctx; intros [Hx Hy].
      eapply triple_bind; [apply IH; auto|]. intros [].
      apply IH; auto.
Qed.


Lemma lxor_other_end x a b :
  x = a \/ x = b ->
  Z.lxor (Z.lxor x a) b = a \/ Z.lxor (Z.lxor x a) b = b.
Proof.
  intros [->| ->].
  - right. rewrite Z.lxor_nilpotent. apply Z.lxor_0_l.
  - left. rewrite (Z.lxor_comm b a), Z.lxor_assoc, Z.lxor_nilpotent.
    apply Z.lxor_0_r.
Qed.

(** The pair [chooseAnEdge] returns is a vertex with one of its edges. *)
Lemma chooseAnEdge_K :
  triple (fun s => J s /\ K n s0 s) chooseAnEdge
    (fun c s => K n s0 s /\
       match c with Some p => edge_at s (snd p) (fst p) | None => True end)
    any.
Proof.
  intros s [HJ HK]. unfold chooseAnEdge, bind, gets, index, modify, ret.
  destruct (Py.len (outerEdges s) >? outerIdx s); [|split; auto].
  destruct (Py.get (outerEdges s) (outerIdx s)) as [[x e]|] eqn:Eg;
    [|exact I].
  split; [apply K_with_outerIdx, HK|].
  apply get_in in Eg. simpl.
  assert (Hx : 0 <= x).
  { pose proof (J_outerE s HJ) as H. rewrite Forall_forall in H.
    apply (H (x, e) Eg). }
  destruct (K_queue _ _ _ HK x e Eg) as (adj & Hg & He).
  apply (K_graph _ _ _ HK x adj e Hx Hg He).
Qed.

Lemma getEdge_at e x :
  triple (fun s => K n s0 s /\ edge_at s e x) (getEdge e)
    (fun edge s => K n s0 s /\
       (1 <= x <= n /\
        1 <= Z.lxor (Z.lxor x (fst edge)) (snd edge) <= n)) any.
Proof.
  intros s [HK (a & b & Ha & Hb & Hx & _)].
  rewrite (getEdge_intro e s a b Ha Hb). split; auto. simpl.
  pose proof (K_END _ _ _ HK) as H. rewrite Forall_forall in H.
  assert (Ha' : 1 <= a <= n) by (apply H; eapply get_in; eauto).
  assert (Hb' : 1 <= b <= n) by (apply H; eapply get_in; eauto).
  split; [destruct Hx; subst; auto|].
  destruct (lxor_other_end x a b Hx) as [-> | ->]; auto.
Qed.

Lemma search_step_K fuel depth u :
  triple (fun s => J s /\ K n s0 s) (search_step fuel depth u)
         (fun _ => K n s0) any.
Proof.
  unfold search_step.
  eapply triple_bind; [apply chooseAnEdge_K|].
  intros [[x e]|]; simpl.
  - eapply triple_bind; [apply getEdge_at|]. intros edge.
    apply triple_ctx; intros [Hx Hy].
    set (y := Z.lxor (Z.lxor x (fst edge)) (snd edge)) in *.
    eapply triple_bind;
      [apply triple_keep; unfold isMatched; preserve_tac|].
    intros my. apply triple_if; intros _.
    + eapply triple_bind; [apply assign_MATE_K; lia|]. intros [].
      eapply triple_bind; [apply R_K; lia|]. intros [].
      eapply triple_bind; [apply triple_keep, stopTheSearch_K|]. intros [].
      apply triple_ret. auto.
    + eapply triple_bind;
        [apply triple_keep; unfold isOuterVertex; apply preserves_gets|].
      intros oy. apply triple_if; intros _.
      * eapply triple_bind; [apply triple_keep, L_K|]. intros [].
        apply triple_ret. auto.
      * eapply triple_bind; [apply triple_keep, preserves_index|].
        intros v.
        eapply triple_bind;
          [apply triple_keep; unfold isOuterVertex; apply preserves_gets|].
        intros ov.
        eapply triple_bind with (Q1 := fun _ => K n s0).
        { apply triple_if; intros _; [|apply triple_ret; auto].
          eapply triple_bind; [apply triple_keep, setLabel_K|]. intros [].
          apply triple_assign; [|intros; exact I].
          intros s l Hs _. apply K_with_FIRST, Hs. }
        intros []. apply triple_ret. auto.
  - apply triple_pre with (P' := K n s0); [tauto|].
    eapply triple_bind; [apply triple_keep, stopTheSearch_K|]. intros [].
    apply triple_ret. auto.
Qed.

Lemma search_K fuel depth u k :
  triple (fun s => J s /\ K n s0 s) (search fuel depth u k)
         (fun _ s => idle s /\ K n s0 s) any.
Proof.
  induction k as [|k IH]; simpl.
  - apply triple_diverge.
  - eapply triple_bind with
      (Q1 := fun (again : bool) s =>
               (if again then J s else idle s) /\ K n s0 s).
    { apply triple_conj.
      - apply triple_pre with (P' := J); [tauto|]. apply search_step_J.
      - apply search_step_K. }
    intros [|]; [exact IH | apply triple_ret; auto].
Qed.

Lemma E_body_K fuel depth u :
  0 <= u ->
  triple (fun s => idle s /\ K n s0 s) (E_body fuel depth u)
         (fun _ s => idle s /\ K n s0 s) any.
Proof.
  intros Hu. unfold E_body.
  eapply triple_bind; [apply triple_keep, preserves_index|]. intros m.
  apply triple_if; intros _; [apply triple_ret; auto|].
  apply triple_pre with (P' := fun s => J s /\ K n s0 s).
  { intros s [Hi Hk]. split; [apply idle_J, Hi | exact Hk]. }
  eapply triple_bind with (Q1 := fun _ s => J s /\ K n s0 s).
  { apply triple_conj.
    - apply triple_pre with (P' := J); [tauto|]. apply setLabel_J; auto.
    - apply triple_pre with (P' := K n s0); [tauto|].
      apply triple_keep, setLabel_K. }
  intros [].
  eapply triple_bind with (Q1 := fun _ s => J s /\ K n s0 s).
  { apply triple_conj.
    - apply triple_pre with (P' := J); [tauto|].
      apply assign_FIRST_J; lia.
    - apply triple_assign; [|intros; exact I].
      intros s l [_ Hs] _. apply K_with_FIRST, Hs. }
  intros []. apply search_K.
Qed.

Lemma E_K fuel depth :
  triple (fun s => idle s /\ K n s0 s) (E fuel depth)
         (fun _ s => idle s /\ K n s0 s) any.
Proof.
  unfold E. eapply triple_bind; [apply triple_keep, preserves_gets|].
  intros k. apply triple_for_each. intros u Hu.
  apply E_body_K. apply vertices_range in Hu. lia.
Qed.

End Matching.

Lemma K_init n : K n (init n) (init n).
Proof.
  constructor; simpl.
  - reflexivity.
  - constructor.
  - intros v adj e _ Hg He. apply get_in, repeat_spec in Hg. subst adj.
    destruct He.
  - intros x e [].
  - apply repeat_length.
  - apply Forall_forall. intros x Hx.
    assert (Hk : Z.to_nat (n + 1) <> 0%nat)
      by (destruct (Z.to_nat (n + 1)); [destruct Hx | discriminate]).
    apply repeat_spec in Hx. lia.
  - intros m Hg. apply get_in, repeat_spec in Hg. exact Hg.
  - intros k m _ Hg Hm. apply get_in, repeat_spec in Hg. lia.
Qed.

(** Taking the present object as the one to compare with. *)
Lemma K_restart n s1 s : K n s1 s -> K n s s.
Proof.
  intros [H1 H2 H3 H4 HL H5 H6 H7]. constructor; try assumption.
  intros k m _ Hg Hm. eauto.
Qed.

Lemma edge_at_app s e x l :
  edge_at s e x -> edge_at (with_END s (END s ++ l)) e x.
Proof.
  intros (a & b & Ha & Hb & Hx & He). exists a, b. simpl.
  pose proof (get_Some_range _ _ _ Ha).
  pose proof (get_Some_range _ _ _ Hb).
  rewrite !get_app_l by lia. auto.
Qed.

Lemma edge_at_new s v w x :
  x = v \/ x = w ->
  edge_at (with_END s (END s ++ [v; w])) (Py.len (END s) + VPlusOne s) x.
Proof.
  intros Hx. exists v, w. simpl.
  replace (Py.len (END s) + VPlusOne s - VPlusOne s)
    with (Py.len (END s) + 0) by lia.
  rewrite <- Z.add_assoc.
  rewrite !get_app_r by (unfold Py.len; simpl; lia).
  repeat split; auto. unfold Py.len. lia.
Qed.

Lemma appended_get g v e g' j adj' :
  appended g v e = Some g' -> 0 <= v -> 0 <= j ->
  Py.get g' j = Some adj' ->
  (j = v /\ exists adj, Py.get g v = Some adj /\ adj' = adj ++ [e]) \/
  (j <> v /\ Py.get g j = Some adj').
Proof.
  unfold appended. destruct (Py.get g v) as [adj|] eqn:Eg; [|discriminate].
  intros Hs Hv Hj Hg.
  destruct (Z.eq_dec j v) as [->|Hne].
  - left. split; auto. exists adj. split; auto.
    rewrite (get_set_same _ _ _ _ Hs) in Hg. congruence.
  - right. split; auto.
    rewrite <- (get_set_other g g' v j (adj ++ [e])); auto.
Qed.

Lemma graph_ok_appended (P : Z -> Z -> Prop) g v e0 g' :
  (forall j adj e, 0 <= j -> Py.get g j = Some adj -> In e adj -> P e j) ->
  P e0 v -> appended g v e0 = Some g' -> 0 <= v ->
  forall j adj e, 0 <= j -> Py.get g' j = Some adj -> In e adj -> P e j.
Proof.
  intros Hold Hnew Ha Hv j adj e Hj Hg He.
  destruct (appended_get _ _ _ _ _ _ Ha Hv Hj Hg)
    as [(-> & adj0 & Hg0 & ->)|(_ & Hg0)].
  - apply in_app_or in He. destruct He as [He|[<-|[]]]; eauto.
  - eauto.
Qed.

(** The vertex ids a caller passes are in [1..n]. *)
Definition op_in_range (n : Z) (o : op) : Prop :=
  match o with
  | OpAddEdge v w => 1 <= v <= n /\ 1 <= w <= n
  | OpE => True
  end.

Lemma addEdge_K n s0 v w :
  1 <= v <= n -> 1 <= w <= n ->
  triple (fun s => idle s /\ K n s0 s) (addEdge v w)
         (fun _ s => K n s0 s) any.
Proof.
  intros Hv Hw s [Hi [H1 H2 H3 H4 HL H5 H6 H7]].
  destruct (addEdge v w s) as [[] s'|e s'|] eqn:E; try exact I.
  apply addEdge_Ok in E. destruct E as (g1 & g2 & A1 & A2 & ->).
  constructor; simpl; try assumption.
  - apply Forall_app. split; auto.
  - set (e0 := Py.len (END s) + VPlusOne s) in *.
    apply (graph_ok_appended
             (edge_at (with_END s (END s ++ [v; w]))) g1 w e0 g2);
      [|apply edge_at_new; auto|exact A2|lia].
    apply (graph_ok_appended
             (edge_at (with_END s (END s ++ [v; w]))) (graph s) v e0 g1);
      [|apply edge_at_new; auto|exact A1|lia].
    intros j adj e Hj Hg He. apply edge_at_app. eauto.
  - rewrite (idle_outerE s Hi). intros x e [].
Qed.

Lemma session_K fuel depth n ops s :
  Forall (op_in_range n) ops ->
  session fuel depth n ops = Ok tt s ->
  idle s /\ K n (init n) s.
Proof.
  intros Hops Hrun.
  assert (H : triple (fun s => idle s /\ K n (init n) s)
                     (for_each ops (do_op fuel depth))
                     (fun _ s => idle s /\ K n (init n) s) any).
  { apply triple_for_each. intros o Ho.
    rewrite Forall_forall in Hops. specialize (Hops o Ho).
    destruct o as [v w|]; simpl in *.
    - apply triple_conj.
      + apply triple_pre with (P' := idle); [tauto|].
        apply addEdge_idle; lia.
      + apply addEdge_K; tauto.
    - apply E_K. }
  specialize (H (init n) (conj (init_idle n) (K_init n))).
  unfold session in Hrun. rewrite Hrun in H. exact H.
Qed.

Lemma filter_length_le {A} (f g : A -> bool) l :
  (forall x, In x l -> f x = true -> g x = true) ->
  (length (filter f l) <= length (filter g l))%nat.
Proof.
  induction l as [|x l IH]; intros H; simpl; [lia|].
  assert (IH' := IH (fun y Hy => H y (or_intror Hy))).
  destruct (f x) eqn:Ef.
  - rewrite (H x (or_introl eq_refl) Ef). simpl. lia.
  - destruct (g x); simpl; lia.
Qed.

Lemma matched_kept n s s' v :
  K n s s' -> 0 <= v -> matched s v = true -> matched s' v = true.
Proof.
  intros HK Hv Hm. unfold matched, isMatched, bind, index, ret in *.
  destruct (Py.get (MATE s) v) as [m|] eqn:Eg; [|discriminate].
  apply Z.gtb_lt in Hm.
  destruct (K_kept _ _ _ HK v m Hv Eg Hm) as (m' & -> & Hm').
  apply Z.gtb_lt. exact Hm'.
Qed.

(** X10.  [E] never unmatches a vertex.  On an object built by
    [MaxMatching(n)] and any sequence of [addEdge] calls on vertices of
    [1..n] and of [E] calls, a further [E()] that returns leaves matched
    every vertex that was matched, so [getMatchingSize()] does not go down,
    and every cell of [MATE] holds 0 or a vertex of [1..n]. *)
Theorem E_never_unmatches
        (fuel depth fuel' depth' : nat) (n : Z) (ops : list op)
        (s s' : state) :
  Forall (op_in_range n) ops ->
  session fuel depth n ops = Ok tt s ->
  E fuel' depth' s = Ok tt s' ->
  (forall v, 1 <= v <= n -> matched s v = true -> matched s' v = true) /\
  getMatchingSize s <= getMatchingSize s' /\
  Forall (fun m => 0 <= m <= n) (MATE s').
Proof.
  intros Hops Hrun HE.
  destruct (session_K _ _ _ _ _ Hops Hrun) as [Hi HK0].
  pose proof (K_restart _ _ _ HK0) as HK.
  pose proof (E_K n s fuel' depth' s (conj Hi HK)) as H.
  rewrite HE in H. destruct H as [_ HK'].
  assert (Hm : forall v, 1 <= v <= n ->
                         matched s v = true -> matched s' v = true).
  { intros v Hv. apply (matched_kept n); [exact HK' | lia]. }
  split; [exact Hm|]. split; [|exact (K_MATE _ _ _ HK')].
  destruct (Z_lt_ge_dec n 0) as [Hn|Hn].
  - pose proof (K_len _ _ _ HK) as L1. pose proof (K_len _ _ _ HK') as L2.
    replace (Z.to_nat (n + 1)) with 0%nat in * by lia.
    unfold getMatchingSize.
    destruct (MATE s); [|discriminate]. destruct (MATE s'); [|discriminate].
    simpl. lia.
  - destruct (getMatchingSize_count s) as [-> _].
    { rewrite (K_V _ _ _ HK). lia. }
    { unfold Py.len. rewrite (K_len _ _ _ HK), (K_V _ _ _ HK). lia. }
    destruct (getMatchingSize_count s') as [-> _].
    { rewrite (K_V _ _ _ HK'). lia. }
    { unfold Py.len. rewrite (K_len _ _ _ HK'), (K_V _ _ _ HK'). lia. }
    rewrite (K_V _ _ _ HK), (K_V _ _ _ HK').
    apply inj_le. apply filter_length_le.
    intros v Hv. apply vertices_range in Hv. apply Hm. exact Hv.
Qed.

(** A path on four vertices of which the first edge was matched before
    the other two were added. *)
Definition path_ops : list op :=
  [OpAddEdge 1 2; OpE; OpAddEdge 2 3; OpAddEdge 3 4].

Definition path_before : state := state_of (session 16 16 4 path_ops).

Definition path_after : state := state_of (E 16 16 path_before).

Lemma E_never_unmatches_witness :
  Forall (op_in_range 4) path_ops /\
  session 16 16 4 path_ops = Ok tt path_before /\
  E 16 16 path_before = Ok tt path_after /\
  getMatchingSize path_before = 2 /\ getMatchingSize path_after = 4 /\
  getMatchingSize path_before <= getMatchingSize path_after.
Proof.
  assert (H1 : Forall (op_in_range 4) path_ops).
  { repeat constructor; simpl; lia. }
  assert (H2 : session 16 16 4 path_ops = Ok tt path_before).
  { vm_compute. reflexivity. }
  assert (H3 : E 16 16 path_before = Ok tt path_after).
  { vm_compute. reflexivity. }
  split; [exact H1|]. split; [exact H2|]. split; [exact H3|].
  split; [vm_compute; reflexivity|]. split; [vm_compute; reflexivity|].
  exact (proj1 (proj2 (E_never_unmatches 16 16 16 16 4 path_ops
                         path_before path_after H1 H2 H3))).
Defined.

(** ** The first edge found *)

(** The search of an unmatched vertex [u] whose first edge leads to an
    unmatched vertex [y]: step E3 matches the two with one another, [R]
    returns at once, and [stopTheSearch] resets the labels. *)
Lemma E_body_first_edge fuel depth n en g m u e rest a b y m1 m2 :
  1 <= u <= n -> 1 <= y <= n -> u <> y ->
  Py.get m u = Some 0 -> Py.get m y = Some 0 -> Py.get m 0 = Some 0 ->
  Py.get g u = Some (e :: rest) ->
  Py.get en (e - (n + 1)) = Some a ->
  Py.get en (e - (n + 1) + 1) = Some b ->
  Z.lxor (Z.lxor u a) b = y ->
  Py.set m y u = Some m1 -> Py.set m1 u y = Some m2 ->
  E_body (S fuel) (S depth) u (rest_state n en g m) =
  Ok tt (rest_state n en g m2).
Proof.
  intros Hu Hy Huy Hmu Hmy Hm0 Hg Ha Hb Hxor Hm1 Hm2.
  unfold rest_state. cbv zeta.
  set (k := Z.to_nat (n + 1)).
  assert (Hk : forall i, 0 <= i <= n -> 0 <= i < Z.of_nat k)
    by (intros i Hi; unfold k; lia).
  destruct (set_inside (repeat (-1) k) u 0) as (l1 & Hl1).
  { unfold Py.len. rewrite repeat_length. apply Hk. lia. }
  assert (Hl10 : Py.get l1 0 = Some (-1)).
  { rewrite (get_set_other _ _ u 0 0 ltac:(lia) ltac:(lia) ltac:(lia) Hl1).
    apply get_repeat. apply Hk. lia. }
  assert (Hback : Py.set l1 u (-1) = Some (repeat (-1) k)).
  { eapply set_back; [|exact Hl1]. apply get_repeat. apply Hk. lia. }
  assert (Hm1u : Py.get m1 u = Some 0).
  { rewrite (get_set_other _ _ y u u ltac:(lia) ltac:(lia) ltac:(lia) Hm1).
    exact Hmu. }
  assert (Hm20 : Py.get m2 0 = Some 0).
  { rewrite (get_set_other _ _ u 0 y ltac:(lia) ltac:(lia) ltac:(lia) Hm2).
    rewrite (get_set_other _ _ y 0 u ltac:(lia) ltac:(lia) ltac:(lia) Hm1).
    exact Hm0. }
  assert (Hm2u : Py.get m2 u = Some y) by (eapply get_set_same; eauto).
  set (q := (u, e) :: map (fun e' => (u, e')) rest).
  set (s := mkState n (n + 1) en g [] [] 0 (repeat (-1) k) m (repeat 0 k)).
  set (s1 := mkState n (n + 1) en g q [u] 0 l1 m (repeat 0 k)).
  set (s2 := mkState n (n + 1) en g q [u] 1 l1 m (repeat 0 k)).
  set (s3 := mkState n (n + 1) en g q [u] 1 l1 m1 (repeat 0 k)).
  set (s4 := mkState n (n + 1) en g q [u] 1 l1 m2 (repeat 0 k)).
  set (s5 := mkState n (n + 1) en g [] [] 0 (repeat (-1) k) m2 (repeat 0 k)).
  assert (E1 : index MATE u s = Ok 0 s).
  { unfold index. simpl. rewrite Hmu. reflexivity. }
  assert (E2 : setLabel u 0 s = Ok tt s1).
  { apply (setLabel_registers u 0 s l1 (e :: rest)).
    - lia.
    - exact Hl1.
    - reflexivity.
    - exact Hg. }
  assert (E3 : assign FIRST with_FIRST u 0 s1 = Ok tt s1).
  { unfold assign. simpl.
    rewrite (set_same (repeat 0 k) u 0) by (apply get_repeat, Hk; lia).
    reflexivity. }
  assert (E4 : chooseAnEdge s1 = Ok (Some (u, e)) s2).
  { apply (chooseAnEdge_next s1 (u, e)); [simpl; lia | reflexivity]. }
  assert (E5 : getEdge e s2 = Ok (a, b) s2).
  { apply getEdge_intro; assumption. }
  assert (E6 : isMatched y s2 = Ok false s2).
  { unfold isMatched, bind, index, ret. simpl. rewrite Hmy. reflexivity. }
  assert (E7 : assign MATE with_MATE y u s2 = Ok tt s3).
  { unfold assign. simpl. rewrite Hm1. reflexivity. }
  assert (E8 : R (S depth) u y s3 = Ok tt s4).
  { cbn [R].
    assert (Ra : index MATE u s3 = Ok 0 s3).
    { unfold index. simpl. rewrite Hm1u. reflexivity. }
    rewrite (bind_Ok_eq _ _ _ _ _ Ra).
    assert (Rb : assign MATE with_MATE u y s3 = Ok tt s4).
    { unfold assign. simpl. rewrite Hm2. reflexivity. }
    rewrite (bind_Ok_eq _ _ _ _ _ Rb).
    assert (Rc : index MATE 0 s4 = Ok 0 s4).
    { unfold index. simpl. rewrite Hm20. reflexivity. }
    rewrite (bind_Ok_eq _ _ _ _ _ Rc).
    replace (0 =? u) with false by (symmetry; apply Z.eqb_neq; lia).
    reflexivity. }
  assert (E9 : reset_labels u s4 = Ok tt (with_LABEL s4 (repeat (-1) k))).
  { unfold reset_labels.
    rewrite (bind_Ok_eq _ _ _ _ _
               (setLabel_lowers u (-1) s4 _ ltac:(lia) Hback)).
    unfold bind, index. simpl. rewrite Hm2u.
    rewrite (setLabel_lowers y (-1) _ (repeat (-1) k)); [reflexivity|lia|].
    simpl. apply set_same, get_repeat, Hk. lia. }
  assert (E10 : stopTheSearch s4 = Ok tt s5).
  { unfold stopTheSearch.
    assert (Ea : assign LABEL with_LABEL 0 (-1) s4 = Ok tt s4).
    { unfold assign. simpl. rewrite (set_same l1 0 (-1) Hl10). reflexivity. }
    rewrite (bind_Ok_eq _ _ _ _ _ Ea).
    unfold bind at 1. unfold gets at 1.
    unfold s4 at 1. cbn [outerVertices for_each].
    rewrite (bind_Ok_eq _ _ _ tt (with_LABEL s4 (repeat (-1) k))).
    2:{ unfold bind. fold s4. rewrite E9. reflexivity. }
    reflexivity. }
  unfold E_body.
  rewrite (bind_Ok_eq _ _ _ _ _ E1). change (0 >? 0) with false. cbv iota.
  rewrite (bind_Ok_eq _ _ _ _ _ E2).
  rewrite (bind_Ok_eq _ _ _ _ _ E3).
  cbn [search].
  rewrite (bind_Ok_eq _ _ _ false s5); [reflexivity|].
  unfold search_step.
  rewrite (bind_Ok_eq _ _ _ _ _ E4). cbv beta iota.
  rewrite (bind_Ok_eq _ _ _ _ _ E5). cbn [fst snd]. rewrite Hxor.
  rewrite (bind_Ok_eq _ _ _ _ _ E6).
  replace (y =? u) with false by (symmetry; apply Z.eqb_neq; lia).
  cbn [negb andb].
  rewrite (bind_Ok_eq _ _ _ _ _ E7).
  rewrite (bind_Ok_eq _ _ _ _ _ E8).
  rewrite (bind_Ok_eq _ _ _ _ _ E10). reflexivity.
Qed.

Lemma for_each_map {A B} (h : A -> B) (xs : list A) (body : B -> M unit) s :
  for_each (map h xs) body s = for_each xs (fun x => body (h x)) s.
Proof.
  revert s. induction xs as [|x xs IH]; intros s; simpl; [reflexivity|].
  unfold bind. destruct (body (h x) s) as [[] s'|e s'|]; auto.
Qed.

(** The object [build] leaves is the one a session of [addEdge] calls
    leaves. *)
Lemma build_K n es s :
  Forall (fun p => 1 <= fst p <= n /\ 1 <= snd p <= n) es ->
  build n es (init n) = Ok tt s ->
  idle s /\ K n (init n) s.
Proof.
  intros Hes Hb.
  apply (session_K 0 0 n (map (fun p => OpAddEdge (fst p) (snd p)) es)).
  - apply Forall_map. exact Hes.
  - unfold session. rewrite for_each_map. exact Hb.
Qed.

Lemma search_fields_rest n s :
  search_fields s = search_fields (init n) ->
  s = rest_state n (END s) (graph s) (repeat 0 (Z.to_nat (n + 1))).
Proof.
  destruct s. unfold search_fields. simpl.
  intros [= -> -> -> -> -> -> -> ->]. reflexivity.
Qed.

Lemma two_members_length {A} (l : list A) x y :
  In x l -> In y l -> x <> y -> (2 <= length l)%nat.
Proof.
  destruct l as [|a [|b t]]; simpl; intros Hx Hy Hne; try lia.
  exfalso. destruct Hx as [Hx|[]]. destruct Hy as [Hy|[]]. congruence.
Qed.

Lemma vertices_In n u : 1 <= u <= n -> In u (vertices n).
Proof.
  intros Hu. unfold vertices. apply in_map_iff.
  exists (Z.to_nat u). split; [lia|]. apply in_seq. lia.
Qed.

Section FirstEdge.

Variables (n : Z) (es : list (Z * Z)) (sb : state) (fuel depth : nat).

Hypothesis es_ok :
  Forall (fun p => (1 <= fst p <= n /\ 1 <= snd p <= n) /\ fst p <> snd p) es.
Hypothesis sb_fields : search_fields sb = search_fields (init n).
Hypothesis sb_END : END sb = ends es.
Hypothesis sb_graph : forall j, 0 <= j <= n ->
  Py.get (graph sb) j = Some (incident (n + 1) es j).
Hypothesis sb_K : idle sb /\ K n (init n) sb.

(** The search of one vertex on the object as built: nothing happens at
    a vertex without edges, and a vertex with an edge is matched with the
    other end of its first edge. *)
Lemma E_body_built u :
  1 <= u <= n ->
  (incident (n + 1) es u = [] /\
   E_body (S fuel) (S depth) u sb = Ok tt sb) \/
  (exists s1 y,
     E_body (S fuel) (S depth) u sb = Ok tt s1 /\
     1 <= y <= n /\ u <> y /\
     matched s1 u = true /\ matched s1 y = true /\
     idle s1 /\ K n s1 s1).
Proof.
  intros Hu.
  set (k := Z.to_nat (n + 1)).
  assert (Hk : forall i, 0 <= i <= n -> 0 <= i < Z.of_nat k)
    by (intros i Hi; unfold k; lia).
  pose proof (search_fields_rest n sb sb_fields) as Hsb. fold k in Hsb.
  pose proof (sb_graph u ltac:(lia)) as Hg.
  destruct (incident (n + 1) es u) as [|e rest] eqn:Einc.
  - left. split; [reflexivity|].
    assert (HE : E_body (S fuel) (S depth) u
                   (rest_state n (END sb) (graph sb) (repeat 0 k)) =
                 Ok tt (rest_state n (END sb) (graph sb) (repeat 0 k))).
    { apply E_body_quiet; auto. apply get_repeat, Hk. lia. }
    rewrite <- Hsb in HE. exact HE.
  - right.
    assert (Hin : In e (incident (n + 1) es u))
      by (rewrite Einc; left; reflexivity).
    apply incident_In in Hin. destruct Hin as (i & [a b] & Hp & -> & Hend).
    simpl in Hend.
    destruct (ends_nth es i (a, b) Hp) as [Ha Hb]. cbn [fst snd] in Ha, Hb.
    assert (Hab : (1 <= a <= n /\ 1 <= b <= n) /\ a <> b).
    { rewrite Forall_forall in es_ok.
      apply (es_ok (a, b)). eapply nth_error_In; eauto. }
    destruct Hab as [[Ha' Hb'] Hne].
    set (y := Z.lxor (Z.lxor u a) b).
    assert (Hy : 1 <= y <= n /\ u <> y).
    { unfold y. destruct Hend as [Hend|Hend]; rewrite <- Hend.
      - rewrite Z.lxor_nilpotent, Z.lxor_0_l. split; [lia | congruence].
      - rewrite (Z.lxor_comm b a), Z.lxor_assoc, Z.lxor_nilpotent,
          Z.lxor_0_r. split; [lia | congruence]. }
    destruct Hy as [Hy Huy].
    destruct (set_inside (repeat 0 k) y u) as (m1 & Hm1).
    { unfold Py.len. rewrite repeat_length. apply Hk. lia. }
    destruct (set_inside m1 u y) as (m2 & Hm2).
    { unfold Py.len. rewrite (set_length _ _ _ _ Hm1), repeat_length.
      apply Hk. lia. }
    exists (rest_state n (END sb) (graph sb) m2), y.
    assert (HE : E_body (S fuel) (S depth) u
                   (rest_state n (END sb) (graph sb) (repeat 0 k)) =
                 Ok tt (rest_state n (END sb) (graph sb) m2)).
    { apply (E_body_first_edge fuel depth n (END sb) (graph sb)
               (repeat 0 k) u (n + 1 + 2 * Z.of_nat i) rest a b y m1 m2);
        auto; try (apply get_repeat, Hk; lia).
      - rewrite sb_END.
        replace (n + 1 + 2 * Z.of_nat i - (n + 1)) with (2 * Z.of_nat i)
          by lia.
        exact Ha.
      - rewrite sb_END.
        replace (n + 1 + 2 * Z.of_nat i - (n + 1) + 1)
          with (2 * Z.of_nat i + 1) by lia.
        exact Hb. }
    rewrite <- Hsb in HE.
    assert (Hmu : Py.get m2 u = Some y) by (eapply get_set_same; eauto).
    assert (Hmy : Py.get m2 y = Some u).
    { rewrite (get_set_other _ _ u y y ltac:(lia) ltac:(lia) Huy Hm2).
      eapply get_set_same; eauto. }
    split; [exact HE|]. split; [exact Hy|]. split; [exact Huy|].
    split; [|split].
    + rewrite (matched_get _ u y) by exact Hmu. apply Z.gtb_lt. lia.
    + rewrite (matched_get _ y u) by exact Hmy. apply Z.gtb_lt. lia.
    + pose proof (E_body_K n (init n) (S fuel) (S depth) u ltac:(lia)
                    sb sb_K) as H.
      rewrite HE in H. destruct H as [Hi HK].
      split; [exact Hi | exact (K_restart _ _ _ HK)].
Qed.

(** The searches of the vertices [vs], from the object as built. *)
Lemma searches_built vs : forall s,
  Forall (fun u => 1 <= u <= n) vs ->
  for_each vs (E_body (S fuel) (S depth)) sb = Ok tt s ->
  (exists u, In u vs /\ incident (n + 1) es u <> []) ->
  exists u y s1,
    1 <= u <= n /\ 1 <= y <= n /\ u <> y /\
    matched s u = true /\ matched s y = true /\ K n s1 s.
Proof.
  induction vs as [|u vs IH]; intros s Hvs Hrun (u0 & Hu0 & Hinc).
  { destruct Hu0. }
  inversion Hvs as [|? ? Hu Hvs']; subst.
  cbn [for_each] in Hrun. unfold bind in Hrun.
  destruct (E_body_built u Hu) as [[He HE]|(s1 & y & HE & Hy & Huy & M1 & M2
                                          & Hi & HK)];
    rewrite HE in Hrun.
  - apply (IH s Hvs' Hrun). exists u0. split; auto.
    destruct Hu0 as [<-|H]; [congruence | exact H].
  - assert (H : triple (fun s => idle s /\ K n s1 s)
                       (for_each vs (E_body (S fuel) (S depth)))
                       (fun _ s => idle s /\ K n s1 s) any).
    { apply triple_for_each. intros v Hv. apply E_body_K.
      rewrite Forall_forall in Hvs'. specialize (Hvs' v Hv). lia. }
    specialize (H s1 (conj Hi HK)). rewrite Hrun in H.
    destruct H as [_ HK'].
    exists u, y, s1.
    split; [exact Hu|]. split; [exact Hy|]. split; [exact Huy|].
    split; [apply (matched_kept n s1); auto; lia|].
    split; [apply (matched_kept n s1); auto; lia|].
    exact HK'.
Qed.

End FirstEdge.

(** X11.  [E] finds an edge when there is one: on a graph built on
    vertices of [1..n] that has at least one edge and no edge from a vertex
    to itself, an [E()] that returns leaves at least two vertices matched,
    [getMatchingSize() >= 2]. *)
Theorem E_matches_an_edge
        (fuel depth : nat) (n : Z) (es : list (Z * Z)) (s : state) :
  es <> [] ->
  Forall (fun p => (1 <= fst p <= n /\ 1 <= snd p <= n) /\ fst p <> snd p)
         es ->
  run fuel depth n es = Ok tt s ->
  2 <= getMatchingSize s.
Proof.
  intros Hne Hes Hrun.
  apply (run_fuel_irrelevant fuel depth (S fuel) (S depth))
    in Hrun; [|lia|lia].
  assert (Hes' : Forall (fun p => 1 <= fst p <= n /\ 1 <= snd p <= n) es).
  { eapply Forall_impl; [|exact Hes]. simpl. tauto. }
  assert (Hn : 1 <= n).
  { destruct es as [|p es']; [congruence|].
    inversion Hes as [|? ? H _]; subst. lia. }
  destruct (build_inside n es (init n)) as (sb & Hb & HE & HF & HL & HG).
  { simpl. unfold Py.len. rewrite repeat_length. lia. }
  { eapply Forall_impl; [|exact Hes']. simpl. intros p [H1 H2]. lia. }
  simpl in HE, HG.
  unfold run in Hrun. unfold bind at 1 in Hrun. rewrite Hb in Hrun.
  unfold E, bind, gets in Hrun.
  assert (HV : V sb = n).
  { unfold search_fields in HF. injection HF as -> _. reflexivity. }
  rewrite HV in Hrun.
  destruct (searches_built n es sb fuel depth Hes HF HE) with
    (vs := vertices n) (s := s) as (u & y & s1 & Hu & Hy & Huy & M1 & M2 & HK).
  - intros j Hj. destruct (HG j Hj) as (adj & Ha & Hs).
    rewrite get_repeat in Ha by lia. injection Ha as <-.
    rewrite Hs. unfold Py.len. simpl. reflexivity.
  - apply (build_K n es sb Hes' Hb).
  - apply Forall_forall. intros v Hv. apply vertices_range in Hv. exact Hv.
  - exact Hrun.
  - destruct es as [|[a b] es']; [congruence|].
    inversion Hes as [|? ? [[Ha _] _] _]; subst. simpl in Ha.
    exists a. split; [apply vertices_In; exact Ha|].
    simpl. rewrite Z.eqb_refl. discriminate.
  - destruct (getMatchingSize_count s) as [-> _].
    { rewrite (K_V _ _ _ HK). lia. }
    { unfold Py.len. rewrite (K_len _ _ _ HK), (K_V _ _ _ HK). lia. }
    rewrite (K_V _ _ _ HK).
    change 2 with (Z.of_nat 2). apply inj_le.
    apply (two_members_length _ u y); auto;
      apply filter_In; split; auto; apply vertices_In; auto.
Qed.

Lemma E_matches_an_edge_witness :
  run 16 16 3 triangle = Ok tt (state_of (run 16 16 3 triangle)) /\
  2 <= getMatchingSize (state_of (run 16 16 3 triangle)).
Proof.
  assert (H1 : triangle <> []) by discriminate.
  assert (H2 : Forall (fun p => (1 <= fst p <= 3 /\ 1 <= snd p <= 3) /\
                                fst p <> snd p) triangle).
  { repeat constructor; simpl; lia. }
  assert (H3 : run 16 16 3 triangle =
               Ok tt (state_of (run 16 16 3 triangle))).
  { vm_compute. reflexivity. }
  split; [exact H3|].
  exact (E_matches_an_edge 16 16 3 triangle _ H1 H2 H3).
Defined.

(** * The order in which Python enumerates [outerVertices]

    The procedures again, the two loops over the set [outerVertices]
    taking its members in the order [enum] gives them instead of the order
    of insertion. *)

Definition stopTheSearch_in (enum : list Z -> list Z) : M unit :=
  assign LABEL with_LABEL 0 (-1) ;;;
  vs <- gets (fun s => enum (outerVertices s)) ;;
  for_each vs reset_labels ;;;
  modify (fun s => with_outerVertices s []) ;;;
  modify (fun s => with_outerEdges s []) ;;;
  modify (fun s => with_outerIdx s 0).

Definition L_update_FIRST_in (enum : list Z -> list Z) (join : Z) : M unit :=
  vs <- gets (fun s => enum (outerVertices s)) ;;
  for_each vs (update_FIRST join).

Definition L_blossom_in (enum : list Z -> list Z) (fuel : nat)
           (x y n_xy r s : Z) : M unit :=
  setFlag r n_xy ;;;
  join <- L_find fuel n_xy r s ;;
  fx <- index FIRST x ;;
  fy <- index FIRST y ;;
  L_label fuel n_xy join fx ;;;
  L_label fuel n_xy join fy ;;;
  L_update_FIRST_in enum join.

Definition L_in (enum : list Z -> list Z) (fuel : nat) (x y n_xy : Z) :
  M unit :=
  r <- index FIRST x ;;
  s <- index FIRST y ;;
  if r =? s then ret tt
  else L_blossom_in enum fuel x y n_xy r s.

Definition search_step_in (enum : list Z -> list Z) (fuel depth : nat)
           (u : Z) : M bool :=
  c <- chooseAnEdge ;;
  match c with
  | None => stopTheSearch_in enum ;;; ret false
  | Some (x, n_xy) =>
      edge <- getEdge n_xy ;;
      let y := Z.lxor (Z.lxor x (fst edge)) (snd edge) in
      my <- isMatched y ;;
      if negb my && negb (y =? u) then
        assign MATE with_MATE y x ;;;
        R depth x y ;;;
        stopTheSearch_in enum ;;;
        ret false
      else
        oy <- isOuterVertex y ;;
        if oy then
          L_in enum fuel x y n_xy ;;;
          ret true
        else
          v <- index MATE y ;;
          ov <- isOuterVertex v ;;
          (if negb ov then
             setLabel v x ;;;
             assign FIRST with_FIRST v y
           else ret tt) ;;;
          ret true
  end.

Fixpoint search_in (enum : list Z -> list Z) (fuel depth : nat) (u : Z)
         (k : nat) : M unit :=
  match k with
  | O => diverge
  | S k' =>
      again <- search_step_in enum fuel depth u ;;
      if again then search_in enum fuel depth u k' else ret tt
  end.

Definition E_body_in (enum : list Z -> list Z) (fuel depth : nat) (u : Z) :
  M unit :=
  m <- index MATE u ;;
  if m >? 0 then ret tt
  else
    setLabel u 0 ;;;
    assign FIRST with_FIRST u 0 ;;;
    search_in enum fuel depth u fuel.

Definition E_in (enum : list Z -> list Z) (fuel depth : nat) : M unit :=
  n <- gets V ;;
  for_each (vertices n) (E_body_in enum fuel depth).

(** [m'] returns whatever [m] returns. *)
Definition same_result {A} (m m' : M A) : Prop :=
  forall s a s', m s = Ok a s' -> m' s = Ok a s'.

Lemma same_result_refl {A} (m : M A) : same_result m m.
Proof. intros s a s' H. exact H. Qed.

Lemma same_result_bind {A B} (m m' : M A) (f f' : A -> M B) :
  same_result m m' -> (forall a, same_result (f a) (f' a)) ->
  same_result (bind m f) (bind m' f').
Proof.
  intros Hm Hf s b s' H. unfold bind in *.
  destruct (m s) as [a s1|e s1|] eqn:E; try discriminate.
  rewrite (Hm s a s1 E). apply Hf. exact H.
Qed.

Lemma same_result_if {A} (b : bool) (m1 m1' m2 m2' : M A) :
  same_result m1 m1' -> same_result m2 m2' ->
  same_result (if b then m1 else m2) (if b then m1' else m2').
Proof. destruct b; auto. Qed.

Lemma same_result_for_each {A} (xs : list A) (body body' : A -> M unit) :
  (forall x, same_result (body x) (body' x)) ->
  same_result (for_each xs body) (for_each xs body').
Proof.
  intros H. induction xs as [|x xs IH]; simpl.
  - apply same_result_refl.
  - apply same_result_bind; auto.
Qed.

Ltac same_tac :=
  repeat lazymatch goal with
    | |- same_result (bind _ _) (bind _ _) =>
        apply same_result_bind; [| intros ?]
    | |- same_result (if ?b then _ else _) (if ?b then _ else _) =>
        apply same_result_if
    | |- same_result ?m ?m => apply same_result_refl
    end.

Section Enumeration.

Variables enum1 enum2 : list Z -> list Z.
Hypothesis enum1_perm : forall l, Permutation (enum1 l) l.
Hypothesis enum2_perm : forall l, Permutation (enum2 l) l.

Lemma enum_Permutation l : Permutation (enum1 l) (enum2 l).
Proof.
  eapply perm_trans; [apply enum1_perm | apply Permutation_sym, enum2_perm].
Qed.

Lemma stopTheSearch_in_same :
  same_result (stopTheSearch_in enum1) (stopTheSearch_in enum2).
Proof.
  unfold stopTheSearch_in.
  apply same_result_bind; [apply same_result_refl|]. intros [].
  intros s a s' H. unfold bind, gets in *.
  destruct (for_each (enum1 (outerVertices s)) reset_labels s)
    as [[] s1|e s1|] eqn:E; try discriminate.
  rewrite (stopTheSearch_any_order _ _ _ _
             (enum_Permutation (outerVertices s)) E).
  exact H.
Qed.

Lemma L_update_FIRST_in_same join :
  same_result (L_update_FIRST_in enum1 join) (L_update_FIRST_in enum2 join).
Proof.
  unfold L_update_FIRST_in. intros s [] s' H. unfold bind, gets in *.
  apply (L_update_FIRST_any_order _ _ _ _ _
           (enum_Permutation (outerVertices s)) H).
Qed.

Lemma L_in_same fuel x y n_xy :
  same_result (L_in enum1 fuel x y n_xy) (L_in enum2 fuel x y n_xy).
Proof.
  unfold L_in, L_blossom_in. same_tac. apply L_update_FIRST_in_same.
Qed.

Lemma search_step_in_same fuel depth u :
  same_result (search_step_in enum1 fuel depth u)
              (search_step_in enum2 fuel depth u).
Proof.
  unfold search_step_in.
  apply same_result_bind; [apply same_result_refl|].
  intros [[x n_xy]|]; same_tac;
    try apply stopTheSearch_in_same; try apply L_in_same.
Qed.

Lemma search_in_same fuel depth u k :
  same_result (search_in enum1 fuel depth u k)
              (search_in enum2 fuel depth u k).
Proof.
  induction k as [|k IH]; simpl.
  - apply same_result_refl.
  - apply same_result_bind; [apply search_step_in_same|].
    intros [|]; [exact IH | apply same_result_refl].
Qed.

Lemma E_in_same fuel depth :
  same_result (E_in enum1 fuel depth) (E_in enum2 fuel depth).
Proof.
  unfold E_in. apply same_result_bind; [apply same_result_refl|].
  intros k. apply same_result_for_each. intros u.
  unfold E_body_in. same_tac. apply search_in_same.
Qed.

End Enumeration.

(** With the order of insertion the procedures are the ones above. *)
Lemma search_in_insertion_order fuel depth u k s :
  search_in (fun l => l) fuel depth u k s = search fuel depth u k s.
Proof.
  revert s. induction k as [|k IH]; intros s; simpl; [reflexivity|].
  change (search_step_in (fun l => l) fuel depth u)
    with (search_step fuel depth u).
  unfold bind. destruct (search_step fuel depth u s) as [[|] s1|e s1|]; auto.
Qed.

Lemma E_in_insertion_order fuel depth s :
  E_in (fun l => l) fuel depth s = E fuel depth s.
Proof.
  unfold E_in, E, bind, gets. apply for_each_ext_in.
  intros u _ s1. unfold E_body_in, E_body, bind.
  destruct (index MATE u s1) as [m s2|e s2|]; auto.
  destruct (m >? 0); auto.
  destruct (setLabel u 0 s2) as [[] s3|e s3|]; auto.
  destruct (assign FIRST with_FIRST u 0 s3) as [[] s4|e s4|]; auto.
  apply search_in_insertion_order.
Qed.

(** X12.  What [E] returns does not depend on the order in which Python
    enumerates the set [outerVertices] in the loops of [stopTheSearch]
    and of step L5: with the members taken in any order [enum], [E]
    returns exactly when it returns with the order of insertion, and with
    the same object. *)
Theorem E_any_enumeration
        (enum : list Z -> list Z) (fuel depth : nat) (s s' : state) :
  (forall l, Permutation (enum l) l) ->
  (E_in enum fuel depth s = Ok tt s' <-> E fuel depth s = Ok tt s').
Proof.
  intros Hp. rewrite <- E_in_insertion_order. split.
  - apply (E_in_same enum (fun l => l)); auto.
  - apply (E_in_same (fun l => l) enum); auto.
Qed.

Lemma E_any_enumeration_witness :
  (forall l : list Z, Permutation (rev l) l) /\
  E_in (@rev Z) 16 16 (state_of (build 5 five_cycle (init 5))) =
  Ok tt (state_of (run 16 16 5 five_cycle)).
Proof.
  assert (Hp : forall l : list Z, Permutation (rev l) l)
    by (intros l; apply Permutation_sym, Permutation_rev).
  split; [exact Hp|].
  apply (proj2 (E_any_enumeration (@rev Z) 16 16
                  (state_of (build 5 five_cycle (init 5)))
                  (state_of (run 16 16 5 five_cycle)) Hp)).
  vm_compute. reflexivity.
Defined.

(** * Smaller facts *)

(** ** Flags *)

(** X13.  [setFlag] and [isFlagged] round trip: when [setFlag(v, n_xy)]
    returns, [isFlagged(v, n_xy)] returns [True]; and for an edge number
    [n_xy > 0] flagging neither makes [v] outer nor queues an edge. *)
Theorem setFlag_then_isFlagged (v n_xy : Z) (s s' : state) :
  setFlag v n_xy s = Ok tt s' ->
  isFlagged v n_xy s' = Ok true s' /\
  (0 < n_xy -> outerVertices s' = outerVertices s /\
               outerEdges s' = outerEdges s).
Proof.
  unfold setFlag. intros H. split.
  - apply setLabel_LABEL in H. apply get_set_same in H.
    unfold isFlagged, bind, index, ret. rewrite H, Z.eqb_refl. reflexivity.
  - intros Hn. apply setLabel_neg in H; [|lia].
    destruct H as (l & _ & ->). split; reflexivity.
Qed.

Lemma setFlag_then_isFlagged_witness :
  setFlag 2 6 (init 3) = Ok tt (state_of (setFlag 2 6 (init 3))) /\
  isFlagged 2 6 (state_of (setFlag 2 6 (init 3))) =
  Ok true (state_of (setFlag 2 6 (init 3))).
Proof.
  split; [reflexivity|].
  exact (proj1 (setFlag_then_isFlagged 2 6 (init 3)
                  (state_of (setFlag 2 6 (init 3))) eq_refl)).
Defined.

(** ** [addEdge] and the matching *)

(** X14.  [addEdge] writes [END] and the adjacency lists only: however a
    call ends, [V], the labels, [MATE], [FIRST], the outer set, the queue
    and its cursor are what they were, so edges can be added to an object
    on which [E] has run without losing the matching found. *)
Theorem addEdge_keeps_the_matching (v w : Z) (s : state) :
  match addEdge v w s with
  | Ok _ s' | Raise _ s' =>
      V s' = V s /\ VPlusOne s' = VPlusOne s /\
      LABEL s' = LABEL s /\ MATE s' = MATE s /\ FIRST s' = FIRST s /\
      outerVertices s' = outerVertices s /\ outerEdges s' = outerEdges s /\
      outerIdx s' = outerIdx s
  | OutOfFuel => True
  end.
Proof.
  assert (H : preserves (fun s' => search_fields s' = search_fields s)
                        (addEdge v w)).
  { unfold addEdge, graph_append. preserve_tac;
      try (apply preserves_modify; intros s0 H0; exact H0);
      apply preserves_assign; intros s0 l H0; exact H0. }
  specialize (H s eq_refl).
  destruct (addEdge v w s) as [a s'|e s'|]; auto;
    unfold search_fields in H; injection H as -> -> -> -> -> -> -> ->;
    repeat split.
Qed.

(** ** The size of a matching *)

(** A list without repetition on which [f] pairs the members off has an
    even number of members. *)
Lemma paired_off_even (f : Z -> Z) : forall (k : nat) (l : list Z),
  length l = k -> NoDup l ->
  (forall x, In x l -> In (f x) l /\ f (f x) = x /\ f x <> x) ->
  exists h, length l = (2 * h)%nat.
Proof.
  induction k as [k IH] using lt_wf_ind. intros l Hlen Hnd Hf.
  destruct l as [|x t].
  { exists 0%nat. reflexivity. }
  destruct (Hf x (or_introl eq_refl)) as (Hin & Hinv & Hne).
  destruct Hin as [Heq|Hin]; [congruence|].
  destruct (in_split _ _ Hin) as (t1 & t2 & ->).
  inversion Hnd as [|? ? Hx Hnd']; subst.
  pose proof (NoDup_remove_1 _ _ _ Hnd') as Hnd1.
  pose proof (NoDup_remove_2 _ _ _ Hnd') as Hfx.
  destruct (IH (length (t1 ++ t2))) with (l := t1 ++ t2) as (h & Hh); auto.
  { simpl. rewrite !length_app. simpl. lia. }
  { intros z Hz.
    assert (Hz' : In z (x :: t1 ++ f x :: t2)).
    { right. apply in_app_or in Hz. apply in_or_app. simpl. tauto. }
    destruct (Hf z Hz') as (Hfz & Hzz & Hzn).
    split; [|auto].
    destruct Hfz as [Hfz|Hfz].
    - exfalso. apply Hfx. rewrite Hfz, Hzz. exact Hz.
    - apply in_app_or in Hfz. apply in_or_app.
      destruct Hfz as [Hfz|[Hfz|Hfz]]; auto.
      exfalso. apply Hx.
      assert (Hzx : z = x) by (rewrite <- Hzz, <- Hfz; exact Hinv).
      rewrite <- Hzx.
      apply in_app_or in Hz. apply in_or_app. simpl. tauto. }
  exists (S h). simpl. rewrite !length_app in *. simpl. lia.
Qed.

Lemma vertices_NoDup n : NoDup (vertices n).
Proof.
  unfold vertices. apply Finite.Injective_map_NoDup.
  - intros a b H. lia.
  - apply seq_NoDup.
Qed.

(** X15.  When [MATE] is a matching of [1..V] (a matched vertex has its
    mate in [1..V], is the mate of its mate, and is not its own mate),
    [getMatchingSize()] is even: it is twice the number of matched
    pairs. *)
Theorem getMatchingSize_even_for_a_matching (s : state) :
  0 <= V s -> Py.len (MATE s) = V s + 1 ->
  (forall v m, 1 <= v <= V s -> Py.get (MATE s) v = Some m -> 0 < m ->
     1 <= m <= V s /\ m <> v /\ Py.get (MATE s) m = Some v) ->
  exists pairs, getMatchingSize s = 2 * Z.of_nat pairs.
Proof.
  intros HV Hlen Hm.
  destruct (getMatchingSize_count s HV Hlen) as [-> _].
  set (l := filter (matched s) (vertices (V s))).
  set (f := fun v => match Py.get (MATE s) v with Some m => m | None => 0 end).
  destruct (paired_off_even f (length l) l eq_refl) as (h & Hh).
  - apply NoDup_filter, vertices_NoDup.
  - intros x Hx. apply filter_In in Hx. destruct Hx as [Hx Hmx].
    apply vertices_range in Hx.
    unfold matched, isMatched, bind, index, ret in Hmx.
    destruct (Py.get (MATE s) x) as [m|] eqn:Eg; [|discriminate].
    apply Z.gtb_lt in Hmx.
    destruct (Hm x m Hx Eg Hmx) as (Hr & Hne & Hback).
    unfold f. rewrite Eg, Hback. repeat split; auto.
    apply filter_In. split; [apply vertices_In; exact Hr|].
    rewrite (matched_get _ _ _ Hback). apply Z.gtb_lt. lia.
  - exists h. rewrite Hh. lia.
Qed.

Lemma getMatchingSize_even_for_a_matching_witness :
  exists pairs,
    getMatchingSize (with_MATE (init 4) [0; 2; 1; 4; 3]) =
    2 * Z.of_nat pairs.
Proof.
  apply (getMatchingSize_even_for_a_matching
           (with_MATE (init 4) [0; 2; 1; 4; 3])).
  - simpl. lia.
  - reflexivity.
  - simpl. intros v m Hv Hg Hm.
    assert (Hc : v = 1 \/ v = 2 \/ v = 3 \/ v = 4) by lia.
    destruct Hc as [-> | [-> | [-> | ->]]]; injection Hg as <-;
      (split; [lia|split; [lia|reflexivity]]).
Defined.

(** ** One pass of the search loop *)

(** The cursor is at [i] and the queue starts with [q]. *)
Definition queue_from (q : list (Z * Z)) (i : Z) (s : state) : Prop :=
  outerIdx s = i /\ exists more, outerEdges s = q ++ more.

Lemma setLabel_appends q i v label :
  preserves (queue_from q i) (setLabel v label).
Proof.
  unfold setLabel. preserve_tac.
  - apply preserves_assign. intros s l H. exact H.
  - apply preserves_modify. intros s H. exact H.
  - apply preserves_modify. intros s [Hi (more & Hq)]. split; [exact Hi|].
    simpl. rewrite Hq, <- app_assoc. eauto.
Qed.

Lemma L_appends q i fuel x y n_xy :
  preserves (queue_from q i) (L fuel x y n_xy).
Proof.
  apply L_keeps.
  - intros s j a l H _. exact H.
  - apply setLabel_appends.
Qed.

Lemma triple_whatever {A} (P : state -> Prop) (m : M A) :
  triple P m (fun _ _ => True) any.
Proof. intros s _. destruct (m s); exact I. Qed.

Lemma search_step_queue q i fuel depth u :
  triple (queue_from q i) (search_step fuel depth u)
         (fun again s => again = true -> queue_from q (i + 1) s) any.
Proof.
  unfold search_step.
  eapply triple_bind with
    (Q1 := fun c s => match c with
                      | Some _ => queue_from q (i + 1) s
                      | None => True
                      end).
  { intros s [Hi Hq]. unfold chooseAnEdge, bind, gets, index, modify, ret.
    destruct (Py.len (outerEdges s) >? outerIdx s); [|exact I].
    destruct (Py.get (outerEdges s) (outerIdx s)); [|exact I].
    split; [simpl; lia | exact Hq]. }
  intros [[x n_xy]|].
  - eapply triple_bind; [apply triple_keep, getEdge_preserves|]. intros edge.
    eapply triple_bind;
      [apply triple_keep; unfold isMatched; preserve_tac|].
    intros my. apply triple_if; intros _.
    + eapply triple_bind; [apply triple_whatever|]. intros [].
      eapply triple_bind; [apply triple_whatever|]. intros [].
      eapply triple_bind; [apply triple_whatever|]. intros [].
      apply triple_ret. discriminate.
    + eapply triple_bind;
        [apply triple_keep; unfold isOuterVertex; apply preserves_gets|].
      intros oy. apply triple_if; intros _.
      * eapply triple_bind; [apply triple_keep, L_appends|]. intros [].
        apply triple_ret. auto.
      * eapply triple_bind; [apply triple_keep, preserves_index|].
        intros v.
        eapply triple_bind;
          [apply triple_keep; unfold isOuterVertex; apply preserves_gets|].
        intros ov.
        eapply triple_bind with (Q1 := fun _ => queue_from q (i + 1)).
        { apply triple_if; intros _; [|apply triple_ret; auto].
          eapply triple_bind; [apply triple_keep, setLabel_appends|].
          intros []. apply triple_assign; [|intros; exact I].
          intros s l H _. exact H. }
        intros []. apply triple_ret. auto.
  - eapply triple_bind; [apply triple_whatever|]. intros [].
    apply triple_ret. discriminate.
Qed.

(** X16.  A pass of the loop of [E] after which the loop goes round again
    has taken exactly one pair from the queue: the cursor [outerIdx] is one
    further, and the queue is what it was with, possibly, pairs added at
    its end. *)
Theorem search_step_takes_one_pair
        (fuel depth : nat) (u : Z) (s s' : state) :
  search_step fuel depth u s = Ok true s' ->
  outerIdx s' = outerIdx s + 1 /\
  exists more, outerEdges s' = outerEdges s ++ more.
Proof.
  intros H.
  pose proof (search_step_queue (outerEdges s) (outerIdx s) fuel depth u s)
    as Hq.
  rewrite H in Hq. apply Hq; [|reflexivity].
  split; [reflexivity|]. exists []. rewrite app_nil_r. reflexivity.
Qed.

(** The search of vertex 3 on the path 1-2-3 with 1 and 2 matched, before
    its first pass. *)
Definition path3_seeded : state :=
  state_of ((for_each [OpAddEdge 1 2; OpE; OpAddEdge 2 3] (do_op 16 16) ;;;
             setLabel 3 0 ;;; assign FIRST with_FIRST 3 0) (init 3)).

Lemma search_step_takes_one_pair_witness :
  search_step 16 16 3 path3_seeded =
  Ok true (state_of (search_step 16 16 3 path3_seeded)) /\
  outerIdx (state_of (search_step 16 16 3 path3_seeded)) =
  outerIdx path3_seeded + 1.
Proof.
  assert (H : search_step 16 16 3 path3_seeded =
              Ok true (state_of (search_step 16 16 3 path3_seeded))).
  { vm_compute. reflexivity. }
  split; [exact H|].
  exact (proj1 (search_step_takes_one_pair 16 16 3 path3_seeded _ H)).
Defined.

(** ** Queries *)

(** The outcome leaves the object as it was. *)
Definition unchanged {A} (o : outcome A) (s : state) : Prop :=
  match o with
  | Ok _ s' | Raise _ s' => s' = s
  | OutOfFuel => False
  end.

(** The query methods are pure: [getEdge], [hasVertexLabel],
    [hasEdgeLabel], [hasStartLabel], [isMatched], [isOuterVertex] and
    [isFlagged] end, with a value or an exception, and leave the object as
    it was. *)
Lemma queries_change_nothing (v n_xy : Z) (s : state) :
  unchanged (getEdge n_xy s) s /\
  unchanged (hasVertexLabel v s) s /\
  unchanged (hasEdgeLabel v s) s /\
  unchanged (hasStartLabel v s) s /\
  unchanged (isMatched v s) s /\
  unchanged (isOuterVertex v s) s /\
  unchanged (isFlagged v n_xy s) s.
Proof.
  unfold getEdge, hasVertexLabel, hasEdgeLabel, hasStartLabel, isMatched,
    isOuterVertex, isFlagged, py_le, bind, index, gets, ret, raise.
  repeat split; simpl;
    repeat match goal with
           | |- context [Py.get ?l ?i] => destruct (Py.get l i); simpl
           | |- context [if ?b then _ else _] => destruct b; simpl
           end; reflexivity.
Qed.

(** * [example.py] *)

(** ** [valid] *)

(** [s & (s-1) != 0]: in Python [&] binds tighter than [!=], and integers
    are unbounded, a negative one behaving as its infinite two's
    complement, as [Z.land] has it. *)
Definition valid (n m : Z) : bool :=
  let s := n + m in
  negb (Z.land s (s - 1) =? 0).

Lemma land_double_odd a b : Z.land (2 * a) (2 * b + 1) = 2 * Z.land a b.
Proof.
  apply Z.bits_inj'. intros i Hi. rewrite Z.land_spec.
  destruct (Z.eq_dec i 0) as [->|Hne].
  - rewrite !Z.testbit_even_0. reflexivity.
  - replace i with (Z.succ (i - 1)) by lia.
    rewrite !Z.testbit_even_succ, Z.testbit_odd_succ, Z.land_spec by lia.
    reflexivity.
Qed.

Lemma land_odd_pred a : Z.land (2 * a + 1) (2 * a) = 2 * a.
Proof.
  apply Z.bits_inj'. intros i Hi. rewrite Z.land_spec.
  destruct (Z.eq_dec i 0) as [->|Hne].
  - rewrite Z.testbit_even_0. apply andb_false_r.
  - replace i with (Z.succ (i - 1)) by lia.
    rewrite Z.testbit_even_succ, Z.testbit_odd_succ by lia.
    apply andb_diag.
Qed.

Lemma pow2_pos_land (p : positive) :
  Z.land (Z.pos p) (Z.pos p - 1) = 0 <->
  exists k, 0 <= k /\ Z.pos p = 2 ^ k.
Proof.
  induction p as [p IH|p IH|].
  - replace (Z.pos p~1) with (2 * Z.pos p + 1) by lia.
    replace (2 * Z.pos p + 1 - 1) with (2 * Z.pos p) by lia.
    rewrite land_odd_pred. split; [lia|].
    intros (k & Hk & H). exfalso.
    destruct (Z.eq_dec k 0) as [->|Hne].
    + simpl in H. lia.
    + replace k with (Z.succ (k - 1)) in H by lia.
      rewrite Z.pow_succ_r in H by lia. lia.
  - replace (Z.pos p~0) with (2 * Z.pos p) by lia.
    replace (2 * Z.pos p - 1) with (2 * (Z.pos p - 1) + 1) by lia.
    rewrite land_double_odd. split.
    + intros H. assert (H' : Z.land (Z.pos p) (Z.pos p - 1) = 0) by lia.
      apply IH in H'. destruct H' as (k & Hk & Hp).
      exists (Z.succ k). split; [lia|].
      rewrite Z.pow_succ_r by lia. lia.
    + intros (k & Hk & H).
      destruct (Z.eq_dec k 0) as [->|Hne].
      * simpl in H. lia.
      * replace k with (Z.succ (k - 1)) in H by lia.
        rewrite Z.pow_succ_r in H by lia.
        assert (H' : Z.land (Z.pos p) (Z.pos p - 1) = 0).
        { apply IH. exists (k - 1). split; lia. }
        lia.
  - split; [|reflexivity]. intros _. exists 0. split; [lia | reflexivity].
Qed.

(** X17.  [valid(n, m)] is [False] exactly when [n + m] is 0 or a power of
    two, for all integers, negative ones included. *)
Theorem valid_false_iff_power_of_two (n m : Z) :
  valid n m = false <-> n + m = 0 \/ exists k, 0 <= k /\ n + m = 2 ^ k.
Proof.
  unfold valid. cbv zeta. rewrite negb_false_iff, Z.eqb_eq.
  destruct (n + m) as [|p|p] eqn:Es.
  - split; [auto | reflexivity].
  - rewrite pow2_pos_land. split; [auto|]. intros [H|H]; [discriminate|auto].
  - split.
    + intros H. exfalso.
      assert (Hneg : Z.land (Z.neg p) (Z.neg p - 1) < 0)
        by (apply Z.land_neg; lia).
      lia.
    + intros [H|(k & Hk & H)]; [discriminate|].
      exfalso. assert (0 < 2 ^ k) by (apply Z.pow_pos_nonneg; lia). lia.
Qed.

(** ** [solution] *)

(** [range(a, b)] *)
Definition range (a b : Z) : list Z :=
  map (fun k => a + Z.of_nat k) (seq 0 (Z.to_nat (b - a))).

(** The body of the inner loop; [bananas] is the argument of [solution],
    not a field of the object. *)
Definition add_pair (bananas : list Z) (i j : Z) : M unit :=
  bi <- index (fun _ => bananas) i ;;
  bj <- index (fun _ => bananas) j ;;
  if valid bi bj then addEdge (i + 1) (j + 1) else ret tt.

(** The two nested loops. *)
Definition add_valid_pairs (bananas : list Z) : M unit :=
  let nodes := Py.len bananas in
  for_each (range 0 nodes) (fun i =>
    for_each (range (i + 1) nodes) (add_pair bananas i)).

(** [solution(bananas)]; the object of the outcome is the local
    [maxMatching]. *)
Definition solution (fuel depth : nat) (bananas : list Z) : outcome Z :=
  let nodes := Py.len bananas in
  (add_valid_pairs bananas ;;;
   E fuel depth ;;;
   size <- gets getMatchingSize ;;
   ret (nodes - size)) (init nodes).

Lemma range_In a b x : In x (range a b) <-> a <= x < b.
Proof.
  unfold range. rewrite in_map_iff. split.
  - intros (k & <- & Hk). apply in_seq in Hk. lia.
  - intros H. exists (Z.to_nat (x - a)). split; [lia|].
    apply in_seq. lia.
Qed.

(** The pairs [(i + 1, j + 1)] the loops pass to [addEdge], in the order
    of the calls. *)
Definition valid_pairs (bananas : list Z) : list (Z * Z) :=
  flat_map (fun i =>
    flat_map (fun j =>
      match Py.get bananas i, Py.get bananas j with
      | Some bi, Some bj => if valid bi bj then [(i + 1, j + 1)] else []
      | _, _ => []
      end)
      (range (i + 1) (Py.len bananas)))
    (range 0 (Py.len bananas)).

Lemma get_some_inside {A} (l : list A) i :
  0 <= i < Py.len l -> exists a, Py.get l i = Some a.
Proof.
  intros Hi. rewrite get_inside by exact Hi.
  destruct (nth_error l (Z.to_nat i)) as [a|] eqn:E; eauto.
  apply nth_error_None in E. unfold Py.len in Hi. lia.
Qed.

Lemma add_valid_pairs_build bananas s :
  add_valid_pairs bananas s =
  build (Py.len bananas) (valid_pairs bananas) s.
Proof.
  unfold add_valid_pairs, build, valid_pairs. cbv zeta.
  rewrite for_each_flat_map. apply for_each_ext_in.
  intros i Hi s1. apply range_In in Hi.
  rewrite for_each_flat_map. apply for_each_ext_in.
  intros j Hj s2. apply range_In in Hj.
  destruct (get_some_inside bananas i ltac:(lia)) as (bi & Hbi).
  destruct (get_some_inside bananas j ltac:(lia)) as (bj & Hbj).
  unfold add_pair, bind, index. rewrite Hbi, Hbj.
  destruct (valid bi bj); simpl; [|reflexivity].
  unfold bind. destruct (addEdge (i + 1) (j + 1) s2) as [[] s'|e s'|]; auto.
Qed.

Lemma valid_pairs_In bananas v w :
  In (v, w) (valid_pairs bananas) <->
  1 <= v < w /\ w <= Py.len bananas /\
  exists bv bw, Py.get bananas (v - 1) = Some bv /\
                Py.get bananas (w - 1) = Some bw /\ valid bv bw = true.
Proof.
  unfold valid_pairs. rewrite in_flat_map. split.
  - intros (i & Hi & H). apply range_In in Hi.
    apply in_flat_map in H. destruct H as (j & Hj & H).
    apply range_In in Hj.
    destruct (Py.get bananas i) as [bi|] eqn:Ei; [|destruct H].
    destruct (Py.get bananas j) as [bj|] eqn:Ej; [|destruct H].
    destruct (valid bi bj) eqn:Ev; [|destruct H].
    destruct H as [[= <- <-]|[]].
    split; [lia|]. split; [lia|].
    exists bi, bj. replace (i + 1 - 1) with i by lia.
    replace (j + 1 - 1) with j by lia. auto.
  - intros (Hv & Hw & bv & bw & Ebv & Ebw & Ev).
    exists (v - 1). split; [apply range_In; lia|].
    apply in_flat_map. exists (w - 1). split; [apply range_In; lia|].
    rewrite Ebv, Ebw, Ev. left. f_equal; lia.
Qed.

(** X18.  The two loops of [solution] never raise: they end with the
    object that [addEdge] calls for a list of pairs build on
    [MaxMatching(len(bananas))], the list holding [(v, w)] exactly when
    [1 <= v < w <= len(bananas)] and [valid(bananas[v-1], bananas[w-1])], so
    the graph has no loop and every vertex id is in range. *)
Theorem solution_builds_the_valid_pairs (bananas : list Z) :
  exists es s,
    add_valid_pairs bananas (init (Py.len bananas)) = Ok tt s /\
    build (Py.len bananas) es (init (Py.len bananas)) = Ok tt s /\
    END s = ends es /\
    forall v w, In (v, w) es <->
      1 <= v < w /\ w <= Py.len bananas /\
      exists bv bw, Py.get bananas (v - 1) = Some bv /\
                    Py.get bananas (w - 1) = Some bw /\ valid bv bw = true.
Proof.
  exists (valid_pairs bananas).
  destruct (build_inside (Py.len bananas) (valid_pairs bananas)
              (init (Py.len bananas))) as (s & Hb & HE & _).
  { simpl. unfold Py.len. rewrite repeat_length. lia. }
  { apply Forall_forall. intros [v w] Hp. apply valid_pairs_In in Hp.
    simpl. lia. }
  exists s. split; [rewrite add_valid_pairs_build; exact Hb|].
  split; [exact Hb|]. split; [exact HE|].
  intros v w. apply valid_pairs_In.
Qed.

Lemma filter_negb_length {A} (f : A -> bool) l :
  (length (filter f l) + length (filter (fun x => negb (f x)) l) =
   length l)%nat.
Proof.
  induction l as [|x l IH]; simpl; [reflexivity|].
  destruct (f x); simpl; lia.
Qed.

Lemma vertices_length n : length (vertices n) = Z.to_nat n.
Proof. unfold vertices. rewrite length_map, length_seq. reflexivity. Qed.

(** X19.  When [solution] returns, what it returns is the number of
    vertices of [1..len(bananas)] that [E] left unmatched (those with
    [isMatched] not [True]); it lies between 0 and [len(bananas)]. *)
Theorem solution_counts_unmatched
        (fuel depth : nat) (bananas : list Z) (r : Z) (s : state) :
  solution fuel depth bananas = Ok r s ->
  r = Z.of_nat (length (filter (fun v => negb (matched s v))
                               (vertices (Py.len bananas)))) /\
  0 <= r <= Py.len bananas.
Proof.
  unfold solution. cbv zeta. intros H.
  destruct (build_inside (Py.len bananas) (valid_pairs bananas)
              (init (Py.len bananas))) as (s1 & Hb & _ & HF & _).
  { simpl. unfold Py.len. rewrite repeat_length. lia. }
  { apply Forall_forall. intros [v w] Hp. apply valid_pairs_In in Hp.
    simpl. lia. }
  rewrite <- add_valid_pairs_build in Hb.
  unfold bind at 1 in H. rewrite Hb in H.
  unfold bind at 1 in H.
  pose proof (E_keeps_shape fuel depth (shape s1) s1 eq_refl) as HE.
  destruct (E fuel depth s1) as [[] s2|e s2|]; try discriminate.
  unfold bind, gets, ret in H. injection H as <- <-.
  assert (HV : V s2 = Py.len bananas).
  { unfold shape in HE. injection HE as -> _ _ _ _ _ _.
    unfold search_fields in HF. injection HF as -> _ _ _ _ _ _ _.
    reflexivity. }
  assert (HM : Py.len (MATE s2) = V s2 + 1).
  { unfold Py.len at 1. unfold shape in HE.
    injection HE as _ _ _ _ _ -> _.
    unfold search_fields in HF. injection HF as _ _ _ _ _ _ -> _.
    simpl. rewrite repeat_length. rewrite HV. unfold Py.len. lia. }
  destruct (getMatchingSize_count s2) as [Hc Hr];
    [rewrite HV; unfold Py.len; lia | exact HM |].
  rewrite HV in Hc, Hr. split; [|lia].
  rewrite Hc.
  pose proof (filter_negb_length (matched s2) (vertices (Py.len bananas)))
    as Hsum.
  rewrite vertices_length in Hsum. unfold Py.len in *. lia.
Qed.

Lemma solution_counts_unmatched_witness :
  solution 1 1 [1; 1] = Ok 2 (init 2) /\ 0 <= 2 <= Py.len [1; 1].
Proof.
  split; [reflexivity|].
  exact (proj2 (solution_counts_unmatched 1 1 [1; 1] 2 (init 2) eq_refl)).
Defined.

(** X20.  When no two bananas make a valid pair, [solution] adds no edge
    and returns [len(bananas)]: nobody can be paired. *)
Theorem solution_without_valid_pairs
        (fuel depth : nat) (bananas : list Z) :
  (forall i j bi bj, 0 <= i < j -> j < Py.len bananas ->
     Py.get bananas i = Some bi -> Py.get bananas j = Some bj ->
     valid bi bj = false) ->
  solution (S fuel) depth bananas =
  Ok (Py.len bananas) (init (Py.len bananas)).
Proof.
  intros Hno.
  assert (Hes : valid_pairs bananas = []).
  { destruct (valid_pairs bananas) as [|[v w] es] eqn:E; [reflexivity|].
    exfalso.
    assert (Hin : In (v, w) (valid_pairs bananas))
      by (rewrite E; left; reflexivity).
    apply valid_pairs_In in Hin.
    destruct Hin as (Hv & Hw & bv & bw & Ev & Ew & Hval).
    rewrite (Hno (v - 1) (w - 1) bv bw) in Hval; try discriminate;
      try lia; auto. }
  unfold solution. cbv zeta.
  unfold bind at 1. rewrite add_valid_pairs_build, Hes.
  unfold build. cbn [for_each]. unfold ret at 1.
  unfold bind at 1. rewrite E_no_edges.
  unfold bind, gets, ret. rewrite getMatchingSize_init, Z.sub_0_r.
  reflexivity.
Qed.

Lemma solution_without_valid_pairs_witness :
  solution 1 0 [1; 1] = Ok 2 (init 2).
Proof.
  apply (solution_without_valid_pairs 0 0 [1; 1]).
  intros i j bi bj Hi Hj. change (Py.len [1; 1]) with 2 in Hj.
  assert (i = 0 /\ j = 1) as [-> ->] by lia.
  intros [= <-] [= <-]. reflexivity.
Defined.

(** The two calls of the script: [solution([1, 1])] is 2 and
    [solution([1, 7, 3, 21, 13, 19])] is 0. *)
Lemma solution_of_the_examples :
  (exists s, solution 16 16 [1; 1] = Ok 2 s) /\
  (exists s, solution 16 16 [1; 7; 3; 21; 13; 19] = Ok 0 s).
Proof. split; eexists; vm_compute; reflexivity. Qed.
